(** * Raindrop → Notion sync: the incremental sync and the nightly reconciliation

    A shallow embedding of [api/sync.ts], [api/reconcile.ts], [lib/raindrop.ts]
    and [lib/notion.ts].  The two external services are explicit values: the
    Raindrop API is a record of response oracles, the Notion database is a
    finite map from page ids to pages.  A handler is a function from the
    request, the environment, the services and the clock to the new database
    and the JSON response (or the 500 error of the [catch] block).

    The one piece of state that outlives an invocation is the title cache of
    [lib/raindrop.ts].  [Sync.run] and [Reconcile.run] are the handlers with
    every title request made anew; [Cached.sync_run] and
    [Cached.reconcile_run] are the handlers with the cache, and end as the
    former do over the service seen through the cache
    ([CachedFacts.sync_run_through], [CachedFacts.reconcile_run_through]). *)

From Stdlib Require Import ZArith QArith String Ascii List Bool Lia.
From stdpp Require Import base numbers option list strings gmap pretty.

Local Open Scope string_scope.
Local Open Scope list_scope.
Local Open Scope Z_scope.

(** ** JavaScript values the handlers rely on *)

Module Js.

(** A number as the handlers compute with it: an integer-valued IEEE double
    ([Num z], with [z] the integer it stands for), an infinity or [NaN]. *)
Inductive num : Type :=
| NaN : num
| Infinity (negative : bool) : num
| Num (z : Z) : num.

Definition isFinite (n : num) : bool :=
  match n with Num _ => true | _ => false end.

(** [!s] on a string: only the empty string is falsy. *)
Definition truthy (s : string) : bool :=
  match s with EmptyString => false | String _ _ => true end.

(** [!s] on [string | undefined]. *)
Definition truthy_opt (s : option string) : bool :=
  match s with Some s => truthy s | None => false end.

(** [a || b] on [string | undefined] operands. *)
Definition or_else (a : option string) (b : string) : string :=
  match a with
  | Some s => if truthy s then s else b
  | None => b
  end.

Definition is_space (c : ascii) : bool :=
  let n := nat_of_ascii c in
  ((9 <=? n)%nat && (n <=? 13)%nat) || (n =? 32)%nat.

Definition digit_val (c : ascii) : option Z :=
  let n := Z.of_nat (nat_of_ascii c) in
  if (48 <=? n) && (n <=? 57) then Some (n - 48) else None.

Fixpoint skip_spaces (s : string) : string :=
  match s with
  | String c r => if is_space c then skip_spaces r else s
  | EmptyString => s
  end.

(** The longest decimal prefix: its value and how many digits it has. *)
Fixpoint digits_prefix (acc : Z) (count : nat) (s : string) : Z * nat :=
  match s with
  | String c r =>
      match digit_val c with
      | Some d => digits_prefix (10 * acc + d) (S count) r
      | None => (acc, count)
      end
  | EmptyString => (acc, count)
  end.

(** Magnitudes from here on round to [Infinity] as IEEE doubles. *)
Definition double_overflow : Z := Eval vm_compute in 2 ^ 1024 - 2 ^ 970.

(** The double nearest to the magnitude [m], ties to even: a double carries
    53 significant bits, so from [2 ^ 53] on the low bits are rounded away. *)
Definition nearest_double (m : Z) : Z :=
  let e := Z.log2 m - 52 in
  if e <=? 0 then m
  else
    let q := Z.shiftr m e in
    let r := Z.land m (Z.ones e) in
    let half := Z.shiftl 1 (e - 1) in
    Z.shiftl (if (half <? r) || ((half =? r) && Z.odd q) then q + 1 else q) e.

Definition of_magnitude (negative : bool) (m : Z) : num :=
  if double_overflow <=? m then Infinity negative
  else Num (if negative then - nearest_double m else nearest_double m).

(** The double for the exact result [z] of an operation. *)
Definition of_Z (z : Z) : num := of_magnitude (z <? 0) (Z.abs z).

Definition neg (a : num) : num :=
  match a with
  | NaN => NaN
  | Infinity s => Infinity (negb s)
  | Num z => Num (- z)
  end.

(** [a + b], [a - b] and [a * b] on doubles. *)
Definition add (a b : num) : num :=
  match a, b with
  | NaN, _ | _, NaN => NaN
  | Infinity s, Infinity s' => if Bool.eqb s s' then Infinity s else NaN
  | Infinity s, Num _ | Num _, Infinity s => Infinity s
  | Num x, Num y => of_Z (x + y)
  end.

Definition sub (a b : num) : num := add a (neg b).

Definition mul (a b : num) : num :=
  match a, b with
  | NaN, _ | _, NaN => NaN
  | Infinity s, Infinity s' => Infinity (xorb s s')
  | Infinity s, Num y | Num y, Infinity s =>
      if y =? 0 then NaN else Infinity (xorb s (y <? 0))
  | Num x, Num y => of_Z (x * y)
  end.

(** [new Date(v)]: the time value of the date, [None] for an invalid date.
    A time value lies within 8.64e15 ms of the epoch. *)
Definition newDate (v : num) : option Z :=
  match v with
  | Num z => if Z.abs z <=? 8640000000000000 then Some z else None
  | _ => None
  end.

(** [parseInt(s, 10)]: the digits are read exactly and rounded once, as V8
    does. *)
Definition parseInt (s : string) : num :=
  let body (negative : bool) (r : string) :=
    match digits_prefix 0 0 r with
    | (_, O) => NaN
    | (m, S _) => of_magnitude negative m
    end in
  match skip_spaces s with
  | String "-" r => body true r
  | String "+" r => body false r
  | r => body false r
  end.

Definition lower_char (c : ascii) : ascii :=
  let n := nat_of_ascii c in
  if (65 <=? n)%nat && (n <=? 90)%nat then ascii_of_nat (n + 32) else c.

(** [s.toLowerCase()] on ASCII text. *)
Fixpoint toLowerCase (s : string) : string :=
  match s with
  | String c r => String (lower_char c) (toLowerCase r)
  | EmptyString => EmptyString
  end.

(** [s.slice(0, n)] on a string. *)
Fixpoint slice0 (n : nat) (s : string) : string :=
  match n, s with
  | S k, String c r => String c (slice0 k r)
  | _, _ => EmptyString
  end.

(** A JavaScript [Map<number, V>]: iteration follows insertion order and
    [set] on a present key replaces the value where the key already is. *)
Section Map.
Context {V : Type}.

Definition map := list (Z * V).

Fixpoint set (k : Z) (v : V) (m : map) : map :=
  match m with
  | [] => [(k, v)]
  | (k', v') :: r => if k =? k' then (k, v) :: r else (k', v') :: set k v r
  end.

Fixpoint get (k : Z) (m : map) : option V :=
  match m with
  | [] => None
  | (k', v') :: r => if k =? k' then Some v' else get k r
  end.

Definition has (k : Z) (m : map) : bool :=
  match get k m with Some _ => true | None => false end.

Definition keys (m : map) : list Z := List.map fst m.
Definition values (m : map) : list V := List.map snd m.
Definition size (m : map) : nat := length m.
End Map.
Arguments map : clear implicits.

#[global] Arguments nearest_double : simpl never.
#[global] Arguments of_magnitude : simpl never.
#[global] Arguments of_Z : simpl never.
#[global] Arguments add : simpl never.
#[global] Arguments mul : simpl never.
#[global] Arguments newDate : simpl never.

End Js.

(** ** Dates

    [getTime s] is [new Date(s).getTime()], [None] standing for [NaN];
    [toISOString t] is [new Date(t).toISOString()] for a time value [t] (the
    clock only gives time values; a date that may be invalid is an
    [option Z], see [Js.newDate]).  The handlers are parametric in the two
    functions. *)

Class JsDate : Type := {
  getTime : string -> option Z;
  toISOString : Z -> string
}.

(** A reference instance: the UTC extended format [YYYY-MM-DDTHH:mm:ss.sssZ]
    for the years 0000 to 9999, any other text being an invalid date. *)
Module IsoDate.

Definition days_from_civil (y m d : Z) : Z :=
  let y := if m <=? 2 then y - 1 else y in
  let era := y / 400 in
  let yoe := y - era * 400 in
  let mp := if 2 <? m then m - 3 else m + 9 in
  let doy := (153 * mp + 2) / 5 + d - 1 in
  let doe := yoe * 365 + yoe / 4 - yoe / 100 + doy in
  era * 146097 + doe - 719468.

Definition civil_from_days (z : Z) : Z * Z * Z :=
  let z := z + 719468 in
  let era := z / 146097 in
  let doe := z - era * 146097 in
  let yoe := (doe - doe / 1460 + doe / 36524 - doe / 146096) / 365 in
  let doy := doe - (365 * yoe + yoe / 4 - yoe / 100) in
  let mp := (5 * doy + 2) / 153 in
  let d := doy - (153 * mp + 2) / 5 + 1 in
  let m := if mp <? 10 then mp + 3 else mp - 9 in
  (yoe + era * 400 + (if m <=? 2 then 1 else 0), m, d).

Definition digit (n : Z) : ascii := ascii_of_nat (Z.to_nat (48 + n mod 10)).

(** [n] written with [w] digits, the most significant first. *)
Fixpoint pad (w : nat) (n : Z) (tail : string) : string :=
  match w with
  | O => tail
  | S k => pad k (n / 10) (String (digit n) tail)
  end.

Definition print (t : Z) : string :=
  let day := t / 86400000 in
  let ms := t mod 86400000 in
  let '(y, m, d) := civil_from_days day in
  pad 4 y ("-" +:+ pad 2 m ("-" +:+ pad 2 d ("T" +:+
  pad 2 (ms / 3600000) (":" +:+ pad 2 (ms / 60000 mod 60) (":" +:+
  pad 2 (ms / 1000 mod 60) ("." +:+ pad 3 (ms mod 1000) "Z")))))).

(** Reads exactly [w] digits. *)
Fixpoint field (w : nat) (acc : Z) (s : string) : option (Z * string) :=
  match w, s with
  | O, _ => Some (acc, s)
  | S k, String c r =>
      match Js.digit_val c with
      | Some d => field k (10 * acc + d) r
      | None => None
      end
  | S _, EmptyString => None
  end.

Definition expect (c : ascii) (s : string) : option string :=
  match s with
  | String c' r => if Ascii.eqb c c' then Some r else None
  | EmptyString => None
  end.

Definition parse (s : string) : option Z :=
  '(y, s) ← field 4 0 s; s ← expect "-" s;
  '(m, s) ← field 2 0 s; s ← expect "-" s;
  '(d, s) ← field 2 0 s; s ← expect "T" s;
  '(hh, s) ← field 2 0 s; s ← expect ":" s;
  '(mi, s) ← field 2 0 s; s ← expect ":" s;
  '(ss, s) ← field 2 0 s; s ← expect "." s;
  '(ms, s) ← field 3 0 s; s ← expect "Z" s;
  if Js.truthy s then None
  else if (1 <=? m) && (m <=? 12) && (1 <=? d) && (d <=? 31)
          && (hh <=? 23) && (mi <=? 59) && (ss <=? 59)
  then Some (days_from_civil y m d * 86400000
             + hh * 3600000 + mi * 60000 + ss * 1000 + ms)
  else None.

Definition instance : JsDate := {| getTime := parse; toISOString := print |}.

End IsoDate.

(** ** Exceptions

    [Throw msg] is a rejected promise or a thrown [Error]; both handlers turn
    it into their 500 response. *)

Inductive result (A : Type) : Type :=
| Ok (a : A) : result A
| Throw (msg : string) : result A.
Arguments Ok {A} a.
Arguments Throw {A} msg.

#[global] Instance result_ret : MRet result := fun A a => Ok a.
#[global] Instance result_bind : MBind result := fun A B f r =>
  match r with Ok a => f a | Throw msg => Throw msg end.

(** [promise.catch(() => undefined) ?? undefined]. *)
Definition catch_undefined {A : Type} (r : result (option A)) : option A :=
  match r with Ok a => a | Throw _ => None end.

(** [process.env]. *)
Definition Env : Type := string -> option string.

(** ** lib/raindrop.ts *)

Module Raindrop.

Record CollectionRef : Type := {
  coll_id : Z;                      (* $id *)
  coll_title : option string
}.

Record RaindropItem : Type := {
  _id : Z;
  title : string;
  link : string;
  excerpt : option string;
  note : option string;
  tags : option (list string);
  created : string;
  lastUpdate : option string;
  domain : option string;
  collection : option CollectionRef
}.

(** What [fetch] resolves to: a rejection (network failure, a body that is
    not JSON) or a response with its status and decoded body. *)
Inductive fetched (B : Type) : Type :=
| Rejected (msg : string) : fetched B
| Response (status : Z) (body : B) : fetched B.
Arguments Rejected {B} msg.
Arguments Response {B} status body.

(** [res.ok]. *)
Definition ok (status : Z) : bool := (200 <=? status) && (status <=? 299).

(** The body of a listing: [res.text()] and the normalised [data.items]. *)
Record Listing : Type := {
  text : string;
  items : list RaindropItem
}.

(** [data.item] of [GET /raindrop/:id]. *)
Record RawDetail : Type := {
  raw_removed : bool;               (* !!item.removed *)
  raw_collectionId : option Z;      (* item.collectionId *)
  raw_collection_id : option Z;     (* item.collection?.$id *)
  raw_lastUpdate : option string
}.

(** The Raindrop service as the handlers see it.  Every listing request is
    sent with [sort=-created]. *)
Record Api : Type := {
  raindrops : string -> Z -> nat -> option string -> fetched Listing;
  collection_item_title : string -> fetched (option string);
  raindrop : Z -> fetched (option RawDetail)
}.

Definition getRaindropToken (env : Env) : result string :=
  match env "RAINDROP_ACCESS_TOKEN" with
  | Some token => if Js.truthy token then Ok token
                  else Throw "Missing RAINDROP_ACCESS_TOKEN"
  | None => Throw "Missing RAINDROP_ACCESS_TOKEN"
  end.

Definition fetchRecentRaindrops (env : Env) (api : Api)
    (collectionId : string) (perPage : Z) (page : nat)
    : result (list RaindropItem) :=
  _ ← getRaindropToken env;
  match raindrops api collectionId perPage page None with
  | Rejected msg => Throw msg
  | Response status body =>
      if ok status then Ok (items body)
      else Throw ("Raindrop fetch failed: " +:+ pretty status +:+ " " +:+ text body)
  end.

Definition fetchRaindropsBySearch (env : Env) (api : Api)
    (collectionId search : string) (perPage : Z) (page : nat)
    : result (list RaindropItem) :=
  _ ← getRaindropToken env;
  match raindrops api collectionId perPage page (Some search) with
  | Rejected msg => Throw msg
  | Response status body =>
      if ok status then Ok (items body)
      else Throw ("Raindrop search failed: " +:+ pretty status +:+ " " +:+ text body)
  end.

(** The request that [getCollectionTitleById] makes for a key its cache does
    not hold, and what the call returns then.  The function with its
    module-level cache is [TitleCache.getCollectionTitleById]. *)
Definition getCollectionTitleById (env : Env) (api : Api) (key : string)
    : result (option string) :=
  _ ← getRaindropToken env;
  match collection_item_title api key with
  | Rejected msg => Throw msg
  | Response status t => Ok (if ok status then t else None)
  end.

Record RaindropDetail : Type := {
  exists_ : bool;
  removed : option bool;
  collectionId : option Z;
  detail_lastUpdate : option string
}.

Definition missing : RaindropDetail :=
  {| exists_ := false; removed := None; collectionId := None;
     detail_lastUpdate := None |}.

Definition fetchRaindropDetail (env : Env) (api : Api) (id : Z)
    : result RaindropDetail :=
  _ ← getRaindropToken env;
  match raindrop api id with
  | Rejected msg => Throw msg
  | Response status body =>
      if status =? 404 then Ok missing
      else if negb (ok status) then Ok missing
      else match body with
           | None => Ok missing
           | Some item =>
               Ok {| exists_ := true;
                     removed := Some (raw_removed item);
                     collectionId :=
                       match raw_collectionId item with
                       | Some c => Some c
                       | None => raw_collection_id item
                       end;
                     detail_lastUpdate := raw_lastUpdate item |}
           end
  end.

End Raindrop.

(** ** lib/notion.ts *)

Module Notion.
Import Raindrop.

(** A page of the database: whether it is archived, and its properties as
    the code reads and writes them.  A rich text is [None] when empty. *)
Record Page : Type := {
  archived : bool;
  Title : string;
  URL : string;
  Tags : list string;
  Excerpt : option string;
  Notes : option string;
  Site : option string;
  Collection : option string;
  Created : option string;
  RaindropID : option Z;            (* 'Raindrop ID' *)
  Status : option string;
  RaindropLastUpdate : option string;
  SyncedAt : option string;
  Lock : bool;
  Deleted : bool;                   (* 'Deleted (Raindrop)' *)
  DeleteDetectedAt : option string
}.

(** The database: pages under their page ids.  Ids are opaque to the code,
    which only copies them from query results into update calls. *)
Abbreviation PageId := N.
Abbreviation Db := (gmap N Page).

(** The mapped content properties of a row. *)
Definition content (p : Page)
    : string * string * list string * option string * option string
      * option string * option string * option string :=
  (Title p, URL p, Tags p, Excerpt p, Notes p, Site p, Collection p, Created p).

Definition dateOrNull (iso : option string) : option string :=
  match iso with
  | Some s => if Js.truthy s then Some s else None
  | None => None
  end.

Definition rich_text (s : option string) : option string := dateOrNull s.

Definition toMultiSelect (tags : option (list string)) : list string :=
  take 50 (default [] tags).

(** [notion.pages.update({ page_id, ... })]: only the page named is
    patched. *)
Definition pages_update (pageId : PageId) (patch : Page -> Page) (db : Db) : Db :=
  alter patch pageId db.

(** [notion.pages.create]: the service picks an id no page has. *)
Definition pages_create (p : Page) (db : Db) : Db :=
  <[fresh (dom db) := p]> db.

(** [notion.databases.query]: the pages that are not archived and pass the
    filter, [page_size] of them from the cursor on, and whether more follow. *)
Definition matching (filter : Page -> bool) (db : Db) : list (N * Page) :=
  List.filter (fun kp => negb (archived kp.2) && filter kp.2) (map_to_list db).

Definition databases_query (filter : Page -> bool) (page_size cursor : nat)
    (db : Db) : list (N * Page) * bool :=
  let all := drop cursor (matching filter db) in
  (take page_size all, (page_size <? length all)%nat).

Record NotionRow : Type := {
  pageId : PageId;
  raindropId : Z;
  locked : bool;
  deletedFlag : bool;
  deleteDetectedAt : option string
}.

Definition row_of (kp : N * Page) : option NotionRow :=
  idNum ← RaindropID kp.2;
  Some {| pageId := kp.1; raindropId := idNum; locked := Lock kp.2;
          deletedFlag := Deleted kp.2;
          deleteDetectedAt := DeleteDetectedAt kp.2 |}.

(** The [while (true)] of [listAllNotionRows]; [cursor] is the position the
    service resumes from, [fuel] bounds the number of requests. *)
Fixpoint listAll_from (fuel cursor : nat) (db : Db) : list NotionRow :=
  match fuel with
  | O => []
  | S fuel' =>
      let '(results, has_more) := databases_query (fun _ => true) 100 cursor db in
      omap row_of results
      ++ (if has_more then listAll_from fuel' (cursor + 100) db else [])
  end.

Definition listAllNotionRows (db : Db) : list NotionRow :=
  listAll_from (S (length (matching (fun _ => true) db))) 0 db.

Definition patch_collection (title : option string) (nowIso : string) (p : Page) : Page :=
  {| archived := archived p; Title := Title p; URL := URL p; Tags := Tags p;
     Excerpt := Excerpt p; Notes := Notes p; Site := Site p;
     Collection := rich_text title;
     Created := Created p; RaindropID := RaindropID p; Status := Status p;
     RaindropLastUpdate := RaindropLastUpdate p;
     SyncedAt := dateOrNull (Some nowIso);
     Lock := Lock p; Deleted := Deleted p;
     DeleteDetectedAt := DeleteDetectedAt p |}.

Definition updateCollectionOnly (pageId : PageId) (title : option string)
    (nowIso : string) (db : Db) : Db :=
  pages_update pageId (patch_collection title nowIso) db.

Definition patch_deleteDetected (whenIso nowIso : string) (setArchived : bool)
    (p : Page) : Page :=
  {| archived := archived p; Title := Title p; URL := URL p; Tags := Tags p;
     Excerpt := Excerpt p; Notes := Notes p; Site := Site p;
     Collection := Collection p;
     Created := Created p; RaindropID := RaindropID p;
     Status := if setArchived then Some "Archived" else Status p;
     RaindropLastUpdate := RaindropLastUpdate p;
     SyncedAt := dateOrNull (Some nowIso);
     Lock := Lock p; Deleted := true;
     DeleteDetectedAt := dateOrNull (Some whenIso) |}.

Definition markDeleteDetected (pageId : PageId) (whenIso nowIso : string)
    (setArchived : bool) (db : Db) : Db :=
  pages_update pageId (patch_deleteDetected whenIso nowIso setArchived) db.

Definition patch_clearDeleteFlags (nowIso : string) (p : Page) : Page :=
  {| archived := archived p; Title := Title p; URL := URL p; Tags := Tags p;
     Excerpt := Excerpt p; Notes := Notes p; Site := Site p;
     Collection := Collection p;
     Created := Created p; RaindropID := RaindropID p; Status := Status p;
     RaindropLastUpdate := RaindropLastUpdate p;
     SyncedAt := dateOrNull (Some nowIso);
     Lock := Lock p; Deleted := false; DeleteDetectedAt := None |}.

Definition clearDeleteFlags (pageId : PageId) (nowIso : string) (db : Db) : Db :=
  pages_update pageId (patch_clearDeleteFlags nowIso) db.

Definition patch_archive (p : Page) : Page :=
  {| archived := true; Title := Title p; URL := URL p; Tags := Tags p;
     Excerpt := Excerpt p; Notes := Notes p; Site := Site p;
     Collection := Collection p;
     Created := Created p; RaindropID := RaindropID p; Status := Status p;
     RaindropLastUpdate := RaindropLastUpdate p; SyncedAt := SyncedAt p;
     Lock := Lock p; Deleted := Deleted p;
     DeleteDetectedAt := DeleteDetectedAt p |}.

Definition archivePage (pageId : PageId) (db : Db) : Db :=
  pages_update pageId patch_archive db.

Definition NOTION_QUERY_CHUNK : nat := 25.

Record NotionFound : Type := {
  found_pageId : PageId;
  raindropLastUpdate : option string;
  found_locked : bool
}.

(** [ids.slice(i, i + size)] for [i = 0, size, 2 * size, ...]. *)
Fixpoint chunks_from (fuel size : nat) (ids : list Z) : list (list Z) :=
  match fuel, ids with
  | S fuel', _ :: _ => take size ids :: chunks_from fuel' size (drop size ids)
  | _, _ => []
  end.

Definition chunks (size : nat) (ids : list Z) : list (list Z) :=
  chunks_from (length ids) size ids.

Definition record_found (out : Js.map NotionFound) (kp : N * Page)
    : Js.map NotionFound :=
  match RaindropID kp.2 with
  | None => out
  | Some idProp =>
      Js.set idProp
        {| found_pageId := kp.1;
           raindropLastUpdate := RaindropLastUpdate kp.2;
           found_locked := Lock kp.2 |} out
  end.

Definition id_in (chunk : list Z) (p : Page) : bool :=
  match RaindropID p with
  | Some n => existsb (Z.eqb n) chunk
  | None => false
  end.

Definition getPagesByRaindropIds (db : Db) (ids : list Z) : Js.map NotionFound :=
  fold_left
    (fun out chunk =>
       fold_left record_found (databases_query (id_in chunk) 100 0 db).1 out)
    (chunks NOTION_QUERY_CHUNK ids) [].

(** [item.collection?.title || opts?.collectionTitle || ''] *)
Definition title_of (item : RaindropItem) (collectionTitle : option string)
    : string :=
  Js.or_else (c ← collection item; coll_title c) (Js.or_else collectionTitle "").

Definition createFromRaindrop (item : RaindropItem)
    (collectionTitle : option string) (nowIso : string) (db : Db) : Db :=
  let collTitle := title_of item collectionTitle in
  let raindropLast := Js.or_else (lastUpdate item) (created item) in
  pages_create
    {| archived := false;
       Title := Js.or_else (Some (title item)) "Untitled";
       URL := link item;
       Tags := toMultiSelect (tags item);
       Excerpt := rich_text (excerpt item);
       Notes := rich_text (note item);
       Site := rich_text (domain item);
       Collection := rich_text (Some collTitle);
       Created := Some (created item);
       RaindropID := Some (_id item);
       Status := Some "New";
       RaindropLastUpdate := dateOrNull (Some raindropLast);
       SyncedAt := dateOrNull (Some nowIso);
       Lock := false; Deleted := false; DeleteDetectedAt := None |} db.

Definition patch_fromRaindrop (item : RaindropItem)
    (collectionTitle : option string) (nowIso : string) (p : Page) : Page :=
  let collTitle := title_of item collectionTitle in
  let raindropLast := Js.or_else (lastUpdate item) (created item) in
  {| archived := archived p;
     Title := Js.or_else (Some (title item)) "Untitled";
     URL := link item;
     Tags := toMultiSelect (tags item);
     Excerpt := rich_text (excerpt item);
     Notes := rich_text (note item);
     Site := rich_text (domain item);
     Collection := rich_text (Some collTitle);
     Created := Some (created item);
     RaindropID := RaindropID p;
     Status := Status p;
     RaindropLastUpdate := dateOrNull (Some raindropLast);
     SyncedAt := dateOrNull (Some nowIso);
     Lock := Lock p; Deleted := Deleted p;
     DeleteDetectedAt := DeleteDetectedAt p |}.

Definition updateFromRaindrop (pageId : PageId) (item : RaindropItem)
    (collectionTitle : option string) (nowIso : string) (db : Db) : Db :=
  pages_update pageId (patch_fromRaindrop item collectionTitle nowIso) db.

End Notion.

(** ** api/sync.ts *)

(** A query parameter as Vercel hands it over. *)
Inductive QueryValue : Type :=
| QString (s : string)
| QArray (l : list string).

Definition Query : Type := string -> option QueryValue.

Module Sync.
Import Raindrop Notion.

Definition getQP (q : Query) (key : string) : option string :=
  match q key with
  | Some (QArray l) => head l
  | Some (QString s) => Some s
  | None => None
  end.

Definition toBool (s : option string) : bool :=
  match s with
  | Some s =>
      if Js.truthy s
      then existsb (String.eqb (Js.toLowerCase s)) ["1"; "true"; "yes"; "on"]
      else false
  | None => false
  end.

Definition toIntInRange (s : option string) (def min max : Z) : Z :=
  let n := match s with
           | Some s => if Js.truthy s then Js.parseInt s else Js.NaN
           | None => Js.NaN
           end in
  match n with
  | Js.Num n => Z.max min (Z.min max n)
  | _ => def
  end.

Definition envInt (env : Env) (name : string) (def : Z) : Z :=
  let n := match env name with
           | Some v => if Js.truthy v then Js.parseInt v else Js.NaN
           | None => Js.NaN
           end in
  match n with
  | Js.Num n => n
  | _ => def
  end.

(** [arr.slice(0, n)]: a negative [n] counts from the end. *)
Definition slice0 {A : Type} (n : Z) (l : list A) : list A :=
  if 0 <=? n then take (Z.to_nat n) l
  else take (length l - Z.to_nat (- n)) l.

(** [new Date(now.getTime() - (LOOKBACK_HOURS * 60 + OVERLAP_MINUTES) * 60 * 1000)] *)
Definition sinceDate (env : Env) (now : Z) : option Z :=
  let lookback := Js.Num (envInt env "LOOKBACK_HOURS" 48) in
  let overlap := Js.Num (envInt env "OVERLAP_MINUTES" 15) in
  Js.newDate
    (Js.sub (Js.Num now)
       (Js.mul (Js.mul (Js.add (Js.mul lookback (Js.Num 60)) overlap)
                  (Js.Num 60))
          (Js.Num 1000))).
#[global] Arguments sinceDate : simpl never.

Section WithDate.
Context {date : JsDate}.

Definition newerThan (a b : option string) : bool :=
  match a with
  | None => false
  | Some a =>
      if negb (Js.truthy a) then false
      else match b with
           | None => true
           | Some b =>
               if negb (Js.truthy b) then true
               else match getTime a, getTime b with
                    | Some ta, Some tb => tb <? ta
                    | _, _ => false
                    end
           end
  end.

(** [d.toISOString().slice(0, 10)]; on an invalid date [toISOString] throws
    a [RangeError]. *)
Definition isoDateOnly (d : option Z) : result string :=
  match d with
  | Some t => Ok (Js.slice0 10 (toISOString t))
  | None => Throw "Invalid time value"
  end.

(** [new Date(it.created) < since]; an invalid date is not older. *)
Definition createdOld (since : Z) (it : RaindropItem) : bool :=
  match getTime (created it) with
  | Some t => t <? since
  | None => false
  end.

(** The knobs of one invocation, as the first lines of the [try] block
    compute them.  [since] is the time value of the date [since] and
    [sinceDateOnly] its day; where the date is invalid the run ends at
    [isoDateOnly(since)], before either is read. *)
Record Knobs : Type := {
  limitQP : Z;
  dryRun : bool;
  LOOKBACK_HOURS : Z;
  OVERLAP_MINUTES : Z;
  PER_PAGE : Z;
  MAX_PAGES : Z;
  CONSECUTIVE_HITS_STOP : Z;
  since : Z;
  sinceDateOnly : string
}.

Definition knobs (env : Env) (query : Query) (now : Z) : Knobs :=
  let lookback := envInt env "LOOKBACK_HOURS" 48 in
  let overlap := envInt env "OVERLAP_MINUTES" 15 in
  let since := sinceDate env now in
  {| limitQP := toIntInRange (getQP query "limit") 50 1 500;
     dryRun := toBool (getQP query "dryRun");
     LOOKBACK_HOURS := lookback;
     OVERLAP_MINUTES := overlap;
     PER_PAGE := envInt env "PER_PAGE" 50;
     MAX_PAGES := envInt env "MAX_PAGES" 10;
     CONSECUTIVE_HITS_STOP := envInt env "CONSECUTIVE_HITS_STOP" 50;
     since := default 0 since;
     sinceDateOnly := match isoDateOnly since with Ok s => s | Throw _ => "" end |}.

(** [limitQP && limitQP < PER_PAGE ? limitQP : PER_PAGE] *)
Definition perPageA (k : Knobs) : Z :=
  if negb (limitQP k =? 0) && (limitQP k <? PER_PAGE k) then limitQP k
  else PER_PAGE k.

(** *** Pass A *)

Record PassA : Type := {
  passAItems : Js.map RaindropItem;
  consecutiveExisting : Z;
  pagesFetchedA : Z;
  stopReasonA : option string
}.

Definition passA_start : PassA :=
  {| passAItems := []; consecutiveExisting := 0; pagesFetchedA := 0;
     stopReasonA := None |}.

(** The [for (const it of pageItems)] of pass A: the items kept, the
    counter, and whether the loop left through its [break]. *)
Fixpoint scanPage (k : Knobs) (existingMap : Js.map NotionFound)
    (pageItems : list RaindropItem) (kept : Js.map RaindropItem)
    (consecutive : Z) : Js.map RaindropItem * Z * bool :=
  match pageItems with
  | [] => (kept, consecutive, false)
  | it :: rest =>
      let old := createdOld (since k) it in
      let consecutive :=
        if Js.has (_id it) existingMap then consecutive + 1 else 0 in
      let kept := if old then kept else Js.set (_id it) it kept in
      if old && (CONSECUTIVE_HITS_STOP k <=? consecutive)
      then (kept, consecutive, true)
      else scanPage k existingMap rest kept consecutive
  end.

(** The page loop of pass A, with [remaining] iterations left before
    [page] reaches [MAX_PAGES]. *)
Fixpoint passA_loop (env : Env) (api : Api) (db : Db) (coll : string)
    (k : Knobs) (remaining page : nat) (st : PassA) : result PassA :=
  match remaining with
  | O => Ok st
  | S remaining' =>
      pageItems ← fetchRecentRaindrops env api coll (perPageA k) page;
      let fetched := pagesFetchedA st + 1 in
      if (length pageItems =? 0)%nat
      then Ok {| passAItems := passAItems st;
                 consecutiveExisting := consecutiveExisting st;
                 pagesFetchedA := fetched;
                 stopReasonA := Some "no-more-items" |}
      else
        let existingMap := getPagesByRaindropIds db (List.map _id pageItems) in
        let '(kept, consecutive, stopped) :=
          scanPage k existingMap pageItems (passAItems st)
            (consecutiveExisting st) in
        let stop reason :=
          Ok {| passAItems := kept; consecutiveExisting := consecutive;
                pagesFetchedA := fetched; stopReasonA := Some reason |} in
        if stopped then stop "time-window-and-consecutive-existing"
        else if Z.of_nat (length pageItems) <? perPageA k
        then stop "short-final-page"
        else if negb (limitQP k =? 0) && (limitQP k <=? PER_PAGE k)
        then stop "debug-limit"
        else passA_loop env api db coll k remaining' (S page)
               {| passAItems := kept; consecutiveExisting := consecutive;
                  pagesFetchedA := fetched; stopReasonA := None |}
  end.

Definition passA (env : Env) (api : Api) (db : Db) (coll : string)
    (k : Knobs) : result PassA :=
  passA_loop env api db coll k (Z.to_nat (MAX_PAGES k)) 0 passA_start.

(** *** Pass B *)

Definition set_all (pageItems : list RaindropItem)
    (m : Js.map RaindropItem) : Js.map RaindropItem :=
  fold_left (fun m it => Js.set (_id it) it m) pageItems m.

Fixpoint search_loop (env : Env) (api : Api) (coll search : string)
    (k : Knobs) (remaining page : nat)
    (st : Js.map RaindropItem * Z) : result (Js.map RaindropItem * Z) :=
  match remaining with
  | O => Ok st
  | S remaining' =>
      pageItems ← fetchRaindropsBySearch env api coll search (PER_PAGE k) page;
      let fetched := st.2 + 1 in
      if (length pageItems =? 0)%nat then Ok (st.1, fetched)
      else
        let kept := set_all pageItems st.1 in
        if Z.of_nat (length pageItems) <? PER_PAGE k then Ok (kept, fetched)
        else search_loop env api coll search k remaining' (S page) (kept, fetched)
  end.

(** The two searches, sharing [passBItems] and [pagesFetchedB]. *)
Definition passB (env : Env) (api : Api) (coll : string) (k : Knobs)
    : result (Js.map RaindropItem * Z) :=
  st ← search_loop env api coll ("lastUpdate:>" +:+ sinceDateOnly k) k
         (Z.to_nat (MAX_PAGES k)) 0 ([], 0);
  search_loop env api coll ("created:>" +:+ sinceDateOnly k) k
    (Z.to_nat (MAX_PAGES k)) 0 st.

(** *** Union and cap *)

Definition union (a b : Js.map RaindropItem) : Js.map RaindropItem :=
  fold_left (fun m kv => Js.set kv.1 kv.2 m) b
    (fold_left (fun m kv => Js.set kv.1 kv.2 m) a []).

(** [Array.from(candidates.values()).slice(0, limitQP || candidates.size)] *)
Definition candidateList (k : Knobs) (candidates : Js.map RaindropItem)
    : list RaindropItem :=
  slice0 (if negb (limitQP k =? 0) then limitQP k
          else Z.of_nat (Js.size candidates))
    (Js.values candidates).

(** *** Create, update or skip *)

Record Tally : Type := {
  created_count : Z;
  updated_count : Z;
  createdIds : list Z;
  updatedIds : list Z;
  toCreatePreview : list Z;
  toUpdatePreview : list Z;
  skippedLocked : list Z;
  alreadyExists : list Z
}.

Definition tally_start : Tally :=
  {| created_count := 0; updated_count := 0; createdIds := [];
     updatedIds := []; toCreatePreview := []; toUpdatePreview := [];
     skippedLocked := []; alreadyExists := [] |}.

(** What one pass through the body of the candidate loop decides. *)
Inductive Action : Type :=
| Create
| SkipLocked
| Update (pageId : PageId)
| UpToDate.

#[global] Instance Action_eq_dec : EqDecision Action.
Proof. solve_decision. Defined.

Definition decide (existingMapAll : Js.map NotionFound) (item : RaindropItem)
    : Action :=
  match Js.get (_id item) existingMapAll with
  | None => Create
  | Some found =>
      if found_locked found then SkipLocked
      else
        let itemLast := Js.or_else (lastUpdate item) (created item) in
        let notionLast := raindropLastUpdate found in
        if newerThan (Some itemLast) notionLast
        then Update (found_pageId found)
        else UpToDate
  end.

(** [item.collection?.$id ?? RAINDROP_COLLECTION_ID], as the key
    [String(id)] of the title request; [None] when the id is falsy.
    Normalised items carry no [collectionId] of their own. *)
Definition collKey (coll : string) (item : RaindropItem) : option string :=
  match collection item with
  | Some c => if coll_id c =? 0 then None else Some (pretty (coll_id c))
  | None => if Js.truthy coll then Some coll else None
  end.

Definition resolveTitle (env : Env) (api : Api) (coll : string)
    (defaultCollectionTitle : option string) (item : RaindropItem)
    : result (option string) :=
  match collKey coll item with
  | Some key =>
      t ← getCollectionTitleById env api key;
      Ok (match t with Some t => Some t | None => defaultCollectionTitle end)
  | None => Ok defaultCollectionTitle
  end.

Definition record (dry : bool) (d : Action) (id : Z) (t : Tally) : Tally :=
  match d with
  | Create =>
      if dry
      then {| created_count := created_count t; updated_count := updated_count t;
              createdIds := createdIds t; updatedIds := updatedIds t;
              toCreatePreview := toCreatePreview t ++ [id];
              toUpdatePreview := toUpdatePreview t;
              skippedLocked := skippedLocked t; alreadyExists := alreadyExists t |}
      else {| created_count := created_count t + 1; updated_count := updated_count t;
              createdIds := createdIds t ++ [id]; updatedIds := updatedIds t;
              toCreatePreview := toCreatePreview t;
              toUpdatePreview := toUpdatePreview t;
              skippedLocked := skippedLocked t; alreadyExists := alreadyExists t |}
  | SkipLocked =>
      {| created_count := created_count t; updated_count := updated_count t;
         createdIds := createdIds t; updatedIds := updatedIds t;
         toCreatePreview := toCreatePreview t;
         toUpdatePreview := toUpdatePreview t;
         skippedLocked := skippedLocked t ++ [id];
         alreadyExists := alreadyExists t ++ [id] |}
  | Update _ =>
      if dry
      then {| created_count := created_count t; updated_count := updated_count t;
              createdIds := createdIds t; updatedIds := updatedIds t;
              toCreatePreview := toCreatePreview t;
              toUpdatePreview := toUpdatePreview t ++ [id];
              skippedLocked := skippedLocked t; alreadyExists := alreadyExists t |}
      else {| created_count := created_count t; updated_count := updated_count t + 1;
              createdIds := createdIds t; updatedIds := updatedIds t ++ [id];
              toCreatePreview := toCreatePreview t;
              toUpdatePreview := toUpdatePreview t;
              skippedLocked := skippedLocked t; alreadyExists := alreadyExists t |}
  | UpToDate =>
      {| created_count := created_count t; updated_count := updated_count t;
         createdIds := createdIds t; updatedIds := updatedIds t;
         toCreatePreview := toCreatePreview t;
         toUpdatePreview := toUpdatePreview t;
         skippedLocked := skippedLocked t;
         alreadyExists := alreadyExists t ++ [id] |}
  end.

(** The Notion call of one iteration; none in a dry run. *)
Definition write (dry : bool) (d : Action) (item : RaindropItem)
    (collectionTitle : option string) (nowIso : string) (db : Db) : Db :=
  if dry then db
  else match d with
       | Create => createFromRaindrop item collectionTitle nowIso db
       | Update pageId => updateFromRaindrop pageId item collectionTitle nowIso db
       | SkipLocked | UpToDate => db
       end.

(** The [for (const item of candidateList)]; [clock i] is the time read
    while candidate [i] is handled.  A rejected title request leaves the
    loop with the writes made so far. *)
Fixpoint upsert_loop (env : Env) (api : Api) (coll : string) (dry : bool)
    (existingMapAll : Js.map NotionFound)
    (defaultCollectionTitle : option string) (clock : nat -> Z)
    (i : nat) (candidates : list RaindropItem) (db : Db) (t : Tally)
    : Db * result Tally :=
  match candidates with
  | [] => (db, Ok t)
  | item :: rest =>
      match resolveTitle env api coll defaultCollectionTitle item with
      | Throw msg => (db, Throw msg)
      | Ok collectionTitle =>
          let d := decide existingMapAll item in
          upsert_loop env api coll dry existingMapAll defaultCollectionTitle
            clock (S i) rest
            (write dry d item collectionTitle (toISOString (clock i)) db)
            (record dry d (_id item) t)
      end
  end.

(** *** The response *)

Record Report : Type := {
  r_dryRun : bool;
  r_lookbackHours : Z;
  r_overlapMinutes : Z;
  r_sinceDate : string;
  r_passA_pagesFetched : Z;
  r_passA_stopReason : string;
  r_passA_candidates : nat;
  r_passB_pagesFetched : Z;
  r_passB_candidates : nat;
  r_unionCandidates : nat;
  r_created : Z;
  r_updated : Z;
  r_createdIds : option (list Z);
  r_updatedIds : option (list Z);
  r_toCreatePreview : option (list Z);
  r_toUpdatePreview : option (list Z);
  r_skippedLocked : list Z;
  r_alreadyExists : list Z
}.

(** Everything the run has computed when it reaches the candidate loop. *)
Record Plan : Type := {
  plan_knobs : Knobs;
  plan_defaultTitle : option string;
  plan_passA : PassA;
  plan_passB : Js.map RaindropItem * Z;
  plan_candidates : list RaindropItem;
  plan_existing : Js.map NotionFound
}.

Definition plan (env : Env) (api : Api) (query : Query) (now : Z) (db : Db)
    : result Plan :=
  match env "RAINDROP_COLLECTION_ID" with
  | None => Throw "Missing RAINDROP_COLLECTION_ID"
  | Some coll =>
      if negb (Js.truthy coll) then Throw "Missing RAINDROP_COLLECTION_ID"
      else
        let k := knobs env query now in
        _ ← isoDateOnly (sinceDate env now);
        let defaultCollectionTitle :=
          catch_undefined (getCollectionTitleById env api coll) in
        a ← passA env api db coll k;
        b ← passB env api coll k;
        let list := candidateList k (union (passAItems a) b.1) in
        Ok {| plan_knobs := k; plan_defaultTitle := defaultCollectionTitle;
              plan_passA := a; plan_passB := b; plan_candidates := list;
              plan_existing := getPagesByRaindropIds db (List.map _id list) |}
  end.

Definition report (p : Plan) (t : Tally) : Report :=
  let k := plan_knobs p in
  {| r_dryRun := dryRun k;
     r_lookbackHours := LOOKBACK_HOURS k;
     r_overlapMinutes := OVERLAP_MINUTES k;
     r_sinceDate := toISOString (since k);
     r_passA_pagesFetched := pagesFetchedA (plan_passA p);
     r_passA_stopReason := default "completed" (stopReasonA (plan_passA p));
     r_passA_candidates := Js.size (passAItems (plan_passA p));
     r_passB_pagesFetched := (plan_passB p).2;
     r_passB_candidates := Js.size (plan_passB p).1;
     r_unionCandidates := length (plan_candidates p);
     r_created := created_count t;
     r_updated := updated_count t;
     r_createdIds := if dryRun k then None else Some (createdIds t);
     r_updatedIds := if dryRun k then None else Some (updatedIds t);
     r_toCreatePreview := if dryRun k then Some (toCreatePreview t) else None;
     r_toUpdatePreview := if dryRun k then Some (toUpdatePreview t) else None;
     r_skippedLocked := skippedLocked t;
     r_alreadyExists := alreadyExists t |}.

(** The [try] block of the handler: the database it leaves and either the
    200 body or the message of the 500 response.  Every title request is
    made anew here; [Cached.sync_run] has the title cache. *)
Definition run (env : Env) (api : Api) (query : Query) (now : Z)
    (clock : nat -> Z) (db : Db) : Db * result Report :=
  match plan env api query now db with
  | Throw msg => (db, Throw msg)
  | Ok p =>
      let coll := default "" (env "RAINDROP_COLLECTION_ID") in
      let '(db', t) :=
        upsert_loop env api coll (dryRun (plan_knobs p)) (plan_existing p)
          (plan_defaultTitle p) clock 0 (plan_candidates p) db tally_start in
      (db', t ← t; Ok (report p t))
  end.

End WithDate.
End Sync.

(** ** api/reconcile.ts *)

Module Reconcile.
Import Raindrop Notion.

(** The value of [hoursSince]: [Infinity] without a timestamp, [NaN] for
    an invalid one, otherwise the quotient [ms / 36e5]. *)
Inductive Age : Type :=
| Forever
| Unknown
| Hours (q : Q).

(** [ageHours >= DELETE_GRACE_HOURS] *)
Definition at_least (a : Age) (grace : Z) : bool :=
  match a with
  | Forever => true
  | Unknown => false
  | Hours q => Qle_bool (inject_Z grace) q
  end.

Record Lists : Type := {
  moved : list Z;
  deleteDetected : list Z;
  deleteArchivedNow : list Z;
  skippedLocked : list Z;
  clearedFlags : list Z
}.

Definition lists_start : Lists :=
  {| moved := []; deleteDetected := []; deleteArchivedNow := [];
     skippedLocked := []; clearedFlags := [] |}.

Definition push_moved (id : Z) (l : Lists) : Lists :=
  {| moved := moved l ++ [id]; deleteDetected := deleteDetected l;
     deleteArchivedNow := deleteArchivedNow l; skippedLocked := skippedLocked l;
     clearedFlags := clearedFlags l |}.

Definition push_deleteDetected (id : Z) (l : Lists) : Lists :=
  {| moved := moved l; deleteDetected := deleteDetected l ++ [id];
     deleteArchivedNow := deleteArchivedNow l; skippedLocked := skippedLocked l;
     clearedFlags := clearedFlags l |}.

Definition push_deleteArchivedNow (id : Z) (l : Lists) : Lists :=
  {| moved := moved l; deleteDetected := deleteDetected l;
     deleteArchivedNow := deleteArchivedNow l ++ [id];
     skippedLocked := skippedLocked l; clearedFlags := clearedFlags l |}.

Definition push_skippedLocked (id : Z) (l : Lists) : Lists :=
  {| moved := moved l; deleteDetected := deleteDetected l;
     deleteArchivedNow := deleteArchivedNow l;
     skippedLocked := skippedLocked l ++ [id]; clearedFlags := clearedFlags l |}.

Definition push_clearedFlags (id : Z) (l : Lists) : Lists :=
  {| moved := moved l; deleteDetected := deleteDetected l;
     deleteArchivedNow := deleteArchivedNow l; skippedLocked := skippedLocked l;
     clearedFlags := clearedFlags l ++ [id] |}.

Record Knobs : Type := {
  PER_PAGE : Z;
  MAX_PAGES : Z;
  DELETE_MODE : string;
  DELETE_GRACE_HOURS : Z;
  dryRun : bool
}.

Definition knobs (env : Env) (query : Query) : Knobs :=
  {| PER_PAGE := Sync.envInt env "PER_PAGE" 50;
     MAX_PAGES := Sync.envInt env "MAX_PAGES" 200;
     DELETE_MODE := Js.toLowerCase (Js.or_else (env "DELETE_MODE") "archive");
     DELETE_GRACE_HOURS := Sync.envInt env "DELETE_GRACE_HOURS" 24;
     dryRun := Sync.toBool (Some (Js.or_else (Sync.getQP query "dryRun") "0")) |}.

(** Step 1: every id the collection lists, page by page. *)
Fixpoint enumerate (env : Env) (api : Api) (coll : string) (k : Knobs)
    (remaining page : nat) (st : gset Z * Z) : result (gset Z * Z) :=
  match remaining with
  | O => Ok st
  | S remaining' =>
      items ← fetchRecentRaindrops env api coll (PER_PAGE k) page;
      let fetched := st.2 + 1 in
      if (length items =? 0)%nat then Ok (st.1, fetched)
      else
        let ids := foldl (fun s it => {[ _id it ]} ∪ s) st.1 items in
        if Z.of_nat (length items) <? PER_PAGE k then Ok (ids, fetched)
        else enumerate env api coll k remaining' (S page) (ids, fetched)
  end.

Section WithDate.
Context {date : JsDate}.

Definition hoursSince (now : Z) (iso : option string) : Age :=
  match iso with
  | None => Forever
  | Some iso =>
      if negb (Js.truthy iso) then Forever
      else match getTime iso with
           | Some t => Hours (Qmake (now - t) 3600000)
           | None => Unknown
           end
  end.

(** The body of [for (const row of notionRows)], with the clock read as
    [now]: the database and the lists after it, or the rejection of the
    detail request. *)
Definition reconcile_row (env : Env) (api : Api) (k : Knobs)
    (raindropIds : gset Z) (now : Z) (row : NotionRow) (db : Db) (l : Lists)
    : Db * result Lists :=
  let nowIso := toISOString now in
  let dry := dryRun k in
  let id := raindropId row in
  if bool_decide (id ∈ raindropIds) then
    if deletedFlag row
    then ((if dry then db else clearDeleteFlags (pageId row) nowIso db),
          Ok (push_clearedFlags id l))
    else (db, Ok l)
  else
    match fetchRaindropDetail env api id with
    | Throw msg => (db, Throw msg)
    | Ok detail =>
        if exists_ detail && negb (default false (removed detail)) then
          let newTitle :=
            match collectionId detail with
            | Some c =>
                if c =? 0 then None
                else catch_undefined (getCollectionTitleById env api (pretty c))
            | None => None
            end in
          if negb (locked row) then
            let db1 := if dry then db
                       else updateCollectionOnly (pageId row) newTitle nowIso db in
            let l1 := push_moved id l in
            if deletedFlag row
            then ((if dry then db1 else clearDeleteFlags (pageId row) nowIso db1),
                  Ok (push_clearedFlags id l1))
            else (db1, Ok l1)
          else (db, Ok (push_skippedLocked id l))
        else if negb (deletedFlag row)
                || negb (Js.truthy_opt (deleteDetectedAt row)) then
          ((if dry then db
            else markDeleteDetected (pageId row) nowIso nowIso
                   (negb (locked row)) db),
           Ok (push_deleteDetected id l))
        else
          let ageHours := hoursSince now (deleteDetectedAt row) in
          if at_least ageHours (DELETE_GRACE_HOURS k) then
            if String.eqb (DELETE_MODE k) "archive" && negb (locked row)
            then ((if dry then db else archivePage (pageId row) db),
                  Ok (push_deleteArchivedNow id l))
            else (db, Ok (push_skippedLocked id l))
          else (db, Ok (push_deleteDetected id l))
    end.

(** Step 3; [clock i] is the time read while row [i] is handled. *)
Fixpoint reconcile_loop (env : Env) (api : Api) (k : Knobs)
    (raindropIds : gset Z) (clock : nat -> Z) (i : nat)
    (rows : list NotionRow) (db : Db) (l : Lists) : Db * result Lists :=
  match rows with
  | [] => (db, Ok l)
  | row :: rest =>
      match reconcile_row env api k raindropIds (clock i) row db l with
      | (db', Ok l') =>
          reconcile_loop env api k raindropIds clock (S i) rest db' l'
      | (db', Throw msg) => (db', Throw msg)
      end
  end.

Record Report : Type := {
  r_dryRun : bool;
  r_deleteMode : string;
  r_graceHours : Z;
  r_raindropCollectionId : string;
  r_pagesFetchedFromRaindrop : Z;
  r_notionRows : nat;
  r_raindropIds : nat;
  r_results : Lists
}.

(** The [try] block of the handler.  Every title request is made anew
    here; [Cached.reconcile_run] has the title cache. *)
Definition run (env : Env) (api : Api) (query : Query) (clock : nat -> Z)
    (db : Db) : Db * result Report :=
  match env "RAINDROP_COLLECTION_ID" with
  | None => (db, Throw "Missing RAINDROP_COLLECTION_ID")
  | Some coll =>
      if negb (Js.truthy coll) then (db, Throw "Missing RAINDROP_COLLECTION_ID")
      else
        let k := knobs env query in
        match enumerate env api coll k (Z.to_nat (MAX_PAGES k)) 0 (∅, 0) with
        | Throw msg => (db, Throw msg)
        | Ok (raindropIds, pagesFetched) =>
            let notionRows := listAllNotionRows db in
            let '(db', l) :=
              reconcile_loop env api k raindropIds clock 0 notionRows db
                lists_start in
            (db', l ← l;
                  Ok {| r_dryRun := dryRun k;
                        r_deleteMode := DELETE_MODE k;
                        r_graceHours := DELETE_GRACE_HOURS k;
                        r_raindropCollectionId := coll;
                        r_pagesFetchedFromRaindrop := pagesFetched;
                        r_notionRows := length notionRows;
                        r_raindropIds := size raindropIds;
                        r_results := l |})
        end
  end.

End WithDate.
End Reconcile.

(** ** The Raindrop listing contract and concrete scenarios *)

Module Scenario.
Import Raindrop Notion.

(** Page [page] of a listing cut into pages of [perPage] items. *)
Definition paged {A : Type} (perPage : Z) (page : nat) (l : list A) : list A :=
  take (Z.to_nat perPage) (drop (page * Z.to_nat perPage) l).

(** A service that lists [listing] (newest first, as [sort=-created] asks),
    answers a search with the items that [matches] selects, and answers
    title and detail requests as given. *)
Definition service (listing : list RaindropItem)
    (matches : string -> RaindropItem -> bool)
    (titles : string -> fetched (option string))
    (details : Z -> fetched (option RawDetail)) : Api :=
  {| raindrops := fun _ perPage page search =>
       Response 200
         {| text := "";
            items := paged perPage page
                       (match search with
                        | Some q => List.filter (matches q) listing
                        | None => listing
                        end) |};
     collection_item_title := titles;
     raindrop := details |}.

Definition lookup_env (bindings : list (string * string)) : Env :=
  fun name => snd <$> List.find (fun b => String.eqb name b.1) bindings.

(** The required settings and nothing else: every knob at its default. *)
Definition default_env : Env :=
  lookup_env [("RAINDROP_ACCESS_TOKEN", "token");
              ("RAINDROP_COLLECTION_ID", "4242")].

Definition no_query : Query := fun _ => None.

Definition query_of (bindings : list (string * string)) : Query :=
  fun name => QString <$> lookup_env bindings name.

(** A bookmark created at [t] (milliseconds since the epoch), never edited. *)
Definition bookmark (id t : Z) : RaindropItem :=
  {| _id := id; title := "bookmark"; link := "https://example.org/";
     excerpt := Some ""; note := Some ""; tags := Some [];
     created := IsoDate.print t; lastUpdate := None;
     domain := Some "example.org"; collection := None |}.

(** [n] bookmarks with ids [first, first - 1, ...], each created a minute
    before the one listed ahead of it. *)
Fixpoint bookmarks (n : nat) (first t : Z) : list RaindropItem :=
  match n with
  | O => []
  | S n' => bookmark first t :: bookmarks n' (first - 1) (t - 60000)
  end.

Definition no_titles : string -> fetched (option string) :=
  fun _ => Response 404 None.

Definition no_details : Z -> fetched (option RawDetail) :=
  fun _ => Response 404 None.

(** 2025-09-15T12:34:56.789Z *)
Definition noon : Z := 1757939696789.

Definition hour : Z := 3600000.

(** A row as the sync creates it, with the given lock and delete flags. *)
Definition row (id : Z) (lastUpdate : option string) (lock deleted : bool)
    (detectedAt : option string) : Page :=
  {| archived := false; Title := "bookmark"; URL := "https://example.org/";
     Tags := []; Excerpt := None; Notes := None; Site := Some "example.org";
     Collection := Some "Inbox"; Created := Some (IsoDate.print 0);
     RaindropID := Some id; Status := Some "New";
     RaindropLastUpdate := lastUpdate; SyncedAt := None;
     Lock := lock; Deleted := deleted; DeleteDetectedAt := detectedAt |}.

Definition db_of (rows : list Page) : Db :=
  fold_left (fun db p => pages_create p db) rows ∅.

(** An item whose [created] and [lastUpdate] are both empty. *)
Definition undated (id : Z) : RaindropItem :=
  {| _id := id; title := "bookmark"; link := "https://example.org/";
     excerpt := Some ""; note := Some ""; tags := Some [];
     created := ""; lastUpdate := None;
     domain := Some "example.org"; collection := None |}.

Definition at_noon : nat -> Z := fun _ => noon.

(** A service with an empty collection that knows no item. *)
Definition emptied : Api := service [] (fun _ _ => false) no_titles no_details.

(** A service that lists bookmark 7. *)
Definition listing_seven : Api :=
  service [bookmark 7 0] (fun _ _ => false) no_titles no_details.

(** Sixty bookmarks made within the last hour; every search returns them
    all. *)
Definition sixty : Api :=
  service (bookmarks 60 60 noon) (fun _ _ => true) no_titles no_details.

(** A service that lists nothing and whose detail requests are rejected. *)
Definition unreachable : Api :=
  service [] (fun _ _ => false) no_titles (fun _ => Rejected "fetch failed").

(** A service that lists nothing but still knows every item, now in
    collection 99, titled "Elsewhere". *)
Definition moved_away : Api :=
  service [] (fun _ _ => false)
    (fun _ => Response 200 (Some "Elsewhere"))
    (fun _ => Response 200
       (Some {| raw_removed := false; raw_collectionId := Some 99;
                raw_collection_id := None; raw_lastUpdate := None |})).

(** Another moment of the same day: 2025-09-15T18:00:00.000Z, and one the
    day after. *)
Definition evening : Z := 1757959200000.

(** Pages of two, a budget of one page, and a caller-supplied cap of 500. *)
Definition one_page_of_two : Env :=
  lookup_env [("RAINDROP_ACCESS_TOKEN", "token");
              ("RAINDROP_COLLECTION_ID", "4242");
              ("PER_PAGE", "2"); ("MAX_PAGES", "1")].

(** Three bookmarks made within the last minutes; every search returns them
    all. *)
Definition three : Api :=
  service (bookmarks 3 3 noon) (fun _ _ => true) no_titles no_details.

(** Bookmark 1 was created 48 hours and 14 minutes before noon; bookmark 2
    is months old and was edited an hour before noon.  The listing has both,
    newest first; a search returns the edited one. *)
Definition aging : RaindropItem := bookmark 1 (noon - 48 * hour - 14 * 60000).

Definition edited : RaindropItem :=
  {| _id := 2; title := "bookmark"; link := "https://example.org/";
     excerpt := Some ""; note := Some ""; tags := Some [];
     created := IsoDate.print (noon - 2400 * hour);
     lastUpdate := Some (IsoDate.print (noon - hour));
     domain := Some "example.org"; collection := None |}.

Definition aging_and_edited : Api :=
  service [aging; edited]
    (fun _ it => match lastUpdate it with Some _ => true | None => false end)
    no_titles no_details.

End Scenario.

(** ** Vocabulary of the statements *)

Module Spec.
Import Raindrop Notion.

(** The entry [f] of a lookup result describes a live row of [db] that
    carries the Raindrop id [id]. *)
Definition backs (db : Db) (id : Z) (f : NotionFound) : Prop :=
  ∃ p, db !! found_pageId f = Some p ∧ archived p = false
       ∧ RaindropID p = Some id ∧ Lock p = found_locked f
       ∧ RaindropLastUpdate p = raindropLastUpdate f.

(** "A Source identifier maps to at most one non-archived LedgerRow." *)
Definition unique_ids (db : Db) : Prop :=
  ∀ k1 k2 p1 p2 id,
    db !! k1 = Some p1 → db !! k2 = Some p2 →
    archived p1 = false → archived p2 = false →
    RaindropID p1 = Some id → RaindropID p2 = Some id → k1 = k2.

Section WithDate.
Context {date : JsDate}.

Definition is_create (d : Sync.Action) : bool :=
  match d with Sync.Create => true | _ => false end.
Definition is_update (d : Sync.Action) : bool :=
  match d with Sync.Update _ => true | _ => false end.
Definition is_locked (d : Sync.Action) : bool :=
  match d with Sync.SkipLocked => true | _ => false end.
Definition is_existing (d : Sync.Action) : bool :=
  match d with Sync.SkipLocked | Sync.UpToDate => true | _ => false end.

(** The ids of the candidates whose decision satisfies [P], in the order of
    the candidate list. *)
Definition ids_where (P : Sync.Action → bool)
    (existing : Js.map NotionFound) (cands : list RaindropItem) : list Z :=
  List.map _id (List.filter (fun it => P (Sync.decide existing it)) cands).

(** The lists of a run that went through all of [cands]. *)
Definition tally_of (dry : bool) (existing : Js.map NotionFound)
    (cands : list RaindropItem) (t : Sync.Tally) : Sync.Tally :=
  fold_left (fun t it => Sync.record dry (Sync.decide existing it) (_id it) t)
    cands t.

(** [item.lastUpdate || item.created], the item side of the comparison. *)
Definition itemLast (item : RaindropItem) : string :=
  Js.or_else (lastUpdate item) (created item).

(** The service with every unsuccessful detail response (a status other than
    2xx, or a body without an item) replaced by a plain 404. *)
Definition as_not_found (api : Api) : Api :=
  {| raindrops := raindrops api;
     collection_item_title := collection_item_title api;
     raindrop := fun id =>
       match raindrop api id with
       | Rejected msg => Rejected msg
       | Response status body =>
           if ok status && bool_decide (is_Some body) then Response status body
           else Response 404 None
       end |}.

(** The properties of a row that neither a move nor the delete tracking may
    touch: everything but the collection, the sync timestamp, the deleted
    flag and the detection timestamp. *)
Definition kept_fields (p : Page)
    : bool * string * string * list string * option string * option string
      * option string * option string * option Z * option string
      * option string * bool :=
  (archived p, Title p, URL p, Tags p, Excerpt p, Notes p, Site p, Created p,
   RaindropID p, Status p, RaindropLastUpdate p, Lock p).





(** The ids the candidate loop has been through, as the response shows
    them. *)
Definition evaluated (rep : Sync.Report) : list Z :=
  default [] (Sync.r_createdIds rep) ++ default [] (Sync.r_updatedIds rep)
  ++ default [] (Sync.r_toCreatePreview rep)
  ++ default [] (Sync.r_toUpdatePreview rep) ++ Sync.r_alreadyExists rep.

(** The claim of window completeness as the specification states it, for
    the items of a listing. *)
Definition window_complete (env : Env) (api : Api) (query : Query) (now : Z)
    (clock : nat → Z) (db : Db) (listing : list RaindropItem) : Prop :=
  ∀ item t,
    item ∈ listing → getTime (created item) = Some t →
    Sync.since (Sync.knobs env query now) ≤ t →
    ∃ rep, (Sync.run env api query now clock db).2 = Ok rep
           ∧ _id item ∈ evaluated rep.

(** The service lists [all], page by page, for the collection [coll]. *)
Definition lists (api : Api) (coll : string) (all : list RaindropItem) : Prop :=
  ∀ perPage page, ∃ status text,
    raindrops api coll perPage page None
    = Response status {| text := text; items := Scenario.paged perPage page all |}
    ∧ ok status = true.

Definition searches_answered (api : Api) (coll : string) : Prop :=
  ∀ search perPage page, ∃ status body,
    raindrops api coll perPage page (Some search) = Response status body
    ∧ ok status = true.

Definition titles_answered (api : Api) : Prop :=
  ∀ key, ∃ status t, collection_item_title api key = Response status t.

(** [b] was not created after [a] (where both dates parse). *)
Definition not_newer (b a : RaindropItem) : bool :=
  match getTime (created b), getTime (created a) with
  | Some tb, Some ta => tb <=? ta
  | _, _ => true
  end.

(** The listing is in the order [sort=-created] asks for. *)
Fixpoint newest_first (l : list RaindropItem) : bool :=
  match l with
  | [] => true
  | a :: rest => forallb (fun b => not_newer b a) rest && newest_first rest
  end.

(** [limitQP && limitQP <= PER_PAGE]: pass A stops after its first page. *)
Definition first_page_only (k : Sync.Knobs) : bool :=
  negb (Sync.limitQP k =? 0) && (Sync.limitQP k <=? Sync.PER_PAGE k).

(** How many positions of the listing pass A can read before its page budget
    (or the first-page rule) ends it. *)
Definition scan_reach (k : Sync.Knobs) : nat :=
  (Z.to_nat (Sync.perPageA k)
   * (if first_page_only k then Nat.min 1 (Z.to_nat (Sync.MAX_PAGES k))
      else Z.to_nat (Sync.MAX_PAGES k)))%nat.

(** What pass A has kept after the items [l]. *)
Definition keptOf (since : Z) (l : list RaindropItem)
    (kept : Js.map RaindropItem) : Js.map RaindropItem :=
  fold_left
    (fun kept it => if Sync.createdOld since it then kept
                    else Js.set (_id it) it kept)
    l kept.

(** Every entry sits under the id of its item. *)
Definition well_keyed (m : Js.map RaindropItem) : Prop :=
  ∀ k it, (k, it) ∈ m → _id it = k.

(** The entry that a lookup returns for the row [p] under the page id
    [pid]. *)
Definition found_of (pid : N) (p : Page) : NotionFound :=
  {| found_pageId := pid; raindropLastUpdate := RaindropLastUpdate p;
     found_locked := Lock p |}.

(** The database holds a live row for the item that the next sync will not
    touch: it is locked, or it stores a timestamp that the item's is not newer
    than. *)
Definition settled (db : Db) (item : RaindropItem) : Prop :=
  ∃ pid p, db !! pid = Some p ∧ archived p = false
           ∧ RaindropID p = Some (_id item)
           ∧ (Lock p = true
              ∨ Sync.newerThan (Some (itemLast item)) (RaindropLastUpdate p) = false).

(** The lookup result [existing], taken earlier, still tells the truth about
    the item in [db]: the row it found is there as found, and where it found
    none there is none. *)
Definition snapshot_ok (db : Db) (existing : Js.map NotionFound)
    (item : RaindropItem) : Prop :=
  match Js.get (_id item) existing with
  | Some f => backs db (_id item) f
  | None => ∀ pid p, db !! pid = Some p → archived p = false →
                     RaindropID p ≠ Some (_id item)
  end.

(** [n] hours in milliseconds. *)
Definition hours (n : Z) : Z := n * 3600000.

(** The ids that step 1 of the reconciliation collects, when it gets
    through. *)
Definition listed_ids (env : Env) (api : Api) (query : Query) : option (gset Z) :=
  coll ← env "RAINDROP_COLLECTION_ID";
  let k := Reconcile.knobs env query in
  match Reconcile.enumerate env api coll k (Z.to_nat (Reconcile.MAX_PAGES k)) 0 (∅, 0) with
  | Ok st => Some st.1
  | Throw _ => None
  end.

(** Every detail request gets a response. *)
Definition details_answered (env : Env) (api : Api) : Prop :=
  ∀ id, ∃ d, fetchRaindropDetail env api id = Ok d.

(** The detail check does not report "exists and not removed". *)
Definition reported_missing (env : Env) (api : Api) (id : Z) : Prop :=
  ∃ d, fetchRaindropDetail env api id = Ok d
       ∧ exists_ d && negb (default false (removed d)) = false.


End WithDate.

End Spec.

(** ** The handler of api/sync.ts around its [try] block *)

Module Endpoint.
Import Raindrop Notion.

(** The request as the handler reads it: the method, the headers and the
    query. *)
Record Request : Type := {
  method : string;
  headers : string -> option string;
  query : Query
}.

(** What [res.status(..).json(..)] sends. *)
Inductive Body : Type :=
| Refused (error : string)          (* { ok: false, error } *)
| Report (r : Sync.Report)
| Failed (error : string).          (* { error } *)

Record Reply : Type := {
  status : Z;
  body : Body
}.

(** [a === b] on [string | undefined]. *)
Definition same (a b : option string) : bool :=
  match a, b with
  | Some x, Some y => String.eqb x y
  | None, None => true
  | _, _ => false
  end.

(** [req.headers['x-vercel-cron'] === '1'] *)
Definition isCron (req : Request) : bool :=
  same (headers req "x-vercel-cron") (Some "1").

(** [req.method === 'POST' && !isCron] *)
Definition requireToken (req : Request) : bool :=
  String.eqb (method req) "POST" && negb (isCron req).

(** [headerToken ?? queryToken], the query token counting only when it is a
    single string. *)
Definition token (req : Request) : option string :=
  match headers req "x-webhook-token" with
  | Some h => Some h
  | None =>
      match query req "token" with
      | Some (QString s) => Some s
      | _ => None
      end
  end.

Section WithDate.
Context {date : JsDate}.

Definition handler (env : Env) (api : Api) (req : Request) (now : Z)
    (clock : nat -> Z) (db : Db) : Db * Reply :=
  if negb (String.eqb (method req) "POST") && negb (String.eqb (method req) "GET")
  then (db, {| status := 405; body := Refused "method not allowed" |})
  else if requireToken req && Js.truthy_opt (env "TRIGGER_TOKEN")
          && negb (same (token req) (env "TRIGGER_TOKEN"))
  then (db, {| status := 401; body := Refused "unauthorized" |})
  else
    match Sync.run env api (query req) now clock db with
    | (db', Ok r) => (db', {| status := 200; body := Report r |})
    | (db', Throw msg) =>
        (db', {| status := 500; body := Failed (Js.or_else (Some msg) "Error") |})
    end.

End WithDate.
End Endpoint.

(** ** The title cache of lib/raindrop.ts *)

Module TitleCache.
Import Raindrop.

(** [collectionTitleCache], a module-level [Map<string, string>] that lives
    as long as the process does. *)
Abbreviation collectionTitleCache := (gmap string string).

(** [getCollectionTitleById] with the cache it reads and fills: the result
    and the cache after the call. *)
Definition getCollectionTitleById (env : Env) (api : Api) (key : string)
    (cache : collectionTitleCache)
    : result (option string) * collectionTitleCache :=
  match cache !! key with
  | Some t => (Ok (Some t), cache)
  | None =>
      match getRaindropToken env with
      | Throw msg => (Throw msg, cache)
      | Ok _ =>
          match collection_item_title api key with
          | Rejected msg => (Throw msg, cache)
          | Response status t =>
              if negb (ok status) then (Ok None, cache)
              else (Ok t,
                    match t with
                    | Some s => if Js.truthy s then <[key := s]> cache else cache
                    | None => cache
                    end)
          end
      end
  end.

(** One call after the other, each seeing the cache the one before left. *)
Fixpoint lookups (env : Env) (api : Api) (keys : list string)
    (cache : collectionTitleCache)
    : list (result (option string)) * collectionTitleCache :=
  match keys with
  | [] => ([], cache)
  | key :: rest =>
      let '(r, cache1) := getCollectionTitleById env api key cache in
      let '(rs, cache2) := lookups env api rest cache1 in
      (r :: rs, cache2)
  end.

(** Every cached title is the title the service returns for its key. *)
Definition coherent (api : Api) (cache : collectionTitleCache) : Prop :=
  ∀ key t, cache !! key = Some t →
    Js.truthy t = true
    ∧ ∃ status, collection_item_title api key = Response status (Some t)
                ∧ ok status = true.

End TitleCache.

(** ** The handlers in a process that keeps its title cache

    A function instance serves one invocation after the other, and
    [collectionTitleCache] is what an invocation leaves to the next.  Here
    the two handlers are written with the cache they find and the cache they
    leave; [Sync.run] and [Reconcile.run] above make every title request
    anew. *)

Module Cached.
Import Raindrop Notion TitleCache.

(** What a call for [key] returns in a process that held [cache] when the
    invocation began: the cached title, else what the request returns. *)
Definition call (cache : collectionTitleCache) (env : Env) (api : Api)
    (key : string) : result (option string) :=
  match cache !! key with
  | Some t => Ok (Some t)
  | None => Raindrop.getCollectionTitleById env api key
  end.

(** The same with [.catch(() => undefined)]. *)
Definition held (cache : collectionTitleCache) (env : Env) (api : Api)
    (key : string) : option string :=
  catch_undefined (call cache env api key).

(** The title an invocation resolves for an item of the collection [coll]:
    the one held for the item's collection, else the one held for [coll]. *)
Definition title_for (cache : collectionTitleCache) (env : Env) (api : Api)
    (coll : string) (item : RaindropItem) : option string :=
  match Sync.collKey coll item with
  | Some key =>
      match held cache env api key with
      | Some t => Some t
      | None => held cache env api coll
      end
  | None => held cache env api coll
  end.

(** [cache] is what [cache0] has grown into during an invocation: it has
    every key of [cache0], and what it holds under a key is what a call for
    the key returned. *)
Definition grown (env : Env) (api : Api) (cache0 cache : collectionTitleCache)
    : Prop :=
  ∀ key, (cache !! key = None → cache0 !! key = None)
         ∧ ∀ t, cache !! key = Some t → call cache0 env api key = Ok (Some t).

(** The service as a process that holds [cache] sees it: a cached key is
    answered with its cached title. *)
Definition through (cache : collectionTitleCache) (api : Api) : Api :=
  {| raindrops := raindrops api;
     collection_item_title := fun key =>
       match cache !! key with
       | Some t => Response 200 (Some t)
       | None => collection_item_title api key
       end;
     raindrop := raindrop api |}.

Section WithDate.
Context {date : JsDate}.

(** [(collId ? await getCollectionTitleById(collId) : undefined) ??
    defaultCollectionTitle] *)
Definition resolveTitle (env : Env) (api : Api) (coll : string)
    (defaultCollectionTitle : option string) (item : RaindropItem)
    (cache : collectionTitleCache)
    : result (option string) * collectionTitleCache :=
  match Sync.collKey coll item with
  | Some key =>
      let '(r, cache') := getCollectionTitleById env api key cache in
      (t ← r;
       Ok (match t with Some t => Some t | None => defaultCollectionTitle end),
       cache')
  | None => (Ok defaultCollectionTitle, cache)
  end.

(** The [for (const item of candidateList)] of api/sync.ts. *)
Fixpoint upsert_loop (env : Env) (api : Api) (coll : string) (dry : bool)
    (existingMapAll : Js.map NotionFound)
    (defaultCollectionTitle : option string) (clock : nat -> Z)
    (i : nat) (candidates : list RaindropItem) (db : Db) (t : Sync.Tally)
    (cache : collectionTitleCache)
    : Db * result Sync.Tally * collectionTitleCache :=
  match candidates with
  | [] => (db, Ok t, cache)
  | item :: rest =>
      match resolveTitle env api coll defaultCollectionTitle item cache with
      | (Throw msg, cache') => (db, Throw msg, cache')
      | (Ok collectionTitle, cache') =>
          let d := Sync.decide existingMapAll item in
          upsert_loop env api coll dry existingMapAll defaultCollectionTitle
            clock (S i) rest
            (Sync.write dry d item collectionTitle (toISOString (clock i)) db)
            (Sync.record dry d (_id item) t) cache'
      end
  end.

(** The [try] block of api/sync.ts: the database and the response as in
    [Sync.run], and the cache the invocation leaves. *)
Definition sync_run (env : Env) (api : Api) (query : Query) (now : Z)
    (clock : nat -> Z) (db : Db) (cache : collectionTitleCache)
    : Db * result Sync.Report * collectionTitleCache :=
  match env "RAINDROP_COLLECTION_ID" with
  | None => (db, Throw "Missing RAINDROP_COLLECTION_ID", cache)
  | Some coll =>
      if negb (Js.truthy coll)
      then (db, Throw "Missing RAINDROP_COLLECTION_ID", cache)
      else
        let k := Sync.knobs env query now in
        match Sync.isoDateOnly (Sync.sinceDate env now) with
        | Throw msg => (db, Throw msg, cache)
        | Ok _ =>
            let '(r, cache1) := getCollectionTitleById env api coll cache in
            let defaultCollectionTitle := catch_undefined r in
            match Sync.passA env api db coll k with
            | Throw msg => (db, Throw msg, cache1)
            | Ok a =>
                match Sync.passB env api coll k with
                | Throw msg => (db, Throw msg, cache1)
                | Ok b =>
                    let list :=
                      Sync.candidateList k (Sync.union (Sync.passAItems a) b.1) in
                    let p :=
                      {| Sync.plan_knobs := k;
                         Sync.plan_defaultTitle := defaultCollectionTitle;
                         Sync.plan_passA := a; Sync.plan_passB := b;
                         Sync.plan_candidates := list;
                         Sync.plan_existing :=
                           getPagesByRaindropIds db (List.map _id list) |} in
                    let '(db', t, cache2) :=
                      upsert_loop env api coll (Sync.dryRun k)
                        (Sync.plan_existing p) defaultCollectionTitle clock 0
                        list db Sync.tally_start cache1 in
                    (db', t ← t; Ok (Sync.report p t), cache2)
                end
            end
        end
  end.

(** The body of [for (const row of notionRows)] of api/reconcile.ts.  The
    title of a moved item is asked for before the lock is looked at. *)
Definition reconcile_row (env : Env) (api : Api) (k : Reconcile.Knobs)
    (raindropIds : gset Z) (now : Z) (row : NotionRow) (db : Db)
    (l : Reconcile.Lists) (cache : collectionTitleCache)
    : Db * result Reconcile.Lists * collectionTitleCache :=
  let nowIso := toISOString now in
  let dry := Reconcile.dryRun k in
  let id := raindropId row in
  if bool_decide (id ∈ raindropIds) then
    if deletedFlag row
    then ((if dry then db else clearDeleteFlags (pageId row) nowIso db),
          Ok (Reconcile.push_clearedFlags id l), cache)
    else (db, Ok l, cache)
  else
    match fetchRaindropDetail env api id with
    | Throw msg => (db, Throw msg, cache)
    | Ok detail =>
        if exists_ detail && negb (default false (removed detail)) then
          let '(newTitle, cache') :=
            match collectionId detail with
            | Some c =>
                if c =? 0 then (None, cache)
                else
                  let '(r, cache') :=
                    getCollectionTitleById env api (pretty c) cache in
                  (catch_undefined r, cache')
            | None => (None, cache)
            end in
          if negb (locked row) then
            let db1 := if dry then db
                       else updateCollectionOnly (pageId row) newTitle nowIso db in
            let l1 := Reconcile.push_moved id l in
            if deletedFlag row
            then ((if dry then db1 else clearDeleteFlags (pageId row) nowIso db1),
                  Ok (Reconcile.push_clearedFlags id l1), cache')
            else (db1, Ok l1, cache')
          else (db, Ok (Reconcile.push_skippedLocked id l), cache')
        else if negb (deletedFlag row)
                || negb (Js.truthy_opt (deleteDetectedAt row)) then
          ((if dry then db
            else markDeleteDetected (pageId row) nowIso nowIso
                   (negb (locked row)) db),
           Ok (Reconcile.push_deleteDetected id l), cache)
        else
          let ageHours := Reconcile.hoursSince now (deleteDetectedAt row) in
          if Reconcile.at_least ageHours (Reconcile.DELETE_GRACE_HOURS k) then
            if String.eqb (Reconcile.DELETE_MODE k) "archive" && negb (locked row)
            then ((if dry then db else archivePage (pageId row) db),
                  Ok (Reconcile.push_deleteArchivedNow id l), cache)
            else (db, Ok (Reconcile.push_skippedLocked id l), cache)
          else (db, Ok (Reconcile.push_deleteDetected id l), cache)
    end.

Fixpoint reconcile_loop (env : Env) (api : Api) (k : Reconcile.Knobs)
    (raindropIds : gset Z) (clock : nat -> Z) (i : nat)
    (rows : list NotionRow) (db : Db) (l : Reconcile.Lists)
    (cache : collectionTitleCache)
    : Db * result Reconcile.Lists * collectionTitleCache :=
  match rows with
  | [] => (db, Ok l, cache)
  | row :: rest =>
      match reconcile_row env api k raindropIds (clock i) row db l cache with
      | (db', Ok l', cache') =>
          reconcile_loop env api k raindropIds clock (S i) rest db' l' cache'
      | (db', Throw msg, cache') => (db', Throw msg, cache')
      end
  end.

(** The [try] block of api/reconcile.ts: the database and the response as
    in [Reconcile.run], and the cache the invocation leaves. *)
Definition reconcile_run (env : Env) (api : Api) (query : Query)
    (clock : nat -> Z) (db : Db) (cache : collectionTitleCache)
    : Db * result Reconcile.Report * collectionTitleCache :=
  match env "RAINDROP_COLLECTION_ID" with
  | None => (db, Throw "Missing RAINDROP_COLLECTION_ID", cache)
  | Some coll =>
      if negb (Js.truthy coll)
      then (db, Throw "Missing RAINDROP_COLLECTION_ID", cache)
      else
        let k := Reconcile.knobs env query in
        match Reconcile.enumerate env api coll k
                (Z.to_nat (Reconcile.MAX_PAGES k)) 0 (∅, 0) with
        | Throw msg => (db, Throw msg, cache)
        | Ok (raindropIds, pagesFetched) =>
            let notionRows := listAllNotionRows db in
            let '(db', l, cache') :=
              reconcile_loop env api k raindropIds clock 0 notionRows db
                Reconcile.lists_start cache in
            (db', l ← l;
                  Ok {| Reconcile.r_dryRun := Reconcile.dryRun k;
                        Reconcile.r_deleteMode := Reconcile.DELETE_MODE k;
                        Reconcile.r_graceHours := Reconcile.DELETE_GRACE_HOURS k;
                        Reconcile.r_raindropCollectionId := coll;
                        Reconcile.r_pagesFetchedFromRaindrop := pagesFetched;
                        Reconcile.r_notionRows := length notionRows;
                        Reconcile.r_raindropIds := size raindropIds;
                        Reconcile.r_results := l |},
             cache')
        end
  end.

End WithDate.
End Cached.

(** ** The first revision: lib/raindrop.ts, lib/notion.ts and api/sync.ts
       before the two-pass sync *)

Module V1.
Import Raindrop Notion.

(** The first [RaindropItem] has no [note] and no [lastUpdate]: the
    normalisation does not copy them. *)
Definition normalise (it : RaindropItem) : RaindropItem :=
  {| _id := _id it; title := title it; link := link it;
     excerpt := excerpt it; note := None; tags := tags it;
     created := created it; lastUpdate := None; domain := domain it;
     collection := collection it |}.

Definition assertEnv (env : Env) : result unit :=
  if Js.truthy_opt (env "RAINDROP_ACCESS_TOKEN") then Ok tt
  else Throw "Missing RAINDROP_ACCESS_TOKEN".

(** No [page] parameter: the service answers with its first page. *)
Definition fetchRecentRaindrops (env : Env) (api : Api)
    (collectionId : string) (perPage : Z) : result (list RaindropItem) :=
  _ ← assertEnv env;
  match raindrops api collectionId perPage 0 None with
  | Rejected msg => Throw msg
  | Response status body =>
      if ok status then Ok (List.map normalise (items body))
      else Throw ("Raindrop fetch failed: " +:+ pretty status +:+ " " +:+ text body)
  end.

(** [{ property: 'Raindrop ID', number: { equals: raindropId } }] *)
Definition id_equals (raindropId : Z) (p : Page) : bool :=
  match RaindropID p with
  | Some n => n =? raindropId
  | None => false
  end.

(** [response.results[0]] of a query with [page_size: 1]; the same function
    is in the current lib/notion.ts. *)
Definition pageExists (raindropId : Z) (db : Db) : option (N * Page) :=
  head (databases_query (id_equals raindropId) 1 0 db).1.

Definition createFromRaindrop (item : RaindropItem) (db : Db) : Db :=
  pages_create
    {| archived := false;
       Title := Js.or_else (Some (title item)) "Untitled";
       URL := link item;
       Tags := toMultiSelect (tags item);
       Excerpt := rich_text (excerpt item);
       Notes := None;
       Site := rich_text (domain item);
       Collection := rich_text (c ← collection item; coll_title c);
       Created := Some (created item);
       RaindropID := Some (_id item);
       Status := None;
       RaindropLastUpdate := None;
       SyncedAt := None;
       Lock := false; Deleted := false; DeleteDetectedAt := None |} db.

(** The [for (const item of items)] of the handler. *)
Fixpoint create_loop (items : list RaindropItem) (db : Db) (created : Z)
    : Db * Z :=
  match items with
  | [] => (db, created)
  | item :: rest =>
      match pageExists (_id item) db with
      | Some _ => create_loop rest db created
      | None => create_loop rest (createFromRaindrop item db) (created + 1)
      end
  end.

Record Report : Type := {
  checked : nat;
  created : Z
}.

(** The [try] block of the handler. *)
Definition run (env : Env) (api : Api) (db : Db) : Db * result Report :=
  match env "RAINDROP_COLLECTION_ID" with
  | None => (db, Throw "Missing RAINDROP_COLLECTION_ID")
  | Some coll =>
      if negb (Js.truthy coll) then (db, Throw "Missing RAINDROP_COLLECTION_ID")
      else
        match fetchRecentRaindrops env api coll 50 with
        | Throw msg => (db, Throw msg)
        | Ok items =>
            let '(db', n) := create_loop items db 0 in
            (db', Ok {| checked := length items; created := n |})
        end
  end.

End V1.

(** ** Vocabulary of the further statements *)

Module Terms.
Import Raindrop Notion.

(** The database holds a row for the id that is not archived. *)
Definition live (db : Db) (id : Z) : Prop :=
  ∃ pid p, db !! pid = Some p ∧ archived p = false ∧ RaindropID p = Some id.

(** What the sync has no business with on a row that exists: whether it is
    archived, the id, the status, the lock and the delete tracking. *)
Definition sync_kept (p : Page)
    : bool * option Z * option string * bool * bool * option string :=
  (archived p, RaindropID p, Status p, Lock p, Deleted p, DeleteDetectedAt p).

(** What the reconciliation has no business with: the mirrored content
    apart from the collection, the id, the stored timestamp and the lock. *)
Definition reconcile_kept (p : Page)
    : string * string * list string * option string * option string
      * option string * option string * option Z * option string * bool :=
  (Title p, URL p, Tags p, Excerpt p, Notes p, Site p, Created p,
   RaindropID p, RaindropLastUpdate p, Lock p).

(** The content of the row that mirrors [item], its collection resolved to
    [collectionTitle]. *)
Definition mirror (item : RaindropItem) (collectionTitle : option string)
    : string * string * list string * option string * option string
      * option string * option string * option string :=
  (Js.or_else (Some (title item)) "Untitled", link item,
   take 50 (default [] (tags item)),
   rich_text (excerpt item), rich_text (note item), rich_text (domain item),
   rich_text (Some (title_of item collectionTitle)), Some (created item)).

(** The database holds a live row for the item whose content is the
    item's, with the item's timestamp stored. *)
Definition mirrors (db : Db) (item : RaindropItem)
    (collectionTitle : option string) : Prop :=
  ∃ pid p, db !! pid = Some p ∧ archived p = false
           ∧ RaindropID p = Some (_id item)
           ∧ content p = mirror item collectionTitle
           ∧ RaindropLastUpdate p
             = dateOrNull (Some (Js.or_else (lastUpdate item) (created item))).

End Terms.

(** ** Vocabulary of the reconciliation report *)

Module Tally.
Import Raindrop Notion.

(** The four lists a row without a listed id ends up in. *)
Definition resolved (l : Reconcile.Lists) : list Z :=
  Reconcile.moved l ++ Reconcile.deleteDetected l
  ++ Reconcile.deleteArchivedNow l ++ Reconcile.skippedLocked l.

(** The rows whose id the enumeration did not return, in row order. *)
Definition absent (ids : gset Z) (rows : list NotionRow) : list NotionRow :=
  List.filter (fun row => negb (bool_decide (raindropId row ∈ ids))) rows.

End Tally.

(** * Properties *)

(** ** The helpers compute what JavaScript computes *)

Example iso_print_epoch : IsoDate.print 0 = "1970-01-01T00:00:00.000Z".
Proof. reflexivity. Qed.

Example iso_print_2025 : IsoDate.print 1757939696789 = "2025-09-15T12:34:56.789Z".
Proof. vm_compute. reflexivity. Qed.

Example iso_parse_2025 : IsoDate.parse "2025-09-15T12:34:56.789Z" = Some 1757939696789.
Proof. vm_compute. reflexivity. Qed.

Example iso_parse_empty : IsoDate.parse "" = None.
Proof. reflexivity. Qed.

Example parseInt_rounds :
  Js.parseInt "9007199254740993" = Js.Num 9007199254740992
  /\ Js.parseInt "9007199254740995" = Js.Num 9007199254740996
  /\ Js.parseInt "-36028797018963973" = Js.Num (-36028797018963976).
Proof. vm_compute. repeat split. Qed.

Example parseInt_examples :
  Js.parseInt "  42px" = Js.Num 42 /\ Js.parseInt "-7" = Js.Num (-7)
  /\ Js.parseInt "abc" = Js.NaN /\ Js.parseInt "" = Js.NaN.
Proof. repeat split; reflexivity. Qed.

(** ** JavaScript maps *)

Module JsFacts.

Section Facts.
Context {V : Type}.
Implicit Types (m : Js.map V) (k : Z) (v : V).

Lemma get_set k k' v m :
  Js.get k' (Js.set k v m) = if k' =? k then Some v else Js.get k' m.
Proof.
  induction m as [|[k0 v0] m IH]; simpl.
  - reflexivity.
  - destruct (k =? k0) eqn:E; simpl.
    + apply Z.eqb_eq in E. subst k0. destruct (k' =? k); reflexivity.
    + destruct (k' =? k0) eqn:E'.
      * apply Z.eqb_eq in E'. subst k0.
        rewrite Z.eqb_sym, E. reflexivity.
      * exact IH.
Qed.

Lemma get_set_eq k v m : Js.get k (Js.set k v m) = Some v.
Proof. rewrite get_set, Z.eqb_refl. reflexivity. Qed.

Lemma get_set_ne k k' v m : k' ≠ k → Js.get k' (Js.set k v m) = Js.get k' m.
Proof.
  intros Hne. rewrite get_set.
  destruct (k' =? k) eqn:E; [apply Z.eqb_eq in E; contradiction | reflexivity].
Qed.

Lemma get_None k m : Js.get k m = None ↔ k ∉ Js.keys m.
Proof.
  induction m as [|[k0 v0] m IH]; simpl.
  - split; [intros _; apply not_elem_of_nil | reflexivity].
  - rewrite not_elem_of_cons. destruct (k =? k0) eqn:E.
    + apply Z.eqb_eq in E. split; [discriminate | intros [H _]; contradiction].
    + apply Z.eqb_neq in E. rewrite IH. tauto.
Qed.

Lemma get_Some_key k v m : Js.get k m = Some v → k ∈ Js.keys m.
Proof.
  intros H. destruct (decide (k ∈ Js.keys m)) as [Hin|Hin]; [exact Hin|].
  apply get_None in Hin. congruence.
Qed.

Lemma key_get_Some k m : k ∈ Js.keys m → is_Some (Js.get k m).
Proof.
  intros H. destruct (Js.get k m) eqn:E; [eauto|].
  apply get_None in E. contradiction.
Qed.

Lemma get_Some_entry k v m : Js.get k m = Some v → (k, v) ∈ m.
Proof.
  induction m as [|[k0 v0] m IH]; simpl; [discriminate|].
  destruct (k =? k0) eqn:E.
  - apply Z.eqb_eq in E. intros [= ->]. subst. left.
  - intros H. right. exact (IH H).
Qed.

(** [set] never moves a key: the keys already present stay where they are
    and a new key goes to the end. *)
Lemma keys_set k v m :
  Js.keys (Js.set k v m) = Js.keys m ++ (if Js.has k m then [] else [k]).
Proof.
  unfold Js.has. induction m as [|[k0 v0] m IH]; simpl.
  - reflexivity.
  - destruct (k =? k0) eqn:E; simpl.
    + apply Z.eqb_eq in E. subst k0. rewrite app_nil_r. reflexivity.
    + rewrite IH. reflexivity.
Qed.

Lemma keys_set_length k v m :
  (length (Js.keys (Js.set k v m)) ≤ S (length (Js.keys m)))%nat.
Proof.
  rewrite keys_set, length_app. destruct (Js.has k m); simpl; lia.
Qed.

Lemma in_keys_set k k' v m :
  k' ∈ Js.keys (Js.set k v m) ↔ k' = k ∨ k' ∈ Js.keys m.
Proof.
  rewrite keys_set, elem_of_app. unfold Js.has.
  destruct (Js.get k m) eqn:E.
  - apply get_Some_key in E. rewrite elem_of_nil.
    split; [tauto|]. intros [->|H]; auto.
  - rewrite list_elem_of_singleton. tauto.
Qed.

Lemma NoDup_keys_set k v m : NoDup (Js.keys m) → NoDup (Js.keys (Js.set k v m)).
Proof.
  intros Hnd. rewrite keys_set. unfold Js.has.
  destruct (Js.get k m) eqn:E.
  - rewrite app_nil_r. exact Hnd.
  - apply get_None in E.
    apply NoDup_app. repeat split.
    + exact Hnd.
    + intros x Hx Hx'. apply list_elem_of_singleton in Hx'. subst x. contradiction.
    + apply NoDup_singleton.
Qed.

End Facts.
End JsFacts.

(** ** Notion queries *)

Module NotionFacts.
Import Raindrop Notion Spec.

Lemma elem_of_matching filter (db : Db) k p :
  (k, p) ∈ matching filter db ↔
  db !! k = Some p ∧ archived p = false ∧ filter p = true.
Proof.
  unfold matching. rewrite list_elem_of_In, filter_In, <- list_elem_of_In.
  rewrite elem_of_map_to_list. simpl.
  rewrite andb_true_iff, negb_true_iff. tauto.
Qed.

Lemma elem_of_query filter size cursor (db : Db) k p :
  (k, p) ∈ (databases_query filter size cursor db).1 →
  db !! k = Some p ∧ archived p = false ∧ filter p = true.
Proof.
  unfold databases_query. simpl. intros H.
  apply elem_of_take in H as (i & H & _).
  rewrite lookup_drop in H. apply list_elem_of_lookup_2 in H.
  apply elem_of_matching. exact H.
Qed.

Lemma id_in_spec chunk p :
  id_in chunk p = true ↔ ∃ id, RaindropID p = Some id ∧ id ∈ chunk.
Proof.
  unfold id_in. destruct (RaindropID p) as [n|].
  - rewrite existsb_exists. split.
    + intros (x & Hx & E). apply Z.eqb_eq in E. subst x.
      exists n. split; [reflexivity|]. apply list_elem_of_In. exact Hx.
    + intros (id & [= <-] & Hin). exists n.
      split; [apply list_elem_of_In; exact Hin | apply Z.eqb_refl].
  - split; [discriminate|]. intros (id & H & _). discriminate.
Qed.

Lemma record_found_backs (db : Db) out kp :
  db !! kp.1 = Some kp.2 → archived kp.2 = false →
  (∀ id f, Js.get id out = Some f → backs db id f) →
  ∀ id f, Js.get id (record_found out kp) = Some f → backs db id f.
Proof.
  intros Hk Ha Hout id f. unfold record_found.
  destruct (RaindropID kp.2) as [idProp|] eqn:E; [|apply Hout].
  rewrite JsFacts.get_set. destruct (id =? idProp) eqn:E'; [|apply Hout].
  apply Z.eqb_eq in E'. subst idProp. intros [= <-].
  exists kp.2. simpl. auto.
Qed.

Lemma fold_record_found_backs (db : Db) l out :
  (∀ kp, kp ∈ l → db !! kp.1 = Some kp.2 ∧ archived kp.2 = false) →
  (∀ id f, Js.get id out = Some f → backs db id f) →
  ∀ id f, Js.get id (fold_left record_found l out) = Some f → backs db id f.
Proof.
  revert out. induction l as [|kp l IH]; intros out Hl Hout; simpl.
  - exact Hout.
  - apply IH.
    + intros kp' H. apply Hl. right. exact H.
    + destruct (Hl kp) as [H1 H2]; [left|].
      apply record_found_backs; assumption.
Qed.

(** Whatever [getPagesByRaindropIds] returns for an id is a live row that
    carries the id, with the lock and the timestamp the row has. *)
Lemma getPages_backs (db : Db) ids id f :
  Js.get id (getPagesByRaindropIds db ids) = Some f → backs db id f.
Proof.
  unfold getPagesByRaindropIds.
  assert (G : ∀ cs out,
    (∀ id f, Js.get id out = Some f → backs db id f) →
    ∀ id f,
      Js.get id (fold_left
        (fun out chunk =>
           fold_left record_found (databases_query (id_in chunk) 100 0 db).1 out)
        cs out) = Some f → backs db id f).
  { induction cs as [|c cs IH]; intros out Hout; simpl; [exact Hout|].
    apply IH. apply fold_record_found_backs; [|exact Hout].
    intros [k p] H. apply elem_of_query in H. simpl. tauto. }
  apply G. intros ? ?. discriminate.
Qed.

Lemma chunks_from_cover fuel size (ids : list Z) x :
  (0 < size)%nat → (length ids ≤ fuel)%nat → x ∈ ids →
  ∃ c, c ∈ chunks_from fuel size ids ∧ x ∈ c.
Proof.
  intros Hsize. revert ids. induction fuel as [|fuel IH]; intros ids Hlen Hx.
  - destruct ids; [apply elem_of_nil in Hx; contradiction | simpl in Hlen; lia].
  - destruct ids as [|a l]; [apply elem_of_nil in Hx; contradiction|].
    cbn [chunks_from].
    rewrite <- (take_drop size (a :: l)) in Hx. apply elem_of_app in Hx as [Hx|Hx].
    + eexists. split; [left | exact Hx].
    + destruct (IH (drop size (a :: l))) as (c & Hc & Hxc); [|exact Hx|].
      * rewrite length_drop. cbn [length] in *. lia.
      * exists c. split; [right; exact Hc | exact Hxc].
Qed.

Lemma chunks_from_length fuel size (ids : list Z) c :
  c ∈ chunks_from fuel size ids → (length c ≤ size)%nat.
Proof.
  revert ids. induction fuel as [|fuel IH]; intros ids Hc.
  - destruct ids; apply elem_of_nil in Hc; contradiction.
  - destruct ids as [|a l]; [apply elem_of_nil in Hc; contradiction|].
    cbn [chunks_from] in Hc. apply elem_of_cons in Hc as [->|Hc].
    + rewrite length_take. lia.
    + exact (IH _ Hc).
Qed.

Lemma record_found_get out kp id pid p :
  RaindropID p = Some id →
  (RaindropID kp.2 = Some id → kp = (pid, p)) →
  kp = (pid, p) ∨ Js.get id out = Some (found_of pid p) →
  Js.get id (record_found out kp) = Some (found_of pid p).
Proof.
  intros Hid Honly H. unfold record_found.
  destruct (RaindropID kp.2) as [idProp|] eqn:E.
  - destruct (decide (idProp = id)) as [->|Hne].
    + rewrite (Honly eq_refl). simpl. apply JsFacts.get_set_eq.
    + rewrite JsFacts.get_set_ne by congruence.
      destruct H as [->|H]; [|exact H]. simpl in E. congruence.
  - destruct H as [->|H]; [|exact H]. simpl in E. congruence.
Qed.

Lemma fold_record_found_get l out id pid p :
  RaindropID p = Some id →
  (∀ kp, kp ∈ l → RaindropID kp.2 = Some id → kp = (pid, p)) →
  (pid, p) ∈ l ∨ Js.get id out = Some (found_of pid p) →
  Js.get id (fold_left record_found l out) = Some (found_of pid p).
Proof.
  intros Hid. revert out. induction l as [|kp l IH]; intros out Honly H; simpl.
  - destruct H as [H|H]; [apply elem_of_nil in H; contradiction | exact H].
  - apply IH; [intros kp' Hin; apply Honly; right; exact Hin|].
    destruct H as [H|H].
    + apply elem_of_cons in H as [<-|H]; [|left; exact H].
      right. apply record_found_get; [exact Hid | reflexivity | left; reflexivity].
    + right. apply record_found_get; [exact Hid | apply Honly; left | right; exact H].
Qed.

(** With one live row per id, a query for a chunk of ids returns no more
    rows than the chunk has ids. *)
Lemma matching_length (db : Db) chunk :
  unique_ids db → (length (matching (id_in chunk) db) ≤ length chunk)%nat.
Proof.
  intros Huniq.
  set (M := matching (id_in chunk) db).
  assert (Hin : ∀ kp, kp ∈ M → db !! kp.1 = Some kp.2 ∧ archived kp.2 = false
                        ∧ ∃ id, RaindropID kp.2 = Some id ∧ id ∈ chunk).
  { intros [k p] H. apply elem_of_matching in H as (H1 & H2 & H3).
    apply id_in_spec in H3. auto. }
  assert (Hnd : NoDup M).
  { apply NoDup_ListNoDup, List.NoDup_filter, NoDup_ListNoDup, NoDup_map_to_list. }
  rewrite <- (length_fmap (fun kp => default 0 (RaindropID kp.2)) M).
  apply submseteq_length, NoDup_submseteq.
  - apply NoDup_fmap_2_strong; [|exact Hnd].
    intros [k1 p1] [k2 p2] H1 H2 E.
    destruct (Hin _ H1) as (L1 & A1 & id1 & I1 & _).
    destruct (Hin _ H2) as (L2 & A2 & id2 & I2 & _).
    simpl in *. rewrite I1, I2 in E. simpl in E. subst id2.
    assert (k1 = k2) as -> by (eapply Huniq; eassumption).
    congruence.
  - intros x Hx. apply list_elem_of_fmap in Hx as (kp & -> & Hkp).
    destruct (Hin _ Hkp) as (_ & _ & id & -> & Hc). exact Hc.
Qed.

Lemma query_complete (db : Db) chunk id pid p :
  unique_ids db → (length chunk ≤ 100)%nat →
  db !! pid = Some p → archived p = false → RaindropID p = Some id →
  id ∈ chunk →
  (pid, p) ∈ (databases_query (id_in chunk) 100 0 db).1.
Proof.
  intros Huniq Hlen Hp Ha Hid Hin. unfold databases_query. cbn [fst].
  rewrite drop_0.
  rewrite take_ge by (pose proof (matching_length db chunk Huniq); lia).
  apply elem_of_matching. split; [exact Hp|]. split; [exact Ha|].
  apply id_in_spec. eauto.
Qed.

(** With one live row per id, the lookup finds the row of every id it is
    asked for. *)
Lemma getPages_complete (db : Db) ids id pid p :
  unique_ids db →
  db !! pid = Some p → archived p = false → RaindropID p = Some id →
  id ∈ ids →
  Js.get id (getPagesByRaindropIds db ids) = Some (found_of pid p).
Proof.
  intros Huniq Hp Ha Hid Hin. unfold getPagesByRaindropIds.
  assert (Honly : ∀ chunk kp,
            kp ∈ (databases_query (id_in chunk) 100 0 db).1 →
            RaindropID kp.2 = Some id → kp = (pid, p)).
  { intros chunk [k q] H E. apply elem_of_query in H as (Hk & Hq & _).
    simpl in E. assert (k = pid) as -> by (eapply Huniq; eassumption).
    congruence. }
  assert (G : ∀ cs out,
    (∀ c, c ∈ cs → (length c ≤ 100)%nat) →
    (∃ c, c ∈ cs ∧ id ∈ c) ∨ Js.get id out = Some (found_of pid p) →
    Js.get id (fold_left
      (fun out chunk =>
         fold_left record_found (databases_query (id_in chunk) 100 0 db).1 out)
      cs out) = Some (found_of pid p)).
  { induction cs as [|c cs IH]; intros out Hlen H; simpl.
    - destruct H as [(c & Hc & _)|H]; [apply elem_of_nil in Hc; contradiction|].
      exact H.
    - apply IH; [intros c' Hc'; apply Hlen; right; exact Hc'|].
      destruct H as [(c' & Hc' & Hidc)|H].
      + apply elem_of_cons in Hc' as [->|Hc']; [|left; eauto].
        right. apply fold_record_found_get; [exact Hid | apply Honly|].
        left. apply (query_complete db _ id); try assumption. apply Hlen. left.
      + right. apply fold_record_found_get; [exact Hid | apply Honly | auto]. }
  apply G.
  - intros c Hc. apply chunks_from_length in Hc. unfold NOTION_QUERY_CHUNK in Hc. lia.
  - left. apply chunks_from_cover; [unfold NOTION_QUERY_CHUNK; lia | lia | exact Hin].
Qed.

End NotionFacts.

(** ** The candidate loop of the sync *)

Module SyncFacts.
Import Raindrop Notion Spec.

#[local] Arguments Sync.write : simpl never.
#[local] Arguments Sync.record : simpl never.
#[local] Arguments Sync.resolveTitle : simpl never.

Section WithDate.
Context {date : JsDate}.

Lemma upsert_loop_throw_or_tally env api coll dry existing dt clock i cands db t :
  match (Sync.upsert_loop env api coll dry existing dt clock i cands db t).2 with
  | Ok t' => t' = tally_of dry existing cands t
  | Throw _ => True
  end.
Proof.
  revert i db t. induction cands as [|item rest IH]; intros i db t; simpl.
  - reflexivity.
  - destruct (Sync.resolveTitle env api coll dt item); simpl; [|exact I].
    apply IH.
Qed.

Lemma upsert_loop_tally env api coll dry existing dt clock i cands db t db' t' :
  Sync.upsert_loop env api coll dry existing dt clock i cands db t = (db', Ok t') →
  t' = tally_of dry existing cands t.
Proof.
  intros H.
  pose proof (upsert_loop_throw_or_tally env api coll dry existing dt clock i cands db t) as G.
  rewrite H in G. exact G.
Qed.

Lemma upsert_loop_dry env api coll existing dt clock i cands db t :
  (Sync.upsert_loop env api coll true existing dt clock i cands db t).1 = db.
Proof.
  revert i t. induction cands as [|item rest IH]; intros i t; simpl.
  - reflexivity.
  - destruct (Sync.resolveTitle env api coll dt item); simpl; [|reflexivity].
    apply IH.
Qed.


Lemma ids_where_cons P existing item rest :
  ids_where P existing (item :: rest) =
  (if P (Sync.decide existing item) then [_id item] else [])
  ++ ids_where P existing rest.
Proof.
  unfold ids_where. simpl. destruct (P (Sync.decide existing item)); reflexivity.
Qed.

(** What a real run records. *)
Lemma tally_of_real existing cands t :
  tally_of false existing cands t =
  {| Sync.created_count :=
       Sync.created_count t + Z.of_nat (length (ids_where is_create existing cands));
     Sync.updated_count :=
       Sync.updated_count t + Z.of_nat (length (ids_where is_update existing cands));
     Sync.createdIds := Sync.createdIds t ++ ids_where is_create existing cands;
     Sync.updatedIds := Sync.updatedIds t ++ ids_where is_update existing cands;
     Sync.toCreatePreview := Sync.toCreatePreview t;
     Sync.toUpdatePreview := Sync.toUpdatePreview t;
     Sync.skippedLocked := Sync.skippedLocked t ++ ids_where is_locked existing cands;
     Sync.alreadyExists := Sync.alreadyExists t ++ ids_where is_existing existing cands |}.
Proof.
  revert t. induction cands as [|item rest IH]; intros t.
  - unfold ids_where. simpl. rewrite !app_nil_r, !Z.add_0_r. destruct t; reflexivity.
  - unfold tally_of in *. simpl. rewrite IH. rewrite !ids_where_cons.
    destruct (Sync.decide existing item); simpl;
      rewrite <- ?app_assoc; simpl; f_equal; lia.
Qed.

(** What a dry run records. *)
Lemma tally_of_dry existing cands t :
  tally_of true existing cands t =
  {| Sync.created_count := Sync.created_count t;
     Sync.updated_count := Sync.updated_count t;
     Sync.createdIds := Sync.createdIds t;
     Sync.updatedIds := Sync.updatedIds t;
     Sync.toCreatePreview := Sync.toCreatePreview t ++ ids_where is_create existing cands;
     Sync.toUpdatePreview := Sync.toUpdatePreview t ++ ids_where is_update existing cands;
     Sync.skippedLocked := Sync.skippedLocked t ++ ids_where is_locked existing cands;
     Sync.alreadyExists := Sync.alreadyExists t ++ ids_where is_existing existing cands |}.
Proof.
  revert t. induction cands as [|item rest IH]; intros t.
  - unfold ids_where. simpl. rewrite !app_nil_r. destruct t; reflexivity.
  - unfold tally_of in *. simpl. rewrite IH. rewrite !ids_where_cons.
    destruct (Sync.decide existing item); simpl;
      rewrite <- ?app_assoc; reflexivity.
Qed.

Lemma elem_of_ids_where P existing cands id :
  id ∈ ids_where P existing cands ↔
  ∃ item, item ∈ cands ∧ _id item = id ∧ P (Sync.decide existing item) = true.
Proof.
  unfold ids_where. rewrite list_elem_of_In, in_map_iff. split.
  - intros (item & E & H). apply filter_In in H as [H1 H2].
    exists item. rewrite list_elem_of_In. auto.
  - intros (item & H1 & E & H2). exists item. split; [exact E|].
    apply filter_In. rewrite <- list_elem_of_In. auto.
Qed.

Lemma decide_Update_inv existing item pid :
  Sync.decide existing item = Sync.Update pid →
  ∃ found, Js.get (_id item) existing = Some found
           ∧ found_locked found = false ∧ found_pageId found = pid
           ∧ Sync.newerThan (Some (itemLast item)) (raindropLastUpdate found) = true.
Proof.
  unfold Sync.decide, itemLast.
  destruct (Js.get (_id item) existing) as [found|]; [|discriminate].
  destruct (found_locked found) eqn:El; [discriminate|].
  destruct (Sync.newerThan _ _) eqn:En; [|discriminate].
  intros [= <-]. exists found. auto.
Qed.

Lemma decide_Create_inv existing item :
  Sync.decide existing item = Sync.Create ↔ Js.get (_id item) existing = None.
Proof.
  unfold Sync.decide.
  destruct (Js.get (_id item) existing) as [found|]; [|tauto].
  destruct (found_locked found); [split; discriminate|].
  destruct (Sync.newerThan _ _); split; discriminate.
Qed.

(** A write leaves every page alone but the one an update names; a created
    page gets an id of its own. *)
Lemma write_other d item title nowIso (db : Db) pid :
  is_Some (db !! pid) → d ≠ Sync.Update pid →
  Sync.write false d item title nowIso db !! pid = db !! pid.
Proof.
  intros Hin Hd. unfold Sync.write. destruct d as [| |pid'|]; try reflexivity.
  - unfold createFromRaindrop, pages_create. apply lookup_insert_ne.
    intros E. apply (is_fresh (dom db)). rewrite E. apply elem_of_dom. exact Hin.
  - unfold updateFromRaindrop, pages_update. apply lookup_alter_ne. congruence.
Qed.

Lemma write_update item title nowIso (db : Db) pid :
  Sync.write false (Sync.Update pid) item title nowIso db !! pid
  = patch_fromRaindrop item title nowIso <$> db !! pid.
Proof. simpl. unfold updateFromRaindrop, pages_update. apply lookup_alter_eq. Qed.

Lemma write_is_Some dry d item title nowIso (db : Db) pid :
  is_Some (db !! pid) → is_Some (Sync.write dry d item title nowIso db !! pid).
Proof.
  intros Hin. destruct dry; [exact Hin|].
  destruct (decide (d = Sync.Update pid)) as [->|Hd].
  - rewrite write_update. destruct Hin as [p ->]. simpl. eauto.
  - rewrite write_other; assumption.
Qed.

(** A page that no candidate is to update comes out of the loop as it went
    in, whether the loop finishes or not. *)
Lemma upsert_loop_untouched env api coll dry existing dt clock i cands
    (db : Db) t pid :
  is_Some (db !! pid) →
  (∀ item, item ∈ cands → Sync.decide existing item ≠ Sync.Update pid) →
  (Sync.upsert_loop env api coll dry existing dt clock i cands db t).1 !! pid
  = db !! pid.
Proof.
  destruct dry; [intros; rewrite upsert_loop_dry; reflexivity|].
  revert i db t. induction cands as [|item rest IH]; intros i db t Hin Hno; simpl.
  - reflexivity.
  - destruct (Sync.resolveTitle env api coll dt item) as [title|]; simpl;
      [|reflexivity].
    assert (Hd : Sync.decide existing item ≠ Sync.Update pid)
      by (apply Hno; left).
    rewrite IH.
    + apply write_other; assumption.
    + apply write_is_Some. exact Hin.
    + intros item' H. apply Hno. right. exact H.
Qed.

(** The page of the one candidate that is to update it comes out patched
    from that candidate. *)
Lemma upsert_loop_updated env api coll existing dt clock i cands
    (db db' : Db) t t' pid p item :
  Sync.upsert_loop env api coll false existing dt clock i cands db t = (db', Ok t') →
  db !! pid = Some p →
  NoDup (List.map _id cands) → item ∈ cands →
  Sync.decide existing item = Sync.Update pid →
  (∀ item', item' ∈ cands → Sync.decide existing item' = Sync.Update pid →
            _id item' = _id item) →
  ∃ title nowIso, db' !! pid = Some (patch_fromRaindrop item title nowIso p).
Proof.
  revert i db t p. induction cands as [|head rest IH];
    intros i db t p Hrun Hp Hnd Hin Hd Hsame.
  - apply elem_of_nil in Hin. contradiction.
  - simpl in Hrun, Hnd. apply NoDup_cons in Hnd as [Hhead Hnd].
    destruct (Sync.resolveTitle env api coll dt head) as [title|] eqn:Et.
    2:{ simpl in Hrun. discriminate. }
    destruct (decide (Sync.decide existing head = Sync.Update pid)) as [Hh|Hh].
    + assert (item = head) as ->.
      { apply elem_of_cons in Hin as [->|Hin]; [reflexivity|].
        exfalso. apply Hhead. rewrite (Hsame head); [|left|exact Hh].
        apply list_elem_of_In, in_map, list_elem_of_In. exact Hin. }
      exists title, (toISOString (clock i)).
      pose proof (upsert_loop_untouched env api coll false existing dt clock (S i)
        rest (Sync.write false (Sync.decide existing head) head title
                (toISOString (clock i)) db)
        (Sync.record false (Sync.decide existing head) (_id head) t) pid) as U.
      rewrite Hrun in U. simpl in U. rewrite U.
      * rewrite Hh, write_update, Hp. reflexivity.
      * apply write_is_Some. eauto.
      * intros item' Hin' Hd'. apply Hhead. rewrite <- (Hsame item').
        -- apply list_elem_of_In, in_map, list_elem_of_In. exact Hin'.
        -- right. exact Hin'.
        -- exact Hd'.
    + apply elem_of_cons in Hin as [->|Hin]; [contradiction|].
      eapply IH; try eassumption.
      * rewrite write_other; [exact Hp | eauto | exact Hh].
      * intros item' Hin'. apply Hsame. right. exact Hin'.
Qed.

Lemma plan_existing_eq env api query now (db : Db) pl :
  Sync.plan env api query now db = Ok pl →
  Sync.plan_existing pl
  = getPagesByRaindropIds db (List.map _id (Sync.plan_candidates pl)).
Proof.
  unfold Sync.plan.
  destruct (env "RAINDROP_COLLECTION_ID") as [coll|]; [|discriminate].
  destruct (negb (Js.truthy coll)); [discriminate|].
  destruct (Sync.isoDateOnly _) as [day|]; simpl; [|discriminate].
  destruct (Sync.passA _ _ _ _ _) as [a|]; simpl; [|discriminate].
  destruct (Sync.passB _ _ _ _) as [b|]; simpl; [|discriminate].
  intros [= <-]. reflexivity.
Qed.

Lemma plan_knobs_eq env api query now (db : Db) pl :
  Sync.plan env api query now db = Ok pl →
  Sync.plan_knobs pl = Sync.knobs env query now.
Proof.
  unfold Sync.plan.
  destruct (env "RAINDROP_COLLECTION_ID") as [coll|]; [|discriminate].
  destruct (negb (Js.truthy coll)); [discriminate|].
  destruct (Sync.isoDateOnly _) as [day|]; simpl; [|discriminate].
  destruct (Sync.passA _ _ _ _ _) as [a|]; simpl; [|discriminate].
  destruct (Sync.passB _ _ _ _) as [b|]; simpl; [|discriminate].
  intros [= <-]. reflexivity.
Qed.

(** The database a run leaves is the one its candidate loop leaves. *)
Lemma run_db env api query now clock (db : Db) :
  (Sync.run env api query now clock db).1
  = match Sync.plan env api query now db with
    | Ok pl =>
        (Sync.upsert_loop env api (default "" (env "RAINDROP_COLLECTION_ID"))
           (Sync.dryRun (Sync.plan_knobs pl)) (Sync.plan_existing pl)
           (Sync.plan_defaultTitle pl) clock 0 (Sync.plan_candidates pl) db
           Sync.tally_start).1
    | Throw _ => db
    end.
Proof.
  unfold Sync.run. destruct (Sync.plan env api query now db) as [pl|]; [|reflexivity].
  destruct (Sync.upsert_loop _ _ _ _ _ _ _ _ _ _ _). reflexivity.
Qed.

End WithDate.
End SyncFacts.

(** ** The upsert decision *)

Section UpsertDecision.
Import Raindrop Notion Spec SyncFacts.
Context {date : JsDate}.

Lemma newerThan_missing a :
  Js.truthy a = true → ∀ b, Js.truthy_opt b = false →
  Sync.newerThan (Some a) b = true.
Proof.
  intros Ha b Hb. unfold Sync.newerThan. rewrite Ha. simpl.
  destruct b as [b|]; [|reflexivity]. simpl in Hb. rewrite Hb. reflexivity.
Qed.

Lemma newerThan_times a b ta tb :
  Js.truthy a = true → Js.truthy b = true →
  getTime a = Some ta → getTime b = Some tb →
  Sync.newerThan (Some a) (Some b) = (tb <? ta).
Proof.
  intros Ha Hb Hta Htb. unfold Sync.newerThan.
  rewrite Ha, Hb, Hta, Htb. reflexivity.
Qed.

(** However the two strings parse, a timestamp is not newer than itself. *)
Lemma newerThan_self a : Sync.newerThan (Some a) (dateOrNull (Some a)) = false.
Proof.
  unfold Sync.newerThan, dateOrNull.
  destruct (Js.truthy a) eqn:Ha; simpl; [|reflexivity].
  rewrite Ha. simpl. destruct (getTime a); [apply Z.ltb_irrefl | reflexivity].
Qed.

(** C10 (as amended).  In the upsert decision the item-side key is
    [item.lastUpdate || item.created]; whenever that key is a non-empty
    string, a row that exists, is unlocked and stores no last-modified
    timestamp is classified as an update and reported as one. *)
Theorem missing_stored_timestamp_is_update
    env api coll dry existing dt clock cands (db db' : Db) t' item found :
  Sync.upsert_loop env api coll dry existing dt clock 0 cands db Sync.tally_start
    = (db', Ok t') →
  item ∈ cands →
  Js.get (_id item) existing = Some found →
  found_locked found = false →
  Js.truthy_opt (raindropLastUpdate found) = false →
  Js.truthy (itemLast item) = true →
  Sync.decide existing item = Sync.Update (found_pageId found)
  ∧ _id item ∈ (if dry then Sync.toUpdatePreview t' else Sync.updatedIds t').
Proof.
  intros Hrun Hin Hget Hlock Hstored Hkey.
  assert (Hd : Sync.decide existing item = Sync.Update (found_pageId found)).
  { unfold Sync.decide. rewrite Hget, Hlock.
    fold (itemLast item). rewrite newerThan_missing by assumption. reflexivity. }
  split; [exact Hd|].
  apply upsert_loop_tally in Hrun. subst t'.
  assert (Hw : _id item ∈ ids_where is_update existing cands).
  { apply elem_of_ids_where. exists item. rewrite Hd. auto. }
  destruct dry.
  - rewrite tally_of_dry. simpl. exact Hw.
  - rewrite tally_of_real. simpl. exact Hw.
Qed.

Lemma NoDup_map_inj {A B : Type} (f : A → B) (l : list A) x y :
  NoDup (List.map f l) → x ∈ l → y ∈ l → f x = f y → x = y.
Proof.
  induction l as [|a l IH]; simpl; intros Hnd Hx Hy E.
  - apply elem_of_nil in Hx. contradiction.
  - apply NoDup_cons in Hnd as [Ha Hnd].
    assert (G : ∀ z, z ∈ l → f z ∈ List.map f l).
    { intros z Hz. apply list_elem_of_In, in_map, list_elem_of_In. exact Hz. }
    apply elem_of_cons in Hx as [->|Hx]; apply elem_of_cons in Hy as [->|Hy].
    + reflexivity.
    + exfalso. apply Ha. rewrite E. apply G. exact Hy.
    + exfalso. apply Ha. rewrite <- E. apply G. exact Hx.
    + apply IH; assumption.
Qed.

(** C4.  For a candidate whose row exists, is unlocked and stores the
    timestamp [T0], and whose own last-modified (or creation) timestamp is
    [T1]: the run classifies it as an update, and in a real run updates the
    row, if and only if [T0 < T1]; with [T1 ≤ T0] the candidate is reported as
    already existing and its row is not written; an update stores the item's
    timestamp, so the stored timestamp only moves forward. *)
Theorem update_iff_strictly_newer
    env api coll dry dt clock ids cands (db db' : Db) t' item found s T0 T1 :
  Sync.upsert_loop env api coll dry (getPagesByRaindropIds db ids) dt clock 0
    cands db Sync.tally_start = (db', Ok t') →
  NoDup (List.map _id cands) →
  item ∈ cands →
  Js.get (_id item) (getPagesByRaindropIds db ids) = Some found →
  found_locked found = false →
  raindropLastUpdate found = Some s →
  Js.truthy s = true → getTime s = Some T0 →
  Js.truthy (itemLast item) = true → getTime (itemLast item) = Some T1 →
  (_id item ∈ (if dry then Sync.toUpdatePreview t' else Sync.updatedIds t')
   ↔ T0 < T1)
  ∧ (T1 ≤ T0 →
     _id item ∈ Sync.alreadyExists t'
     ∧ db' !! found_pageId found = db !! found_pageId found)
  ∧ (T0 < T1 → dry = false →
     ∃ p', db' !! found_pageId found = Some p'
           ∧ RaindropLastUpdate p' = Some (itemLast item)
           ∧ ∃ T, RaindropLastUpdate p' ≫= getTime = Some T ∧ T0 < T).
Proof.
  intros Hrun Hnd Hin Hget Hlock Hs Hts HT0 Hti HT1.
  set (existing := getPagesByRaindropIds db ids) in *.
  assert (Hnew : Sync.newerThan (Some (itemLast item)) (raindropLastUpdate found)
                 = (T0 <? T1)).
  { rewrite Hs. apply newerThan_times; assumption. }
  assert (Hd : Sync.decide existing item
               = if T0 <? T1 then Sync.Update (found_pageId found) else Sync.UpToDate).
  { unfold Sync.decide. rewrite Hget, Hlock. fold (itemLast item).
    rewrite Hnew. reflexivity. }
  pose proof (NotionFacts.getPages_backs _ _ _ _ Hget) as (p & Hp & _ & Hid & _).
  assert (Hothers : ∀ item', item' ∈ cands →
            Sync.decide existing item' = Sync.Update (found_pageId found) →
            item' = item).
  { intros item' Hin' Hd'.
    apply decide_Update_inv in Hd' as (f' & Hget' & _ & Hpid' & _).
    apply NotionFacts.getPages_backs in Hget' as (p' & Hp' & _ & Hid' & _).
    rewrite Hpid' in Hp'. rewrite Hp in Hp'. injection Hp' as <-.
    apply (NoDup_map_inj _id cands); try assumption. congruence. }
  pose proof (upsert_loop_tally _ _ _ _ _ _ _ _ _ _ _ _ _ Hrun) as Ht.
  assert (Hupd : _id item ∈ ids_where is_update existing cands ↔ T0 < T1).
  { rewrite elem_of_ids_where. split.
    + intros (item' & Hin' & E & Hu).
      assert (item' = item) as ->
        by (apply (NoDup_map_inj _id cands); assumption).
      rewrite Hd in Hu. destruct (T0 <? T1) eqn:Elt; [|discriminate].
      apply Z.ltb_lt. exact Elt.
    + intros Hlt. exists item. rewrite Hd.
      apply Z.ltb_lt in Hlt. rewrite Hlt. auto. }
  assert (Hskip : T1 ≤ T0 → _id item ∈ ids_where is_existing existing cands).
  { intros Hle. apply Z.ltb_ge in Hle. rewrite Hle in Hd.
    apply elem_of_ids_where. exists item. rewrite Hd. auto. }
  split; [|split].
  - subst t'. destruct dry; [rewrite tally_of_dry | rewrite tally_of_real];
      simpl; exact Hupd.
  - intros Hle. split.
    + subst t'. destruct dry; [rewrite tally_of_dry | rewrite tally_of_real];
        simpl; apply Hskip; exact Hle.
    + apply Z.ltb_ge in Hle. rewrite Hle in Hd.
      pose proof (upsert_loop_untouched env api coll dry existing dt clock 0
        cands db Sync.tally_start (found_pageId found)) as U.
      rewrite Hrun in U. apply U; [eauto|].
      intros item' Hin' Hd'. rewrite (Hothers item' Hin' Hd') in Hd'. congruence.
  - intros Hlt ->. apply Z.ltb_lt in Hlt. rewrite Hlt in Hd.
    destruct (upsert_loop_updated _ _ _ _ _ _ _ _ _ _ _ _ _ p item
                Hrun Hp Hnd Hin Hd) as (title & nowIso & Hdb').
    { intros item' Hin' Hd'. rewrite (Hothers item' Hin' Hd'). reflexivity. }
    eexists. split; [exact Hdb'|]. simpl. fold (itemLast item). rewrite Hti.
    split; [reflexivity|]. exists T1. simpl. split; [exact HT1|].
    apply Z.ltb_lt. exact Hlt.
Qed.

End UpsertDecision.

(** C10, the instance.  Item 7, created at noon and never edited, against a
    row for 7 that is unlocked and stores no timestamp. *)
Lemma missing_stored_timestamp_is_update_witness :
  let item := Scenario.bookmark 7 Scenario.noon in
  let db := Scenario.db_of [Scenario.row 7 None false false None] in
  let existing := Notion.getPagesByRaindropIds db [7] in
  let found := {| Notion.found_pageId := 0%N; Notion.raindropLastUpdate := None;
                  Notion.found_locked := false |} in
  let loop := Sync.upsert_loop (date := IsoDate.instance) Scenario.default_env
                (Scenario.service [item] (fun _ _ => false)
                   Scenario.no_titles Scenario.no_details)
                "4242" false existing None Scenario.at_noon 0 [item] db
                Sync.tally_start in
  (∃ t', loop = (loop.1, Ok t') ∧ 7 ∈ Sync.updatedIds t')
  ∧ Js.get 7 existing = Some found
  ∧ Js.truthy (Spec.itemLast item) = true
  ∧ Sync.decide (date := IsoDate.instance) existing item = Sync.Update 0%N.
Proof.
  intros item db existing found loop.
  assert (E : loop = (loop.1, Ok (Spec.tally_of (date := IsoDate.instance)
                                   false existing [item] Sync.tally_start)))
    by reflexivity.
  destruct (missing_stored_timestamp_is_update (date := IsoDate.instance)
    _ _ _ _ _ _ _ _ _ _ _ item found E (list_elem_of_here _ _)
    eq_refl eq_refl eq_refl eq_refl) as [W1 W2].
  split; [|split; [reflexivity | split; [reflexivity | exact W1]]].
  eexists. split; [exact E | exact W2].
Defined.

(** C10, the counterexample.  An item whose [lastUpdate] and [created] are
    both empty has an empty key: against an unlocked row without a stored
    timestamp it is reported as already existing, not as an update. *)
Lemma empty_item_key_is_not_an_update :
  let item := Scenario.undated 1 in
  let db := Scenario.db_of [Scenario.row 1 None false false None] in
  let existing := Notion.getPagesByRaindropIds db [1] in
  let api := Scenario.service [item] (fun _ _ => false)
               Scenario.no_titles Scenario.no_details in
  Js.get 1 existing
    = Some {| Notion.found_pageId := 0%N; Notion.raindropLastUpdate := None;
              Notion.found_locked := false |}
  ∧ Sync.decide (date := IsoDate.instance) existing item = Sync.UpToDate
  ∧ match (Sync.run (date := IsoDate.instance) Scenario.default_env api
             Scenario.no_query Scenario.noon Scenario.at_noon db).2 with
    | Ok rep => Sync.r_updatedIds rep = Some [] ∧ Sync.r_alreadyExists rep = [1]
    | Throw _ => False
    end.
Proof. vm_compute. repeat split; reflexivity. Qed.

(** C4, the instance.  The row of item 7 stores 11:34; the item was last
    modified at 12:34, so it is updated and the row then stores 12:34. *)
Lemma update_iff_strictly_newer_witness :
  let item := Scenario.bookmark 7 Scenario.noon in
  let stored := IsoDate.print (Scenario.noon - Scenario.hour) in
  let db := Scenario.db_of [Scenario.row 7 (Some stored) false false None] in
  let found := {| Notion.found_pageId := 0%N;
                  Notion.raindropLastUpdate := Some stored;
                  Notion.found_locked := false |} in
  let loop := Sync.upsert_loop (date := IsoDate.instance) Scenario.default_env
                (Scenario.service [item] (fun _ _ => false)
                   Scenario.no_titles Scenario.no_details)
                "4242" false (Notion.getPagesByRaindropIds db [7]) None
                Scenario.at_noon 0 [item] db Sync.tally_start in
  Js.get 7 (Notion.getPagesByRaindropIds db [7]) = Some found
  ∧ IsoDate.parse stored = Some (Scenario.noon - Scenario.hour)
  ∧ IsoDate.parse (Spec.itemLast item) = Some Scenario.noon
  ∧ ∃ t', loop = (loop.1, Ok t')
          ∧ (7 ∈ Sync.updatedIds t' ↔ Scenario.noon - Scenario.hour < Scenario.noon).
Proof.
  intros item stored db found loop.
  assert (E : loop = (loop.1, Ok (Spec.tally_of (date := IsoDate.instance) false
                 (Notion.getPagesByRaindropIds db [7]) [item] Sync.tally_start)))
    by (vm_compute; reflexivity).
  assert (Hnd : NoDup (List.map Raindrop._id [item]))
    by (apply NoDup_singleton).
  destruct (update_iff_strictly_newer (date := IsoDate.instance)
    _ _ _ false _ _ [7] [item] db _ _ item found stored
    (Scenario.noon - Scenario.hour) Scenario.noon
    E Hnd (list_elem_of_here _ _) eq_refl eq_refl eq_refl eq_refl
    ltac:(vm_compute; reflexivity) eq_refl ltac:(vm_compute; reflexivity))
    as (W & _ & _).
  split; [reflexivity|].
  split; [vm_compute; reflexivity|].
  split; [vm_compute; reflexivity|].
  eexists. split; [exact E | exact W].
Defined.

(** ** The item cap *)

(** C2, at the failing input.  No [limit] parameter, every knob at its
    default, sixty new bookmarks in the window and an empty database:
    [limitQP] is 50 all the same, pass A leaves through the debug-limit rule
    after one page, and of the sixty candidates of the union fifty are
    processed. *)
Theorem absent_limit_caps_the_run :
  Sync.getQP Scenario.no_query "limit" = None
  ∧ Sync.limitQP (Sync.knobs (date := IsoDate.instance) Scenario.default_env
                    Scenario.no_query Scenario.noon) = 50
  ∧ match (Sync.run (date := IsoDate.instance) Scenario.default_env
             Scenario.sixty Scenario.no_query Scenario.noon Scenario.at_noon ∅).2 with
    | Ok rep =>
        Sync.r_passA_stopReason rep = "debug-limit"
        ∧ Sync.r_passA_pagesFetched rep = 1
        ∧ Sync.r_passA_candidates rep = 50%nat
        ∧ Sync.r_passB_candidates rep = 60%nat
        ∧ Sync.r_unionCandidates rep = 50%nat
        ∧ Sync.r_created rep = 50
    | Throw _ => False
    end.
Proof. vm_compute. repeat split; reflexivity. Qed.

(** ** The row loop of the reconciliation *)

Module ReconcileFacts.
Import Raindrop Notion Spec.

Lemma listAll_from_spec fuel cursor (db : Db) :
  (length (drop cursor (matching (fun _ => true) db)) ≤ fuel * 100)%nat →
  listAll_from fuel cursor db
  = omap row_of (drop cursor (matching (fun _ => true) db)).
Proof.
  revert cursor. induction fuel as [|fuel IH]; intros cursor Hlen.
  - destruct (drop cursor _); [reflexivity | simpl in Hlen; lia].
  - simpl. unfold databases_query.
    set (rest := drop cursor (matching (fun _ => true) db)) in *.
    destruct (100 <? length rest)%nat eqn:E.
    + apply Nat.ltb_lt in E. rewrite IH.
      * rewrite <- omap_app. f_equal. subst rest.
        rewrite <- drop_drop. apply take_drop.
      * rewrite <- drop_drop. fold rest. rewrite length_drop. lia.
    + apply Nat.ltb_ge in E. rewrite app_nil_r, take_ge by exact E. reflexivity.
Qed.

(** [listAllNotionRows] returns one row for every live page that carries a
    Raindrop id. *)
Lemma listAllNotionRows_spec (db : Db) :
  listAllNotionRows db = omap row_of (matching (fun _ => true) db).
Proof.
  unfold listAllNotionRows. rewrite listAll_from_spec; [reflexivity|].
  rewrite drop_0. lia.
Qed.

Lemma elem_of_listAllNotionRows (db : Db) row :
  row ∈ listAllNotionRows db ↔
  ∃ p, db !! pageId row = Some p ∧ archived p = false
       ∧ row_of (pageId row, p) = Some row.
Proof.
  rewrite listAllNotionRows_spec, list_elem_of_omap. split.
  - intros ([k p] & Hin & Hrow).
    apply NotionFacts.elem_of_matching in Hin as (Hk & Ha & _).
    assert (pageId row = k) as ->.
    { unfold row_of in Hrow. simpl in Hrow.
      destruct (RaindropID p); simpl in Hrow; [|discriminate].
      injection Hrow as <-. reflexivity. }
    eauto.
  - intros (p & Hk & Ha & Hrow). exists (pageId row, p). split; [|exact Hrow].
    apply NotionFacts.elem_of_matching. auto.
Qed.

Section WithDate.
Context {date : JsDate}.

(** A row's iteration writes to the row's own page only. *)
Lemma reconcile_row_other env api k ids now row (db : Db) l pid :
  pid ≠ pageId row →
  (Reconcile.reconcile_row env api k ids now row db l).1 !! pid = db !! pid.
Proof.
  intros Hne. unfold Reconcile.reconcile_row,
    clearDeleteFlags, updateCollectionOnly, markDeleteDetected, archivePage,
    pages_update.
  repeat case_match; simpl; rewrite ?lookup_alter_ne by congruence; reflexivity.
Qed.

(** What it writes there depends on nothing but the page. *)
Lemma reconcile_row_local env api k ids now row (db1 db2 : Db) l1 l2 :
  db1 !! pageId row = db2 !! pageId row →
  (Reconcile.reconcile_row env api k ids now row db1 l1).1 !! pageId row
  = (Reconcile.reconcile_row env api k ids now row db2 l2).1 !! pageId row.
Proof.
  intros E. unfold Reconcile.reconcile_row,
    clearDeleteFlags, updateCollectionOnly, markDeleteDetected, archivePage,
    pages_update.
  repeat case_match; simpl; rewrite ?lookup_alter_eq, ?E; reflexivity.
Qed.

(** A property of one page that every iteration preserves holds when the
    loop ends, however it ends. *)
Lemma reconcile_loop_invariant env api k ids clock (Q : option Page → Prop) pid :
  ∀ rows i (db : Db) l,
    (∀ row now db0 l0, row ∈ rows → pageId row = pid → Q (db0 !! pid) →
       Q ((Reconcile.reconcile_row env api k ids now row db0 l0).1 !! pid)) →
    Q (db !! pid) →
    Q ((Reconcile.reconcile_loop env api k ids clock i rows db l).1 !! pid).
Proof.
  induction rows as [|row rest IH]; intros i db l Hstep HQ; simpl.
  - exact HQ.
  - assert (HQ' : Q ((Reconcile.reconcile_row env api k ids (clock i) row db l).1 !! pid)).
    { destruct (decide (pageId row = pid)) as [E|E].
      - apply Hstep; [left | exact E | exact HQ].
      - rewrite reconcile_row_other by congruence. exact HQ. }
    destruct (Reconcile.reconcile_row env api k ids (clock i) row db l)
      as [db' [l'|msg]]; simpl in *.
    + apply IH; [|exact HQ']. intros row' now db0 l0 Hin. apply Hstep. right. exact Hin.
    + exact HQ'.
Qed.

(** The loop finishes when no detail request it makes is rejected. *)
Lemma reconcile_loop_completes env api k ids clock rows :
  (∀ row, row ∈ rows → raindropId row ∈ ids
                        ∨ ∃ d, fetchRaindropDetail env api (raindropId row) = Ok d) →
  ∀ i (db : Db) l,
    ∃ l', (Reconcile.reconcile_loop env api k ids clock i rows db l).2 = Ok l'.
Proof.
  induction rows as [|row rest IH]; intros Hans i db l; simpl.
  - eauto.
  - assert (∃ l1, (Reconcile.reconcile_row env api k ids (clock i) row db l).2
                  = Ok l1) as [l1 E].
    { unfold Reconcile.reconcile_row.
      destruct (Hans row) as [Hin|[d Hd]]; [left| |].
      - rewrite bool_decide_eq_true_2 by exact Hin.
        destruct (deletedFlag row); simpl; eauto.
      - destruct (bool_decide (raindropId row ∈ ids)).
        + destruct (deletedFlag row); simpl; eauto.
        + rewrite Hd. repeat case_match; simpl; eauto. }
    destruct (Reconcile.reconcile_row env api k ids (clock i) row db l)
      as [db' [l'|msg]]; simpl in E; [|discriminate].
    apply IH. intros row' Hin. apply Hans. right. exact Hin.
Qed.

(** With page ids that differ from row to row, a finished loop leaves on a
    row's page what the row's own iteration wrote. *)
Lemma reconcile_loop_at env api k ids now rows row :
  NoDup (List.map pageId rows) → row ∈ rows →
  ∀ i (db db' : Db) l l',
    Reconcile.reconcile_loop env api k ids (fun _ => now) i rows db l = (db', Ok l') →
    db' !! pageId row
    = (Reconcile.reconcile_row env api k ids now row db l).1 !! pageId row.
Proof.
  induction rows as [|head rest IH]; intros Hnd Hin i db db' l l' Hrun.
  - apply elem_of_nil in Hin. contradiction.
  - simpl in Hnd, Hrun. apply NoDup_cons in Hnd as [Hhead Hnd].
    destruct (Reconcile.reconcile_row env api k ids now head db l)
      as [db1 [l1|msg]] eqn:Estep; [|discriminate].
    apply elem_of_cons in Hin as [->|Hin].
    + pose proof (reconcile_loop_invariant env api k ids (fun _ => now)
        (fun o => o = db1 !! pageId head) (pageId head) rest (S i) db1 l1) as Inv.
      rewrite Hrun in Inv. simpl in Inv. rewrite Estep. simpl.
      apply Inv; [|reflexivity].
      intros row' now' db0 l0 Hin' E _. exfalso. apply Hhead. rewrite <- E.
      apply list_elem_of_In, in_map, list_elem_of_In. exact Hin'.
    + rewrite (IH Hnd Hin _ _ _ _ _ Hrun).
      apply reconcile_row_local.
      replace db1 with (Reconcile.reconcile_row env api k ids now head db l).1
        by (rewrite Estep; reflexivity).
      apply reconcile_row_other. intros E. apply Hhead. rewrite <- E.
      apply list_elem_of_In, in_map, list_elem_of_In. exact Hin.
Qed.

Lemma NoDup_pageId_rows (db : Db) : NoDup (List.map pageId (listAllNotionRows db)).
Proof.
  rewrite listAllNotionRows_spec. unfold matching.
  pose proof (NoDup_fst_map_to_list db) as Hnd.
  induction (map_to_list db) as [|[k p] L IH]; simpl.
  - apply NoDup_nil_2.
  - rewrite fmap_cons in Hnd. apply NoDup_cons in Hnd as [Hk Hnd].
    specialize (IH Hnd).
    destruct (negb (archived p) && true); simpl; [|exact IH].
    unfold row_of at 1. simpl. destruct (RaindropID p); simpl; [|exact IH].
    apply NoDup_cons. split; [|exact IH].
    intros Hin. apply Hk.
    apply list_elem_of_In, in_map_iff in Hin as (row & E & Hin).
    apply list_elem_of_In, list_elem_of_omap in Hin as ([k' p'] & Hin & Hrow).
    apply list_elem_of_In, filter_In in Hin as [Hin _].
    unfold row_of in Hrow. simpl in Hrow.
    destruct (RaindropID p'); simpl in Hrow; [|discriminate].
    injection Hrow as <-. simpl in E. subst k'.
    apply list_elem_of_fmap. exists (k, p'). split; [reflexivity|].
    apply list_elem_of_In. exact Hin.
Qed.

(** A run whose requests are all answered returns its report, and the page
    of a live row then holds what the row's iteration wrote. *)
Lemma run_at env api query now (db : Db) ids pid p row :
  listed_ids env api query = Some ids →
  Js.truthy_opt (env "RAINDROP_COLLECTION_ID") = true →
  details_answered env api →
  db !! pid = Some p → archived p = false → row_of (pid, p) = Some row →
  (∃ rep, (Reconcile.run env api query (fun _ => now) db).2 = Ok rep)
  ∧ (Reconcile.run env api query (fun _ => now) db).1 !! pid
    = (Reconcile.reconcile_row env api (Reconcile.knobs env query) ids now row db
         Reconcile.lists_start).1 !! pid.
Proof.
  intros Hids Hcoll Hans Hp Ha Hrow.
  unfold listed_ids in Hids. unfold Reconcile.run.
  destruct (env "RAINDROP_COLLECTION_ID") as [coll|]; simpl in *; [|discriminate].
  rewrite Hcoll. simpl.
  destruct (Reconcile.enumerate env api coll _ _ _ _) as [[ids' n]|]; [|discriminate].
  injection Hids as ->.
  pose proof (reconcile_loop_completes env api (Reconcile.knobs env query) ids
    (fun _ => now) (listAllNotionRows db) (fun row _ => or_intror (Hans _))
    0%nat db Reconcile.lists_start) as [l' Hl'].
  destruct (Reconcile.reconcile_loop _ _ _ _ _ _ _ _ _) as [db' r] eqn:Eloop.
  simpl in Hl'. subst r. simpl. split; [eauto|].
  assert (pid = pageId row) as ->.
  { unfold row_of in Hrow. simpl in Hrow. destruct (RaindropID p); [|discriminate].
    injection Hrow as <-. reflexivity. }
  eapply reconcile_loop_at; [apply NoDup_pageId_rows | | exact Eloop].
  apply elem_of_listAllNotionRows. eauto.
Qed.

End WithDate.
End ReconcileFacts.

(** ** What one iteration of the reconciliation does *)

Module RowFacts.
Import Raindrop Notion Spec.

#[local] Arguments Reconcile.at_least : simpl never.

Section WithDate.
Context {date : JsDate}.

Lemma at_least_hours (ms grace : Z) :
  Reconcile.at_least (Reconcile.Hours (Qmake ms 3600000)) grace
  = (grace * 3600000 <=? ms).
Proof.
  unfold Reconcile.at_least, Qle_bool. simpl.
  rewrite Z.mul_1_r. reflexivity.
Qed.

(** The id is listed: the row is left alone unless it is flagged, in which
    case the flags are cleared. *)
Lemma row_listed env api k ids now row (db : Db) l :
  raindropId row ∈ ids →
  Reconcile.reconcile_row env api k ids now row db l
  = if deletedFlag row
    then ((if Reconcile.dryRun k then db
           else clearDeleteFlags (pageId row) (toISOString now) db),
          Ok (Reconcile.push_clearedFlags (raindropId row) l))
    else (db, Ok l).
Proof.
  intros Hin. unfold Reconcile.reconcile_row.
  rewrite bool_decide_eq_true_2 by exact Hin. reflexivity.
Qed.

(** Not listed and not reported present, not flagged yet (or flagged without
    a timestamp): first detection. *)
Lemma row_first_detection env api k ids now row (db : Db) l :
  raindropId row ∉ ids →
  reported_missing env api (raindropId row) →
  negb (deletedFlag row) || negb (Js.truthy_opt (deleteDetectedAt row)) = true →
  Reconcile.reconcile_row env api k ids now row db l
  = ((if Reconcile.dryRun k then db
      else markDeleteDetected (pageId row) (toISOString now) (toISOString now)
             (negb (locked row)) db),
     Ok (Reconcile.push_deleteDetected (raindropId row) l)).
Proof.
  intros Hin (d & Hd & Hmiss) Hflag. unfold Reconcile.reconcile_row.
  rewrite bool_decide_eq_false_2 by exact Hin.
  rewrite Hd, Hmiss, Hflag. reflexivity.
Qed.

(** Not listed and not reported present, flagged at [t0]: nothing happens
    before the grace period has passed; after it the row is archived if the
    mode is [archive] and the row is unlocked. *)
Lemma row_flagged env api k ids now row (db : Db) l s t0 :
  raindropId row ∉ ids →
  reported_missing env api (raindropId row) →
  deletedFlag row = true → deleteDetectedAt row = Some s →
  Js.truthy s = true → getTime s = Some t0 →
  Reconcile.reconcile_row env api k ids now row db l
  = if Reconcile.DELETE_GRACE_HOURS k * 3600000 <=? now - t0
    then if String.eqb (Reconcile.DELETE_MODE k) "archive" && negb (locked row)
         then ((if Reconcile.dryRun k then db else archivePage (pageId row) db),
               Ok (Reconcile.push_deleteArchivedNow (raindropId row) l))
         else (db, Ok (Reconcile.push_skippedLocked (raindropId row) l))
    else (db, Ok (Reconcile.push_deleteDetected (raindropId row) l)).
Proof.
  intros Hin (d & Hd & Hmiss) Hflag Hat Hs Ht. unfold Reconcile.reconcile_row.
  rewrite bool_decide_eq_false_2 by exact Hin.
  rewrite Hd, Hmiss, Hflag, Hat. unfold Reconcile.hoursSince. simpl.
  rewrite Hs, Ht. simpl. rewrite at_least_hours. reflexivity.
Qed.


Lemma row_of_Some pid p id :
  RaindropID p = Some id →
  row_of (pid, p)
  = Some {| pageId := pid; raindropId := id; locked := Lock p;
            deletedFlag := Deleted p; deleteDetectedAt := DeleteDetectedAt p |}.
Proof. intros H. unfold row_of. simpl. rewrite H. reflexivity. Qed.

End WithDate.
End RowFacts.

(** ** The delete grace state machine *)

Section DeleteGrace.
Import Raindrop Notion Spec ReconcileFacts RowFacts.
Context {date : JsDate}.

#[local] Arguments Reconcile.knobs : simpl never.

(** C5.  A live, unlocked, unflagged row whose item left the Source at [D],
    with a grace period of 24 hours and the mode [archive].  The run at
    [D + 1h] flags the row (flag and detection timestamp) and does not archive
    it; from there, a run before [D + 25h] with the item still gone leaves it
    unarchived and a run at [D + 25h] or later archives it; if instead the item
    is listed again at [D + 5h], that run clears the flag and the timestamp,
    and no later run that lists the item archives the row. *)
Theorem delete_grace_state_machine
    env gone back query D (db : Db) pid p id gone_ids back_ids :
  Js.truthy_opt (env "RAINDROP_COLLECTION_ID") = true →
  Reconcile.DELETE_MODE (Reconcile.knobs env query) = "archive" →
  Reconcile.DELETE_GRACE_HOURS (Reconcile.knobs env query) = 24 →
  Reconcile.dryRun (Reconcile.knobs env query) = false →
  db !! pid = Some p → archived p = false → RaindropID p = Some id →
  Lock p = false → Deleted p = false →
  getTime (toISOString (D + hours 1)) = Some (D + hours 1) →
  Js.truthy (toISOString (D + hours 1)) = true →
  listed_ids env gone query = Some gone_ids → id ∉ gone_ids →
  reported_missing env gone id → details_answered env gone →
  listed_ids env back query = Some back_ids → id ∈ back_ids →
  details_answered env back →
  let flagged := (Reconcile.run env gone query (fun _ => D + hours 1) db).1 in
  let cleared := (Reconcile.run env back query (fun _ => D + hours 5) flagged).1 in
  (∃ p1, flagged !! pid = Some p1 ∧ Deleted p1 = true
         ∧ DeleteDetectedAt p1 = Some (toISOString (D + hours 1))
         ∧ archived p1 = false)
  ∧ (∀ t, t < D + hours 25 →
       ∃ p2, (Reconcile.run env gone query (fun _ => t) flagged).1 !! pid = Some p2
             ∧ Deleted p2 = true ∧ archived p2 = false)
  ∧ (∀ t, D + hours 25 ≤ t →
       ∃ p2, (Reconcile.run env gone query (fun _ => t) flagged).1 !! pid = Some p2
             ∧ archived p2 = true)
  ∧ (∃ p2, cleared !! pid = Some p2 ∧ Deleted p2 = false
           ∧ DeleteDetectedAt p2 = None ∧ archived p2 = false)
  ∧ (∀ t, ∃ p3, (Reconcile.run env back query (fun _ => t) cleared).1 !! pid = Some p3
                ∧ Deleted p3 = false ∧ archived p3 = false).
Proof.
  intros Hcoll Hmode Hgrace Hreal Hp Ha Hid Hlock Hdel Hclock Hiso
    Hgone Hnotin Hmiss Hans Hback Hin Hans' flagged cleared.
  (* the run at D + 1h *)
  destruct (run_at env gone query (D + hours 1) db gone_ids pid p _
              Hgone Hcoll Hans Hp Ha (row_of_Some pid p id Hid)) as [_ E1].
  rewrite row_first_detection in E1; simpl; try assumption.
  2:{ rewrite Hdel. reflexivity. }
  rewrite Hreal in E1. simpl in E1. unfold markDeleteDetected, pages_update in E1.
  rewrite lookup_alter_eq, Hp in E1. simpl in E1. fold flagged in E1.
  rewrite Hlock in E1. simpl in E1.
  set (p1 := patch_deleteDetected _ _ _ p) in E1.
  assert (Hat1 : DeleteDetectedAt p1 = Some (toISOString (D + hours 1))).
  { subst p1. simpl. rewrite Hiso. reflexivity. }
  split; [|split; [|split; [|split]]].
  - exists p1. repeat split; [exact E1 | exact Hat1 | exact Ha].
  - intros t Ht.
    destruct (run_at env gone query t flagged gone_ids pid p1 _
                Hgone Hcoll Hans E1 Ha (row_of_Some pid p1 id Hid)) as [_ E2].
    rewrite row_flagged with (s := toISOString (D + hours 1)) (t0 := D + hours 1) in E2;
      simpl; try assumption; try reflexivity.
    rewrite Hgrace in E2.
    destruct (24 * 3600000 <=? t - (D + hours 1)) eqn:El.
    { apply Z.leb_le in El. unfold hours in *. lia. }
    simpl in E2. rewrite E1 in E2. exists p1. repeat split; [exact E2 | exact Ha].
  - intros t Ht.
    destruct (run_at env gone query t flagged gone_ids pid p1 _
                Hgone Hcoll Hans E1 Ha (row_of_Some pid p1 id Hid)) as [_ E2].
    rewrite row_flagged with (s := toISOString (D + hours 1)) (t0 := D + hours 1) in E2;
      simpl; try assumption; try reflexivity.
    rewrite Hgrace, Hmode, Hreal in E2.
    destruct (24 * 3600000 <=? t - (D + hours 1)) eqn:El.
    2:{ apply Z.leb_gt in El. unfold hours in *. lia. }
    simpl in E2. change (Lock p1) with (Lock p) in E2.
    rewrite Hlock in E2. simpl in E2. unfold archivePage, pages_update in E2.
    rewrite lookup_alter_eq, E1 in E2. simpl in E2.
    eexists. split; [exact E2 | reflexivity].
  - destruct (run_at env back query (D + hours 5) flagged back_ids pid p1 _
                Hback Hcoll Hans' E1 Ha (row_of_Some pid p1 id Hid)) as [_ E2].
    rewrite row_listed in E2 by exact Hin. rewrite Hreal in E2.
    simpl in E2. unfold clearDeleteFlags, pages_update in E2.
    rewrite lookup_alter_eq, E1 in E2. simpl in E2. fold cleared in E2.
    eexists. split; [exact E2|]. repeat split. exact Ha.
  - intros t.
    destruct (run_at env back query (D + hours 5) flagged back_ids pid p1 _
                Hback Hcoll Hans' E1 Ha (row_of_Some pid p1 id Hid)) as [_ E2].
    rewrite row_listed in E2 by exact Hin. rewrite Hreal in E2.
    simpl in E2. unfold clearDeleteFlags, pages_update in E2.
    rewrite lookup_alter_eq, E1 in E2. simpl in E2. fold cleared in E2.
    set (p2 := patch_clearDeleteFlags _ p1) in E2.
    destruct (run_at env back query t cleared back_ids pid p2 _
                Hback Hcoll Hans' E2 Ha (row_of_Some pid p2 id Hid)) as [_ E3].
    rewrite row_listed in E3 by exact Hin. simpl in E3. rewrite E2 in E3.
    exists p2. repeat split; [exact E3 | exact Ha].
Qed.

End DeleteGrace.

(** C5, the instance.  Row 0 mirrors bookmark 7, which leaves the collection
    at noon of 2025-09-15; the settings are the defaults (archive, 24 hours). *)
Lemma delete_grace_state_machine_witness :
  let D := Scenario.noon in
  let db := Scenario.db_of [Scenario.row 7 None false false None] in
  let run api t db :=
    (Reconcile.run (date := IsoDate.instance) Scenario.default_env api
       Scenario.no_query (fun _ => t) db).1 in
  let flagged := run Scenario.emptied (D + Spec.hours 1) db in
  let cleared := run Scenario.listing_seven (D + Spec.hours 5) flagged in
  IsoDate.parse (IsoDate.print (D + Spec.hours 1)) = Some (D + Spec.hours 1)
  ∧ Spec.listed_ids Scenario.default_env Scenario.emptied Scenario.no_query = Some ∅
  ∧ Spec.listed_ids Scenario.default_env Scenario.listing_seven Scenario.no_query
    = Some {[7]}
  ∧ (∃ p1, flagged !! 0%N = Some p1 ∧ Notion.Deleted p1 = true
           ∧ Notion.DeleteDetectedAt p1 = Some (IsoDate.print (D + Spec.hours 1))
           ∧ Notion.archived p1 = false)
  ∧ (∃ p2, run Scenario.emptied (D + Spec.hours 25) flagged !! 0%N = Some p2
           ∧ Notion.archived p2 = true)
  ∧ (∃ p2, cleared !! 0%N = Some p2 ∧ Notion.Deleted p2 = false
           ∧ Notion.DeleteDetectedAt p2 = None ∧ Notion.archived p2 = false).
Proof.
  intros D db run flagged cleared.
  assert (Hans : ∀ api, Raindrop.raindrop api = Scenario.no_details →
                        Spec.details_answered Scenario.default_env api).
  { intros api E id. unfold Raindrop.fetchRaindropDetail. rewrite E.
    eexists. reflexivity. }
  destruct (delete_grace_state_machine (date := IsoDate.instance)
    Scenario.default_env Scenario.emptied Scenario.listing_seven
    Scenario.no_query D db 0%N (Scenario.row 7 None false false None) 7 ∅ {[7]}
    eq_refl eq_refl eq_refl eq_refl eq_refl eq_refl eq_refl eq_refl eq_refl
    ltac:(vm_compute; reflexivity) eq_refl
    ltac:(vm_compute; reflexivity) ltac:(set_solver)
    ltac:(eexists; split; reflexivity) (Hans Scenario.emptied eq_refl)
    ltac:(vm_compute; reflexivity) ltac:(set_solver)
    (Hans Scenario.listing_seven eq_refl))
    as (W1 & _ & W3 & W4 & _).
  split; [vm_compute; reflexivity|].
  split; [vm_compute; reflexivity|].
  split; [vm_compute; reflexivity|].
  split; [exact W1|].
  split; [apply W3; lia | exact W4].
Defined.

(** ** The detail check *)

Section DetailCheck.
Import Raindrop Notion Spec ReconcileFacts RowFacts.
Context {date : JsDate}.

Lemma fetchRaindropDetail_as_not_found env api id :
  fetchRaindropDetail env (as_not_found api) id = fetchRaindropDetail env api id.
Proof.
  unfold fetchRaindropDetail, as_not_found. simpl.
  destruct (getRaindropToken env); simpl; [|reflexivity].
  destruct (raindrop api id) as [msg|status body]; [reflexivity|].
  destruct (ok status) eqn:Eok; simpl.
  - destruct body as [item|]; simpl; rewrite ?Eok; simpl.
    + reflexivity.
    + destruct (status =? 404); reflexivity.
  - rewrite ?Eok. destruct (status =? 404); reflexivity.
Qed.

Lemma enumerate_as_not_found env api coll k remaining page st :
  Reconcile.enumerate env (as_not_found api) coll k remaining page st
  = Reconcile.enumerate env api coll k remaining page st.
Proof.
  revert page st. induction remaining as [|n IH]; intros page st; simpl.
  - reflexivity.
  - unfold fetchRecentRaindrops. simpl.
    destruct (getRaindropToken env); simpl; [|reflexivity].
    destruct (raindrops api coll _ page None) as [msg|status body]; [reflexivity|].
    destruct (ok status); simpl; [|reflexivity].
    repeat case_match; try reflexivity. apply IH.
Qed.

Lemma reconcile_row_as_not_found env api k ids now row (db : Db) l :
  Reconcile.reconcile_row env (as_not_found api) k ids now row db l
  = Reconcile.reconcile_row env api k ids now row db l.
Proof.
  unfold Reconcile.reconcile_row.
  rewrite fetchRaindropDetail_as_not_found. reflexivity.
Qed.


Lemma reconcile_loop_as_not_found env api k ids clock rows :
  ∀ i (db : Db) l,
    Reconcile.reconcile_loop env (as_not_found api) k ids clock i rows db l
    = Reconcile.reconcile_loop env api k ids clock i rows db l.
Proof.
  induction rows as [|row rest IH]; intros i db l; simpl.
  - reflexivity.
  - rewrite reconcile_row_as_not_found.
    destruct (Reconcile.reconcile_row _ _ _ _ _ _ _ _) as [db' [l'|msg]];
      [apply IH | reflexivity].
Qed.

(** C7 (as amended).  A detail request that gets a response never makes the
    lookup fail, and a response that is not a success (any status other than
    2xx, or a body without an item) gives the same run, write for write and
    list for list, as a plain 404 in its place. *)
Theorem unsuccessful_detail_is_not_found env api query clock (db : Db) :
  Reconcile.run env api query clock db
  = Reconcile.run env (as_not_found api) query clock db
  ∧ ∀ id status body,
      raindrop api id = Response status body →
      ok status && bool_decide (is_Some body) = false →
      fetchRaindropDetail env api id
      = (_ ← getRaindropToken env; Ok missing).
Proof.
  split.
  - unfold Reconcile.run.
    destruct (env "RAINDROP_COLLECTION_ID") as [coll|]; [|reflexivity].
    destruct (negb (Js.truthy coll)); [reflexivity|].
    rewrite enumerate_as_not_found.
    destruct (Reconcile.enumerate _ _ _ _ _ _ _) as [[ids n]|]; [|reflexivity].
    rewrite reconcile_loop_as_not_found. reflexivity.
  - intros id status body Hresp Hbad. unfold fetchRaindropDetail.
    destruct (getRaindropToken env); simpl; [|reflexivity].
    rewrite Hresp. destruct (status =? 404); [reflexivity|].
    destruct (ok status); simpl in *; [|reflexivity].
    destruct body; [discriminate | reflexivity].
Qed.

End DetailCheck.

(** C7, the counterexample.  The detail request for the only row is rejected
    (the network is down): the invocation ends in its 500 response instead of
    treating the item as missing. *)
Lemma rejected_detail_aborts :
  let db := Scenario.db_of [Scenario.row 7 None false false None] in
  Raindrop.fetchRaindropDetail Scenario.default_env Scenario.unreachable 7
    = Throw "fetch failed"
  ∧ Reconcile.run (date := IsoDate.instance) Scenario.default_env
      Scenario.unreachable Scenario.no_query Scenario.at_noon db
    = (db, Throw "fetch failed")
  ∧ ∃ rep, (Reconcile.run (date := IsoDate.instance) Scenario.default_env
              Scenario.emptied Scenario.no_query Scenario.at_noon db).2 = Ok rep
           ∧ Reconcile.deleteDetected (Reconcile.r_results rep) = [7].
Proof.
  split; [reflexivity|]. split; [vm_compute; reflexivity|].
  eexists. split; [vm_compute; reflexivity | reflexivity].
Qed.

(** ** Moved or deleted *)

Section Moved.
Import Raindrop Notion Spec ReconcileFacts RowFacts.
Context {date : JsDate}.




End Moved.

(** ** Locked rows *)

Section Locked.
Import Raindrop Notion Spec SyncFacts ReconcileFacts RowFacts.
Context {date : JsDate}.

Lemma locked_row_reconcile_step env api k ids now row (db : Db) l p pid :
  pageId row = pid → locked row = true →
  (∃ p', db !! pid = Some p' ∧ kept_fields p' = kept_fields p
         ∧ Collection p' = Collection p) →
  ∃ p', (Reconcile.reconcile_row env api k ids now row db l).1 !! pid = Some p'
        ∧ kept_fields p' = kept_fields p ∧ Collection p' = Collection p.
Proof.
  intros <- Hlock (p' & Hp' & Hk & Hc).
  unfold Reconcile.reconcile_row. rewrite Hlock.
  unfold clearDeleteFlags, markDeleteDetected, pages_update. cbn [negb andb].
  rewrite andb_false_r.
  repeat case_match; cbn [fst];
    rewrite ?lookup_alter_eq, ?Hp'; cbn [fmap option_fmap option_map];
    eexists; (split; [reflexivity|]); split; assumption.
Qed.

(** C1 (as amended).  Whatever the Source holds and however the run ends,
    the incremental sync leaves a locked row exactly as it is, and the
    reconciliation leaves its content fields (the collection among them), its
    status, its timestamps of creation and last modification, its lock and its
    archived state as they are. *)
Theorem locked_row_keeps_content
    env api query query' now clock clock' (db : Db) pid p :
  db !! pid = Some p → Lock p = true →
  (Sync.run env api query now clock db).1 !! pid = Some p
  ∧ ∃ p', (Reconcile.run env api query' clock' db).1 !! pid = Some p'
          ∧ kept_fields p' = kept_fields p ∧ Collection p' = Collection p.
Proof.
  intros Hp Hlock. split.
  - rewrite run_db. destruct (Sync.plan env api query now db) as [pl|] eqn:Epl;
      [|exact Hp].
    rewrite upsert_loop_untouched; [exact Hp | eauto |].
    intros item _ Hd. apply decide_Update_inv in Hd as (f & Hget & Hl & Hpid & _).
    rewrite (plan_existing_eq _ _ _ _ _ _ Epl) in Hget.
    apply NotionFacts.getPages_backs in Hget as (p0 & Hp0 & _ & _ & Hl0 & _).
    rewrite Hpid, Hp in Hp0. injection Hp0 as <-. congruence.
  - unfold Reconcile.run.
    destruct (env "RAINDROP_COLLECTION_ID") as [coll|]; [|eauto].
    destruct (negb (Js.truthy coll)); [eauto|].
    destruct (Reconcile.enumerate _ _ _ _ _ _ _) as [[ids n]|]; [|eauto].
    pose proof (reconcile_loop_invariant env api (Reconcile.knobs env query') ids
      clock'
      (fun o => ∃ p', o = Some p' ∧ kept_fields p' = kept_fields p
                      ∧ Collection p' = Collection p)
      pid (listAllNotionRows db) 0%nat db Reconcile.lists_start) as Inv.
    destruct (Reconcile.reconcile_loop _ _ _ _ _ _ _ _ _) as [db' r].
    simpl in *. apply Inv; [|eauto].
    intros row t db0 l0 Hin Hpid HQ.
    apply locked_row_reconcile_step; [exact Hpid | | exact HQ].
    apply elem_of_listAllNotionRows in Hin as (p0 & Hp0 & _ & Hrow).
    rewrite Hpid, Hp in Hp0. injection Hp0 as <-.
    unfold row_of in Hrow. simpl in Hrow.
    destruct (RaindropID p); simpl in Hrow; [|discriminate].
    injection Hrow as <-. exact Hlock.
Qed.

End Locked.

(** C1, the counterexample.  Row 0 is locked and not flagged; its item is
    gone from the Source.  The run sets the deleted flag and the detection
    timestamp of the locked row and reports it under [deleteDetected], not
    under [skippedLocked]. *)
Lemma locked_row_is_flagged_deleted :
  let before := Scenario.row 7 None true false None in
  let db := Scenario.db_of [before] in
  let run := Reconcile.run (date := IsoDate.instance) Scenario.default_env
               Scenario.emptied Scenario.no_query Scenario.at_noon db in
  db !! 0%N = Some before
  ∧ Notion.Lock before = true
  ∧ Notion.Deleted before = false ∧ Notion.DeleteDetectedAt before = None
  ∧ ∃ p' rep, run.1 !! 0%N = Some p' ∧ run.2 = Ok rep
      ∧ Notion.Deleted p' = true
      ∧ Notion.DeleteDetectedAt p' = Some "2025-09-15T12:34:56.789Z"
      ∧ Reconcile.deleteDetected (Reconcile.r_results rep) = [7]
      ∧ Reconcile.skippedLocked (Reconcile.r_results rep) = [].
Proof.
  intros before db run.
  split; [vm_compute; reflexivity|]. repeat (split; [reflexivity|]).
  eexists. eexists. split; [vm_compute; reflexivity|].
  split; [vm_compute; reflexivity|]. repeat split.
Qed.

(** C1, the instance.  The same locked row through a sync that sees its item
    edited and through the reconciliation that finds the item gone. *)
Lemma locked_row_keeps_content_witness :
  let before := Scenario.row 7 None true false None in
  let db := Scenario.db_of [before] in
  let api := Scenario.service [Scenario.bookmark 7 Scenario.noon]
               (fun _ _ => true) Scenario.no_titles Scenario.no_details in
  db !! 0%N = Some before
  ∧ Notion.Lock before = true
  ∧ (Sync.run (date := IsoDate.instance) Scenario.default_env api
       Scenario.no_query Scenario.noon Scenario.at_noon db).1 !! 0%N = Some before
  ∧ ∃ p', (Reconcile.run (date := IsoDate.instance) Scenario.default_env
             Scenario.emptied Scenario.no_query Scenario.at_noon db).1 !! 0%N
          = Some p'
          ∧ Spec.kept_fields p' = Spec.kept_fields before
          ∧ Notion.Collection p' = Notion.Collection before.
Proof.
  intros before db api.
  assert (Hp : db !! 0%N = Some before) by (vm_compute; reflexivity).
  split; [exact Hp|]. split; [reflexivity|]. split.
  - exact (proj1 (locked_row_keeps_content (date := IsoDate.instance)
      Scenario.default_env api Scenario.no_query Scenario.no_query Scenario.noon
      Scenario.at_noon Scenario.at_noon db 0%N before Hp eq_refl)).
  - exact (proj2 (locked_row_keeps_content (date := IsoDate.instance)
      Scenario.default_env Scenario.emptied Scenario.no_query Scenario.no_query
      Scenario.noon Scenario.at_noon Scenario.at_noon db 0%N before Hp eq_refl)).
Defined.

(** ** Dry runs *)

Section DryRun.
Import Raindrop Notion Spec SyncFacts ReconcileFacts RowFacts.
Context {date : JsDate}.











End DryRun.


(** ** The scans of the sync *)

Module ScanFacts.
Import Raindrop Notion Spec.

(** *** Where a key sits *)

Section Position.
Context {V : Type}.
Implicit Types (m : Js.map V).

Lemma keys_set_prefix k (v : V) m : Js.keys m `prefix_of` Js.keys (Js.set k v m).
Proof. rewrite JsFacts.keys_set. apply prefix_app_r. reflexivity. Qed.

Lemma fold_set_prefix {A : Type} (f : A → Z) (g : A → V) l m :
  Js.keys m `prefix_of`
  Js.keys (fold_left (fun m a => Js.set (f a) (g a) m) l m).
Proof.
  revert m. induction l as [|a l IH]; intros m; simpl.
  - reflexivity.
  - etransitivity; [apply keys_set_prefix | apply IH].
Qed.

Lemma fold_set_length {A : Type} (f : A → Z) (g : A → V) l m :
  (length (Js.keys (fold_left (fun m a => Js.set (f a) (g a) m) l m))
   ≤ length (Js.keys m) + length l)%nat.
Proof.
  revert m. induction l as [|a l IH]; intros m; simpl.
  - lia.
  - specialize (IH (Js.set (f a) (g a) m)).
    pose proof (JsFacts.keys_set_length (f a) (g a) m). lia.
Qed.

Lemma fold_set_elem {A : Type} (f : A → Z) (g : A → V) l m x :
  x ∈ Js.keys m ∨ x ∈ List.map f l →
  x ∈ Js.keys (fold_left (fun m a => Js.set (f a) (g a) m) l m).
Proof.
  revert m. induction l as [|a l IH]; intros m; simpl.
  - intros [H|H]; [exact H | apply elem_of_nil in H; contradiction].
  - intros H. apply IH. rewrite JsFacts.in_keys_set.
    destruct H as [H|H]; [auto|].
    apply elem_of_cons in H as [->|H]; auto.
Qed.

(** A key found early in a prefix is found as early in the whole. *)
Lemma elem_of_take_prefix (l1 l2 : list Z) n x :
  l1 `prefix_of` l2 → x ∈ l1 → (length l1 ≤ n)%nat → x ∈ take n l2.
Proof.
  intros [more ->] Hx Hlen. rewrite take_app_ge by exact Hlen.
  apply elem_of_app. left. exact Hx.
Qed.

(** A key among the first [n] insertions is among the first [n] keys. *)
Lemma fold_set_take {A : Type} (f : A → Z) (g : A → V) l n x :
  x ∈ take n (List.map f l) →
  x ∈ take n (Js.keys (fold_left (fun m a => Js.set (f a) (g a) m) l [])).
Proof.
  intros Hx. rewrite <- (take_drop n l) at 1. rewrite fold_left_app.
  eapply elem_of_take_prefix.
  - apply fold_set_prefix.
  - apply fold_set_elem. right.
    replace (List.map f (take n l)) with (take n (List.map f l)); [exact Hx|].
    symmetry. apply fmap_take.
  - pose proof (fold_set_length f g (take n l) []) as H. simpl in H.
    rewrite length_take in H. lia.
Qed.

End Position.

(** *** What pass A keeps *)

Section WithDate.
Context {date : JsDate}.

Lemma keptOf_app since l1 l2 kept :
  keptOf since (l1 ++ l2) kept = keptOf since l2 (keptOf since l1 kept).
Proof. apply fold_left_app. Qed.

Lemma keptOf_prefix since l kept :
  Js.keys kept `prefix_of` Js.keys (keptOf since l kept).
Proof.
  revert kept. induction l as [|it l IH]; intros kept; simpl.
  - reflexivity.
  - etransitivity; [|apply IH].
    destruct (Sync.createdOld since it); [reflexivity | apply keys_set_prefix].
Qed.

Lemma keptOf_length since l kept :
  (length (Js.keys (keptOf since l kept)) ≤ length (Js.keys kept) + length l)%nat.
Proof.
  revert kept. induction l as [|it l IH]; intros kept; simpl.
  - lia.
  - etransitivity; [apply IH|].
    destruct (Sync.createdOld since it); [lia|].
    pose proof (JsFacts.keys_set_length (_id it) it kept). lia.
Qed.

Lemma keptOf_keeps since l kept x :
  x ∈ Js.keys kept → x ∈ Js.keys (keptOf since l kept).
Proof.
  intros H. destruct (keptOf_prefix since l kept) as [more ->].
  apply elem_of_app. left. exact H.
Qed.

Lemma keptOf_elem since l kept it :
  it ∈ l → Sync.createdOld since it = false →
  _id it ∈ Js.keys (keptOf since l kept).
Proof.
  revert kept. induction l as [|a l IH]; intros kept Hin Hnew.
  - apply elem_of_nil in Hin. contradiction.
  - simpl. apply elem_of_cons in Hin as [<-|Hin].
    + rewrite Hnew. apply keptOf_keeps, JsFacts.in_keys_set. left. reflexivity.
    + apply IH; assumption.
Qed.

(** The item at position [i], if it is in the window, has its id among the
    first [i + 1] keys once pass A is past it. *)
Lemma keptOf_position since all i J item :
  all !! i = Some item → Sync.createdOld since item = false → (i < J)%nat →
  _id item ∈ take (S i) (Js.keys (keptOf since (take J all) [])).
Proof.
  intros Hi Hnew HJ.
  assert (E : take J all = take (S i) all ++ drop (S i) (take J all)).
  { rewrite <- (take_drop (S i) (take J all)) at 1. f_equal.
    rewrite take_take. f_equal. lia. }
  rewrite E, keptOf_app.
  eapply elem_of_take_prefix.
  - apply keptOf_prefix.
  - apply keptOf_elem; [|exact Hnew].
    apply list_elem_of_lookup. exists i. rewrite lookup_take_lt by lia. exact Hi.
  - pose proof (keptOf_length since (take (S i) all) []) as H. simpl in H.
    rewrite length_take in H. lia.
Qed.

(** The inner loop of pass A keeps what [keptOf] says of the items it went
    through; if it left through its [break], the last of them was older than
    the window. *)
Lemma scanPage_spec k existing items kept c :
  ∃ m, (m ≤ length items)%nat
       ∧ (Sync.scanPage k existing items kept c).1.1
         = keptOf (Sync.since k) (take m items) kept
       ∧ if (Sync.scanPage k existing items kept c).2
         then ∃ j o, m = S j ∧ items !! j = Some o
                     ∧ Sync.createdOld (Sync.since k) o = true
         else m = length items.
Proof.
  revert kept c. induction items as [|it rest IH]; intros kept c; simpl.
  - exists 0%nat. repeat split. lia.
  - destruct (Sync.createdOld (Sync.since k) it
              && (Sync.CONSECUTIVE_HITS_STOP k <=? _)) eqn:Estop.
    + apply andb_true_iff in Estop as [Hold _]. exists 1%nat. simpl.
      rewrite Hold. repeat split; [lia|]. exists 0%nat, it. auto.
    + destruct (IH (if Sync.createdOld (Sync.since k) it then kept
                    else Js.set (_id it) it kept)
                   (if Js.has (_id it) existing then c + 1 else 0))
        as (m & Hm & Hkept & Hstop).
      exists (S m). simpl. split; [lia|]. split; [exact Hkept|].
      destruct (Sync.scanPage k existing rest _ _).2.
      * destruct Hstop as (j & o & -> & Hj & Ho). exists (S j), o. auto.
      * lia.
Qed.

Lemma token_present env :
  Js.truthy_opt (env "RAINDROP_ACCESS_TOKEN") = true →
  ∃ token, getRaindropToken env = Ok token.
Proof.
  unfold getRaindropToken. destruct (env "RAINDROP_ACCESS_TOKEN") as [t|]; simpl.
  - intros ->. eauto.
  - discriminate.
Qed.

Lemma fetchRecentRaindrops_lists env api coll all perPage page :
  Js.truthy_opt (env "RAINDROP_ACCESS_TOKEN") = true → lists api coll all →
  fetchRecentRaindrops env api coll perPage page
  = Ok (Scenario.paged perPage page all).
Proof.
  intros Htok Hlists. unfold fetchRecentRaindrops.
  destruct (token_present env Htok) as [token ->]. simpl.
  destruct (Hlists perPage page) as (status & text & -> & ->). reflexivity.
Qed.

(** Pass A over a service that lists [all]: it ends with what [keptOf] says
    of the first [J] items, where [J] is past the end of the listing, or past
    an item older than the window, or a full first page under the first-page
    rule, or all the pages of the budget. *)
Lemma passA_loop_spec env api (db : Db) coll k all :
  Js.truthy_opt (env "RAINDROP_ACCESS_TOKEN") = true → lists api coll all →
  0 < Sync.perPageA k →
  let n := Z.to_nat (Sync.perPageA k) in
  ∀ remaining page st,
    Sync.passAItems st = keptOf (Sync.since k) (take (page * n) all) [] →
    ∃ st' J,
      Sync.passA_loop env api db coll k remaining page st = Ok st'
      ∧ Sync.passAItems st' = keptOf (Sync.since k) (take J all) []
      ∧ ((length all ≤ J)%nat
         ∨ (∃ j o, (j < J)%nat ∧ all !! j = Some o
                   ∧ Sync.createdOld (Sync.since k) o = true)
         ∨ (first_page_only k = true ∧ remaining ≠ 0%nat ∧ J = ((page + 1) * n)%nat)
         ∨ J = ((page + remaining) * n)%nat).
Proof.
  intros Htok Hlists Hpos n.
  induction remaining as [|r IH]; intros page st Hst.
  - exists st, (page * n)%nat. simpl. split; [reflexivity|]. split; [exact Hst|].
    right. right. right. lia.
  - simpl. rewrite (fetchRecentRaindrops_lists env api coll all) by assumption.
    simpl. unfold Scenario.paged. fold n.
    set (pageItems := take n (drop (page * n) all)).
    assert (Hlen : (length pageItems ≤ n)%nat)
      by (subst pageItems; rewrite length_take; lia).
    destruct (length pageItems =? 0)%nat eqn:Eempty.
    { apply Nat.eqb_eq in Eempty. eexists _, (page * n)%nat.
      split; [reflexivity|]. split; [exact Hst|]. left.
      subst pageItems. rewrite length_take, length_drop in Eempty. lia. }
    apply Nat.eqb_neq in Eempty.
    destruct (scanPage_spec k
                (getPagesByRaindropIds db (List.map _id pageItems)) pageItems
                (Sync.passAItems st) (Sync.consecutiveExisting st))
      as (m & Hm & Hkept & Hstop).
    destruct (Sync.scanPage k _ pageItems _ _) as [[kept c] stopped].
    simpl in Hkept, Hstop.
    assert (Hkept' : kept = keptOf (Sync.since k) (take (page * n + m) all) []).
    { rewrite Hkept, Hst, <- keptOf_app. f_equal.
      rewrite <- take_take_drop. f_equal.
      subst pageItems. rewrite take_take. f_equal. lia. }
    destruct stopped.
    { destruct Hstop as (j & o & -> & Hj & Ho).
      eexists _, (page * n + S j)%nat. split; [reflexivity|].
      split; [exact Hkept'|]. right. left. exists (page * n + j)%nat, o.
      split; [lia|]. split; [|exact Ho].
      subst pageItems. apply lookup_take_Some in Hj as [Hj _].
      rewrite lookup_drop in Hj. exact Hj. }
    subst m.
    destruct (Z.of_nat (length pageItems) <? Sync.perPageA k) eqn:Eshort.
    { apply Z.ltb_lt in Eshort.
      eexists _, (page * n + length pageItems)%nat. split; [reflexivity|].
      split; [exact Hkept'|]. left.
      assert (length pageItems < n)%nat by lia.
      subst pageItems. rewrite length_take, length_drop in *. lia. }
    apply Z.ltb_ge in Eshort.
    assert (Hfull : length pageItems = n) by lia.
    rewrite Hfull in Hkept'.
    fold (first_page_only k).
    destruct (first_page_only k) eqn:Efirst.
    { eexists _, (page * n + n)%nat. split; [reflexivity|].
      split; [exact Hkept'|]. right. right. left. repeat split; lia. }
    destruct (IH (S page)
                {| Sync.passAItems := kept;
                   Sync.consecutiveExisting := c;
                   Sync.pagesFetchedA := Sync.pagesFetchedA st + 1;
                   Sync.stopReasonA := None |})
      as (st' & J & Hrun & HJ & Hwhy).
    { simpl. rewrite Hkept'. f_equal. f_equal. lia. }
    exists st', J. split; [exact Hrun|]. split; [exact HJ|].
    destruct Hwhy as [H|[H|[(H & _)|H]]]; [auto | auto | discriminate |].
    right. right. right. lia.
Qed.

(** *** Pass B, the union and the cap *)

Lemma elem_of_set k k' (v v' : RaindropItem) m :
  (k', v') ∈ Js.set k v m → (k', v') = (k, v) ∨ (k', v') ∈ m.
Proof.
  induction m as [|[k0 v0] m IH]; simpl.
  - intros H. apply list_elem_of_singleton in H. auto.
  - destruct (k =? k0).
    + intros H. apply elem_of_cons in H as [H|H]; [auto|].
      right. right. exact H.
    + intros H. apply elem_of_cons in H as [H|H].
      * right. rewrite H. left.
      * destruct (IH H) as [E|E]; [auto|]. right. right. exact E.
Qed.

Lemma well_keyed_nil : well_keyed [].
Proof. intros k it H. apply elem_of_nil in H. contradiction. Qed.

Lemma well_keyed_set it m : well_keyed m → well_keyed (Js.set (_id it) it m).
Proof.
  intros Hm k v H. apply elem_of_set in H as [[= -> ->]|H]; [reflexivity|].
  apply Hm. exact H.
Qed.

Lemma well_keyed_keptOf since l kept :
  well_keyed kept → well_keyed (keptOf since l kept).
Proof.
  revert kept. induction l as [|it l IH]; intros kept Hk; simpl.
  - exact Hk.
  - apply IH. destruct (Sync.createdOld since it); [exact Hk|].
    apply well_keyed_set. exact Hk.
Qed.

Lemma well_keyed_set_all items m : well_keyed m → well_keyed (Sync.set_all items m).
Proof.
  unfold Sync.set_all. revert m. induction items as [|it l IH]; intros m Hm; simpl.
  - exact Hm.
  - apply IH, well_keyed_set. exact Hm.
Qed.

Lemma well_keyed_fold (l : Js.map RaindropItem) m :
  well_keyed l → well_keyed m →
  well_keyed (fold_left (fun m kv => Js.set kv.1 kv.2 m) l m).
Proof.
  revert m. induction l as [|[k it] l IH]; intros m Hl Hm; simpl.
  - exact Hm.
  - apply IH.
    + intros k' v' H. apply Hl. right. exact H.
    + rewrite <- (Hl k it) by left. apply well_keyed_set. exact Hm.
Qed.

Lemma well_keyed_values m : well_keyed m → List.map _id (Js.values m) = Js.keys m.
Proof.
  induction m as [|[k it] m IH]; intros Hm; simpl.
  - reflexivity.
  - rewrite (Hm k it) by left. f_equal. apply IH.
    intros k' v' H. apply Hm. right. exact H.
Qed.

Lemma search_loop_ok env api coll search k :
  Js.truthy_opt (env "RAINDROP_ACCESS_TOKEN") = true → searches_answered api coll →
  ∀ remaining page st, well_keyed st.1 →
    ∃ st', Sync.search_loop env api coll search k remaining page st = Ok st'
           ∧ well_keyed st'.1.
Proof.
  intros Htok Hans. induction remaining as [|r IH]; intros page st Hst; simpl.
  - eauto.
  - unfold fetchRaindropsBySearch.
    destruct (token_present env Htok) as [token ->]. simpl.
    destruct (Hans search (Sync.PER_PAGE k) page) as (status & body & -> & ->).
    simpl. repeat case_match; eauto using well_keyed_set_all.
Qed.

(** A key among the first [n] of pass A is among the first [n] of the
    union. *)
Lemma union_take (a b : Js.map RaindropItem) n x :
  x ∈ take n (Js.keys a) → x ∈ take n (Js.keys (Sync.union a b)).
Proof.
  intros Hx. unfold Sync.union.
  pose proof (fold_set_take (V := RaindropItem) fst snd a n x Hx) as H1.
  destruct (fold_set_prefix (V := RaindropItem) fst snd b
              (fold_left (fun m kv => Js.set kv.1 kv.2 m) a [])) as [more ->].
  rewrite take_app. apply elem_of_app. left. exact H1.
Qed.

Lemma candidateList_ids k u :
  0 < Sync.limitQP k → well_keyed u →
  List.map _id (Sync.candidateList k u)
  = take (Z.to_nat (Sync.limitQP k)) (Js.keys u).
Proof.
  intros Hpos Hu. unfold Sync.candidateList, Sync.slice0.
  destruct (Sync.limitQP k =? 0) eqn:E; [apply Z.eqb_eq in E; lia|]. simpl.
  destruct (0 <=? Sync.limitQP k) eqn:E'; [|apply Z.leb_gt in E'; lia].
  rewrite <- (well_keyed_values u Hu). apply fmap_take.
Qed.

(** *** The candidate loop gets through *)

Lemma upsert_loop_ok env api coll dry existing dt clock cands :
  Js.truthy_opt (env "RAINDROP_ACCESS_TOKEN") = true → titles_answered api →
  ∀ i (db : Db) t,
    ∃ t', (Sync.upsert_loop env api coll dry existing dt clock i cands db t).2 = Ok t'.
Proof.
  intros Htok Hans. induction cands as [|item rest IH]; intros i db t; simpl.
  - eauto.
  - assert (∃ title, Sync.resolveTitle env api coll dt item = Ok title) as [title ->].
    { unfold Sync.resolveTitle. destruct (Sync.collKey coll item) as [key|]; [|eauto].
      unfold getCollectionTitleById.
      destruct (token_present env Htok) as [token ->]. simpl.
      destruct (Hans key) as (status & title & ->). simpl. eauto. }
    apply IH.
Qed.

Lemma newest_first_lookup all i j item o :
  newest_first all = true → (j < i)%nat →
  all !! j = Some o → all !! i = Some item → not_newer item o = true.
Proof.
  revert i j. induction all as [|a rest IH]; intros i j Hs Hlt Hj Hi.
  - discriminate.
  - simpl in Hs. apply andb_true_iff in Hs as [Hall Hs].
    destruct j as [|j]; simpl in Hj.
    + injection Hj as ->. destruct i as [|i]; [lia|]. simpl in Hi.
      rewrite forallb_forall in Hall. apply Hall.
      apply list_elem_of_In, list_elem_of_lookup. eauto.
    + destruct i as [|i]; [lia|]. simpl in Hi.
      apply (IH i j); [exact Hs | lia | exact Hj | exact Hi].
Qed.

End WithDate.
End ScanFacts.

(** ** Window completeness *)

Section Window.
Import Raindrop Notion Spec SyncFacts ScanFacts.
Context {date : JsDate}.

Lemma elem_of_take_le {A : Type} (l : list A) n m x :
  x ∈ take n l → (n ≤ m)%nat → x ∈ take m l.
Proof.
  intros H Hle. apply elem_of_take in H as (i & H & Hi).
  apply elem_of_take. exists i. split; [exact H | lia].
Qed.

(** Every candidate ends up in one of the lists of the response. *)
Lemma evaluated_all pl existing cands id :
  id ∈ List.map _id cands →
  id ∈ evaluated
         (Sync.report pl
            (tally_of (Sync.dryRun (Sync.plan_knobs pl)) existing cands
               Sync.tally_start)).
Proof.
  intros Hin. apply list_elem_of_In, in_map_iff in Hin as (cand & E & Hin).
  apply list_elem_of_In in Hin.
  assert (H : id ∈ ids_where is_create existing cands
              ∨ id ∈ ids_where is_update existing cands
              ∨ id ∈ ids_where is_existing existing cands).
  { rewrite !elem_of_ids_where.
    destruct (Sync.decide existing cand) eqn:Ed.
    - left. exists cand. rewrite Ed. auto.
    - right. right. exists cand. rewrite Ed. auto.
    - right. left. exists cand. rewrite Ed. auto.
    - right. right. exists cand. rewrite Ed. auto. }
  unfold evaluated, Sync.report. simpl.
  destruct (Sync.dryRun (Sync.plan_knobs pl)).
  - rewrite tally_of_dry. simpl. rewrite !elem_of_app. tauto.
  - rewrite tally_of_real. simpl. rewrite !elem_of_app. tauto.
Qed.

(** With the titles answered, a run that has its plan returns the report of
    all its candidates. *)
Lemma run_ok env api query now clock (db : Db) pl :
  Js.truthy_opt (env "RAINDROP_ACCESS_TOKEN") = true → titles_answered api →
  Sync.plan env api query now db = Ok pl →
  (Sync.run env api query now clock db).2
  = Ok (Sync.report pl
          (tally_of (Sync.dryRun (Sync.plan_knobs pl)) (Sync.plan_existing pl)
             (Sync.plan_candidates pl) Sync.tally_start)).
Proof.
  intros Htok Htitles Hplan. unfold Sync.run. rewrite Hplan.
  destruct (upsert_loop_ok env api (default "" (env "RAINDROP_COLLECTION_ID"))
              (Sync.dryRun (Sync.plan_knobs pl)) (Sync.plan_existing pl)
              (Sync.plan_defaultTitle pl) clock (Sync.plan_candidates pl)
              Htok Htitles 0%nat db Sync.tally_start) as [t' Hloop].
  destruct (Sync.upsert_loop _ _ _ _ _ _ _ _ _ _ _) as [db' r] eqn:E.
  simpl in Hloop. subst r. simpl.
  rewrite (upsert_loop_tally _ _ _ _ _ _ _ _ _ _ _ _ _ E). reflexivity.
Qed.

(** C3 (as amended).  Over a service that answers every request and lists
    the collection newest first, and with a window whose start is a valid
    date: an item created inside the window that the listing returns at a
    position pass A can read (within its page budget, or on the first page
    when the first-page rule applies) and within the first [limitQP]
    positions is kept by pass A, is among the candidates, and is evaluated by
    the decision loop of a run that returns its report. *)
Theorem in_window_item_within_reach_is_evaluated
    env api query now clock (db : Db) coll all i item t :
  Js.truthy_opt (env "RAINDROP_ACCESS_TOKEN") = true →
  env "RAINDROP_COLLECTION_ID" = Some coll → Js.truthy coll = true →
  is_Some (Sync.sinceDate env now) →
  lists api coll all → newest_first all = true →
  searches_answered api coll → titles_answered api →
  all !! i = Some item →
  getTime (created item) = Some t →
  Sync.since (Sync.knobs env query now) ≤ t →
  (i < scan_reach (Sync.knobs env query now))%nat →
  Z.of_nat i < Sync.limitQP (Sync.knobs env query now) →
  ∃ pl rep,
    Sync.plan env api query now db = Ok pl
    ∧ _id item ∈ Js.keys (Sync.passAItems (Sync.plan_passA pl))
    ∧ _id item ∈ List.map _id (Sync.plan_candidates pl)
    ∧ (Sync.run env api query now clock db).2 = Ok rep
    ∧ _id item ∈ evaluated rep.
Proof.
  intros Htok Hcoll Hcoll' [s Hvalid] Hlists Hsorted Hsearch Htitles Hi Ht Hsince
    Hreach Hcap.
  set (k := Sync.knobs env query now) in *.
  set (n := Z.to_nat (Sync.perPageA k)).
  assert (Hn : 0 < Sync.perPageA k).
  { unfold scan_reach in Hreach. fold n in Hreach.
    destruct (Z.to_nat (Sync.perPageA k)) eqn:E; [subst n; lia | lia]. }
  assert (Hnew : Sync.createdOld (Sync.since k) item = false).
  { unfold Sync.createdOld. rewrite Ht. apply Z.ltb_ge. exact Hsince. }
  (* pass A *)
  destruct (passA_loop_spec env api db coll k all Htok Hlists Hn
              (Z.to_nat (Sync.MAX_PAGES k)) 0%nat Sync.passA_start eq_refl)
    as (a & J & HpassA & Ha & Hwhy).
  fold n in Hwhy.
  assert (HJ : (i < J)%nat).
  { pose proof (lookup_lt_Some _ _ _ Hi) as Hlen.
    destruct Hwhy as [H|[(j & o & Hj & Ho & Hold)|[(Hf & Hm & ->)| ->]]].
    - lia.
    - destruct (decide (i ≤ j)%nat) as [Hle|Hgt]; [lia|]. exfalso.
      assert (Hnn : not_newer item o = true)
        by (apply (newest_first_lookup all i j); [assumption | lia | assumption..]).
      unfold not_newer in Hnn. unfold Sync.createdOld in Hold. rewrite Ht in Hnn.
      destruct (getTime (created o)) as [to|]; [|discriminate].
      apply Z.leb_le in Hnn. apply Z.ltb_lt in Hold. lia.
    - unfold scan_reach in Hreach. fold n in Hreach. rewrite Hf in Hreach.
      rewrite Nat.min_l in Hreach by lia. lia.
    - unfold scan_reach in Hreach. fold n in Hreach.
      destruct (first_page_only k); [|lia].
      destruct (Z.to_nat (Sync.MAX_PAGES k)) as [|m]; simpl in Hreach; nia. }
  pose proof (keptOf_position (Sync.since k) all i J item Hi Hnew HJ) as Hpos.
  rewrite <- Ha in Hpos.
  assert (Hwa : well_keyed (Sync.passAItems a))
    by (rewrite Ha; apply well_keyed_keptOf, well_keyed_nil).
  (* pass B *)
  destruct (search_loop_ok env api coll ("lastUpdate:>" +:+ Sync.sinceDateOnly k) k
              Htok Hsearch (Z.to_nat (Sync.MAX_PAGES k)) 0%nat ([], 0)
              well_keyed_nil) as (b1 & Hb1 & Hwb1).
  destruct (search_loop_ok env api coll ("created:>" +:+ Sync.sinceDateOnly k) k
              Htok Hsearch (Z.to_nat (Sync.MAX_PAGES k)) 0%nat b1 Hwb1)
    as (b & Hb & Hwb).
  (* the plan *)
  set (u := Sync.union (Sync.passAItems a) b.1).
  assert (Hplan : Sync.plan env api query now db
                  = Ok {| Sync.plan_knobs := k;
                          Sync.plan_defaultTitle :=
                            catch_undefined (getCollectionTitleById env api coll);
                          Sync.plan_passA := a; Sync.plan_passB := b;
                          Sync.plan_candidates := Sync.candidateList k u;
                          Sync.plan_existing :=
                            getPagesByRaindropIds db
                              (List.map _id (Sync.candidateList k u)) |}).
  { unfold Sync.plan. rewrite Hcoll, Hcoll', Hvalid. cbn [negb]. fold k.
    cbn [Sync.isoDateOnly mbind result_bind].
    unfold Sync.passA, Sync.passB. rewrite HpassA. cbn [mbind result_bind].
    rewrite Hb1. cbn [mbind result_bind]. rewrite Hb. reflexivity. }
  assert (Hcand : _id item ∈ List.map _id (Sync.candidateList k u)).
  { assert (Hwu : well_keyed u).
    { apply well_keyed_fold; [exact Hwb|].
      apply well_keyed_fold; [exact Hwa | apply well_keyed_nil]. }
    rewrite candidateList_ids by first [lia | exact Hwu].
    apply (elem_of_take_le _ (S i)); [|lia].
    apply union_take. exact Hpos. }
  (* the loop *)
  eexists. eexists. split; [exact Hplan|].
  split; [apply elem_of_take in Hpos as (p & Hp & _);
          apply list_elem_of_lookup; eauto|].
  split; [exact Hcand|].
  split; [apply (run_ok _ _ _ _ _ _ _ Htok Htitles Hplan)|].
  apply (evaluated_all _ _ _ _ Hcand).
Qed.

End Window.

(** C3, the counterexample.  Pages of two and a budget of one page (with
    [limit=500], so that neither the first-page rule nor the cap plays a part):
    of three bookmarks created minutes ago, pass A and both searches of pass B
    read the first two only, and bookmark 1, inside the window, is never a
    candidate. *)
Lemma third_bookmark_is_dropped :
  ¬ Spec.window_complete (date := IsoDate.instance) Scenario.one_page_of_two
      Scenario.three (Scenario.query_of [("limit", "500")]) Scenario.noon
      Scenario.at_noon ∅ (Scenario.bookmarks 3 3 Scenario.noon).
Proof.
  intros H.
  destruct (H (Scenario.bookmark 1 (Scenario.noon - 120000))
              (Scenario.noon - 120000)) as (rep & Hrun & Hin).
  - right. right. left.
  - vm_compute. reflexivity.
  - vm_compute. discriminate.
  - vm_compute in Hrun. injection Hrun as <-.
    vm_compute in Hin.
    apply elem_of_cons in Hin as [Hin|Hin]; [discriminate|].
    apply elem_of_cons in Hin as [Hin|Hin]; [discriminate|].
    apply elem_of_nil in Hin. exact Hin.
Qed.

(** C3, the instance.  Default settings and no parameter: the third of three
    bookmarks created minutes ago. *)
Lemma in_window_item_within_reach_is_evaluated_witness :
  let all := Scenario.bookmarks 3 9 Scenario.noon in
  let api := Scenario.service all (fun _ _ => true)
               Scenario.no_titles Scenario.no_details in
  let k := Sync.knobs (date := IsoDate.instance) Scenario.default_env
             Scenario.no_query Scenario.noon in
  all !! 2%nat = Some (Scenario.bookmark 7 (Scenario.noon - 120000))
  ∧ Spec.newest_first (date := IsoDate.instance) all = true
  ∧ Sync.since k ≤ Scenario.noon - 120000
  ∧ (2 < Spec.scan_reach k)%nat
  ∧ 2 < Sync.limitQP k
  ∧ ∃ rep, (Sync.run (date := IsoDate.instance) Scenario.default_env api
              Scenario.no_query Scenario.noon Scenario.at_noon ∅).2 = Ok rep
           ∧ 7 ∈ Spec.evaluated rep.
Proof.
  intros all api k.
  assert (Hlists : Spec.lists api "4242" all).
  { intros perPage page. eexists _, _. split; reflexivity. }
  assert (Hsearch : Spec.searches_answered api "4242").
  { intros search perPage page. eexists _, _. split; reflexivity. }
  assert (Htitles : Spec.titles_answered api).
  { intros key. eexists _, _. reflexivity. }
  destruct (in_window_item_within_reach_is_evaluated (date := IsoDate.instance)
    Scenario.default_env api Scenario.no_query Scenario.noon Scenario.at_noon ∅
    "4242" all 2%nat (Scenario.bookmark 7 (Scenario.noon - 120000))
    (Scenario.noon - 120000)
    eq_refl eq_refl eq_refl ltac:(vm_compute; eexists; reflexivity)
    Hlists ltac:(vm_compute; reflexivity)
    Hsearch Htitles eq_refl ltac:(vm_compute; reflexivity)
    ltac:(vm_compute; discriminate) ltac:(vm_compute; lia)
    ltac:(vm_compute; reflexivity))
    as (pl & rep & _ & _ & _ & W1 & W2).
  split; [reflexivity|]. split; [vm_compute; reflexivity|].
  split; [vm_compute; discriminate|]. split; [vm_compute; lia|].
  split; [vm_compute; reflexivity|].
  exists rep. split; [exact W1 | exact W2].
Defined.

(** ** Running the sync twice *)

Section Idempotency.
Import Raindrop Notion Spec NotionFacts SyncFacts ScanFacts.
Context {date : JsDate}.

#[local] Arguments Sync.write : simpl never.
#[local] Arguments Sync.record : simpl never.
#[local] Arguments Sync.resolveTitle : simpl never.

(** *** The candidates carry distinct ids *)

Lemma passA_loop_well_keyed env api (db : Db) coll k remaining :
  ∀ page st st',
    well_keyed (Sync.passAItems st) →
    Sync.passA_loop env api db coll k remaining page st = Ok st' →
    well_keyed (Sync.passAItems st').
Proof.
  induction remaining as [|r IH]; intros page st st' Hst; simpl.
  - intros [= <-]. exact Hst.
  - destruct (fetchRecentRaindrops env api coll (Sync.perPageA k) page)
      as [pageItems|]; simpl; [|discriminate].
    destruct (length pageItems =? 0)%nat; [intros [= <-]; exact Hst|].
    destruct (scanPage_spec k (getPagesByRaindropIds db (List.map _id pageItems))
                pageItems (Sync.passAItems st) (Sync.consecutiveExisting st))
      as (m & _ & Hkept & _).
    destruct (Sync.scanPage k _ pageItems _ _) as [[kept c] stopped].
    simpl in Hkept.
    assert (Hk : well_keyed kept)
      by (rewrite Hkept; apply well_keyed_keptOf; exact Hst).
    repeat case_match; try (intros [= <-]; exact Hk).
    apply IH. exact Hk.
Qed.

Lemma search_loop_well_keyed env api coll search k remaining :
  ∀ page st st',
    well_keyed st.1 →
    Sync.search_loop env api coll search k remaining page st = Ok st' →
    well_keyed st'.1.
Proof.
  induction remaining as [|r IH]; intros page st st' Hst; simpl.
  - intros [= <-]. exact Hst.
  - destruct (fetchRaindropsBySearch env api coll search (Sync.PER_PAGE k) page)
      as [pageItems|]; simpl; [|discriminate].
    repeat case_match; try (intros [= <-]; simpl;
                            first [exact Hst | apply well_keyed_set_all; exact Hst]).
    apply IH. simpl. apply well_keyed_set_all. exact Hst.
Qed.

Lemma fold_set_NoDup (l m : Js.map RaindropItem) :
  NoDup (Js.keys m) →
  NoDup (Js.keys (fold_left (fun m kv => Js.set kv.1 kv.2 m) l m)).
Proof.
  revert m. induction l as [|kv l IH]; intros m Hm; simpl.
  - exact Hm.
  - apply IH, JsFacts.NoDup_keys_set. exact Hm.
Qed.

Lemma NoDup_take {A : Type} (l : list A) n : NoDup l → NoDup (take n l).
Proof. intros H. exact (sublist_NoDup _ _ H (sublist_take l n)). Qed.

Lemma map_take {A B : Type} (f : A → B) n (l : list A) :
  List.map f (take n l) = take n (List.map f l).
Proof. apply fmap_take. Qed.

Lemma plan_candidates_NoDup env api query now (db : Db) pl :
  Sync.plan env api query now db = Ok pl →
  NoDup (List.map _id (Sync.plan_candidates pl)).
Proof.
  unfold Sync.plan.
  destruct (env "RAINDROP_COLLECTION_ID") as [coll|]; [|discriminate].
  destruct (negb (Js.truthy coll)); [discriminate|].
  destruct (Sync.isoDateOnly _) as [day|]; simpl; [|discriminate].
  destruct (Sync.passA _ _ _ _ _) as [a|] eqn:Ea; simpl; [|discriminate].
  destruct (Sync.passB _ _ _ _) as [b|] eqn:Eb; simpl; [|discriminate].
  intros [= <-]. simpl.
  assert (Hwa : well_keyed (Sync.passAItems a)).
  { eapply passA_loop_well_keyed; [|exact Ea]. apply well_keyed_nil. }
  assert (Hwb : well_keyed b.1).
  { unfold Sync.passB in Eb.
    destruct (Sync.search_loop env api coll _ _ _ _ _) as [b1|] eqn:Eb1;
      simpl in Eb; [|discriminate].
    eapply search_loop_well_keyed; [|exact Eb].
    eapply search_loop_well_keyed; [|exact Eb1]. apply well_keyed_nil. }
  set (u := Sync.union (Sync.passAItems a) b.1).
  assert (Hwu : well_keyed u).
  { apply well_keyed_fold; [exact Hwb|].
    apply well_keyed_fold; [exact Hwa | apply well_keyed_nil]. }
  assert (Hnd : NoDup (Js.keys u)).
  { apply fold_set_NoDup, fold_set_NoDup. apply NoDup_nil_2. }
  unfold Sync.candidateList, Sync.slice0.
  destruct (0 <=? _); rewrite map_take, (well_keyed_values u Hwu);
    apply NoDup_take; exact Hnd.
Qed.

(** *** What one write does to the rows *)

Lemma decide_SkipLocked_inv existing item :
  Sync.decide existing item = Sync.SkipLocked →
  ∃ f, Js.get (_id item) existing = Some f ∧ found_locked f = true.
Proof.
  unfold Sync.decide.
  destruct (Js.get (_id item) existing) as [f|]; [|discriminate].
  destruct (found_locked f) eqn:E; [eauto|].
  destruct (Sync.newerThan _ _); discriminate.
Qed.

Lemma decide_UpToDate_inv existing item :
  Sync.decide existing item = Sync.UpToDate →
  ∃ f, Js.get (_id item) existing = Some f ∧ found_locked f = false
       ∧ Sync.newerThan (Some (itemLast item)) (raindropLastUpdate f) = false.
Proof.
  unfold Sync.decide, itemLast.
  destruct (Js.get (_id item) existing) as [f|]; [|discriminate].
  destruct (found_locked f) eqn:E; [discriminate|].
  destruct (Sync.newerThan _ _) eqn:En; [discriminate | eauto].
Qed.

Lemma write_keeps_row existing head title nowIso (cur : Db) pid0 p0 :
  snapshot_ok cur existing head →
  cur !! pid0 = Some p0 → RaindropID p0 ≠ Some (_id head) →
  Sync.write false (Sync.decide existing head) head title nowIso cur !! pid0
  = Some p0.
Proof.
  intros Hsnap Hp0 Hne. rewrite write_other; [exact Hp0 | eauto |].
  intros Hd. apply decide_Update_inv in Hd as (f & Hget & _ & Hpid & _).
  unfold snapshot_ok in Hsnap. rewrite Hget in Hsnap.
  destruct Hsnap as (p & Hp & _ & Hid & _).
  rewrite Hpid, Hp0 in Hp. injection Hp as ->. contradiction.
Qed.

Lemma write_rows_inv existing head title nowIso (cur : Db) pid1 p1 :
  Sync.write false (Sync.decide existing head) head title nowIso cur !! pid1
  = Some p1 →
  (∃ p1', cur !! pid1 = Some p1' ∧ RaindropID p1 = RaindropID p1'
          ∧ archived p1 = archived p1')
  ∨ (pid1 = fresh (dom cur) ∧ Sync.decide existing head = Sync.Create
     ∧ RaindropID p1 = Some (_id head)).
Proof.
  unfold Sync.write. destruct (Sync.decide existing head) as [| |pid|] eqn:Ed;
    try solve [intros H; left; eauto].
  - unfold createFromRaindrop, pages_create. intros H.
    destruct (decide (pid1 = fresh (dom cur))) as [->|Hne].
    + rewrite lookup_insert_eq in H. injection H as <-. right. auto.
    + rewrite lookup_insert_ne in H by congruence. left. eauto.
  - unfold updateFromRaindrop, pages_update. intros H.
    destruct (decide (pid1 = pid)) as [->|Hne].
    + rewrite lookup_alter_eq in H.
      destruct (cur !! pid) as [p1'|]; simpl in H; [|discriminate].
      injection H as <-. left. exists p1'. auto.
    + rewrite lookup_alter_ne in H by congruence. left. eauto.
Qed.

(** One iteration of a real run settles its candidate and keeps what the
    rest of the loop relies on. *)
Lemma write_step existing head rest title nowIso (cur : Db) :
  unique_ids cur → NoDup (List.map _id (head :: rest)) →
  (∀ item, item ∈ head :: rest → snapshot_ok cur existing item) →
  let cur' := Sync.write false (Sync.decide existing head) head title nowIso cur in
  unique_ids cur'
  ∧ (∀ item, item ∈ rest → snapshot_ok cur' existing item)
  ∧ settled cur' head
  ∧ (∀ item, _id item ≠ _id head → settled cur item → settled cur' item).
Proof.
  intros Huniq Hnd Hsnap cur'.
  assert (Hhead : snapshot_ok cur existing head) by (apply Hsnap; left).
  simpl in Hnd. apply NoDup_cons in Hnd as [Hfresh Hnd].
  assert (Hnone : Sync.decide existing head = Sync.Create →
                  ∀ pid p, cur !! pid = Some p → archived p = false →
                           RaindropID p ≠ Some (_id head)).
  { intros Hd. apply decide_Create_inv in Hd.
    unfold snapshot_ok in Hhead. rewrite Hd in Hhead. exact Hhead. }
  split; [|split; [|split]].
  - intros k1 k2 p1 p2 id H1 H2 A1 A2 I1 I2.
    apply write_rows_inv in H1 as [(p1' & H1 & E1 & F1)|(-> & Hd1 & J1)];
      apply write_rows_inv in H2 as [(p2' & H2 & E2 & F2)|(-> & Hd2 & J2)].
    + apply (Huniq k1 k2 p1' p2' id); congruence.
    + exfalso. apply (Hnone Hd2 k1 p1' H1); congruence.
    + exfalso. apply (Hnone Hd1 k2 p2' H2); congruence.
    + reflexivity.
  - intros item Hin.
    assert (Hne : _id item ≠ _id head).
    { intros E. apply Hfresh. rewrite <- E.
      apply list_elem_of_In, in_map, list_elem_of_In. exact Hin. }
    pose proof (Hsnap item ltac:(right; exact Hin)) as Hitem.
    unfold snapshot_ok in *.
    destruct (Js.get (_id item) existing) as [f|].
    + destruct Hitem as (p & Hp & Ha & Hid & Hl & Ht).
      exists p. split; [|auto].
      apply write_keeps_row; [exact Hhead | exact Hp | congruence].
    + intros pid p Hp Ha.
      apply write_rows_inv in Hp as [(p' & Hp & E & F)|(_ & _ & J)].
      * rewrite E. apply (Hitem pid p' Hp). congruence.
      * congruence.
  - subst cur'. destruct (Sync.decide existing head) as [| |pid|] eqn:Ed.
    + eexists _, _. split; [apply lookup_insert_eq|]. simpl.
      repeat split. right. apply newerThan_self.
    + apply decide_SkipLocked_inv in Ed as (f & Hget & Hl).
      unfold snapshot_ok in Hhead. rewrite Hget in Hhead.
      destruct Hhead as (p & Hp & Ha & Hid & Hlock & _).
      exists (found_pageId f), p. repeat split; try assumption. left. congruence.
    + apply decide_Update_inv in Ed as (f & Hget & _ & <- & _).
      unfold snapshot_ok in Hhead. rewrite Hget in Hhead.
      destruct Hhead as (p & Hp & Ha & Hid & _).
      eexists _, _. split; [rewrite write_update, Hp; reflexivity|]. simpl.
      repeat split; try assumption. right. apply newerThan_self.
    + apply decide_UpToDate_inv in Ed as (f & Hget & _ & Hnew).
      unfold snapshot_ok in Hhead. rewrite Hget in Hhead.
      destruct Hhead as (p & Hp & Ha & Hid & _ & Ht).
      exists (found_pageId f), p. repeat split; try assumption. right. congruence.
  - intros item Hne (pid0 & p0 & Hp0 & Ha & Hid & Hok).
    exists pid0, p0. split; [|auto].
    apply write_keeps_row; [exact Hhead | exact Hp0 | congruence].
Qed.

(** A real run that gets through settles every one of its candidates, and
    leaves one live row per id. *)
Lemma upsert_loop_settles env api coll existing dt clock :
  ∀ todo i (cur final : Db) t t',
    unique_ids cur → NoDup (List.map _id todo) →
    (∀ item, item ∈ todo → snapshot_ok cur existing item) →
    Sync.upsert_loop env api coll false existing dt clock i todo cur t
      = (final, Ok t') →
    unique_ids final
    ∧ (∀ item, item ∈ todo → settled final item)
    ∧ (∀ item, _id item ∉ List.map _id todo → settled cur item →
               settled final item).
Proof.
  induction todo as [|head rest IH]; intros i cur final t t' Huniq Hnd Hsnap Hrun.
  - simpl in Hrun. injection Hrun as <- <-. split; [exact Huniq|].
    split; [|auto]. intros item H. apply elem_of_nil in H. contradiction.
  - simpl in Hrun.
    destruct (Sync.resolveTitle env api coll dt head) as [title|]; [|discriminate].
    destruct (write_step existing head rest title (toISOString (clock i)) cur
                Huniq Hnd Hsnap) as (Huniq' & Hsnap' & Hhead & Hkeep).
    assert (Hnd' : NoDup (List.map _id rest))
      by (simpl in Hnd; apply NoDup_cons in Hnd as [_ H]; exact H).
    assert (Hfresh : _id head ∉ List.map _id rest)
      by (simpl in Hnd; apply NoDup_cons in Hnd as [H _]; exact H).
    destruct (IH _ _ _ _ _ Huniq' Hnd' Hsnap' Hrun) as (Hu & Hall & Hold).
    split; [exact Hu|]. split.
    + intros item Hin. apply elem_of_cons in Hin as [->|Hin].
      * apply Hold; assumption.
      * apply Hall. exact Hin.
    + intros item Hnot Hset. simpl in Hnot. apply not_elem_of_cons in Hnot as [Hne Hnot].
      apply Hold; [exact Hnot|]. apply Hkeep; assumption.
Qed.

(** A loop none of whose candidates is to be created or updated writes
    nothing and counts nothing. *)
Lemma upsert_loop_idle env api coll dry existing dt clock :
  ∀ cands i (db : Db) t,
    (∀ item, item ∈ cands → is_existing (Sync.decide existing item) = true) →
    (Sync.upsert_loop env api coll dry existing dt clock i cands db t).1 = db
    ∧ ids_where is_create existing cands = []
    ∧ ids_where is_update existing cands = [].
Proof.
  induction cands as [|item rest IH]; intros i db t Hall.
  - repeat split.
  - assert (Hd : is_existing (Sync.decide existing item) = true) by (apply Hall; left).
    destruct (IH (S i) db (Sync.record dry (Sync.decide existing item) (_id item) t))
      as (Hdb & Hc & Hu); [intros it Hin; apply Hall; right; exact Hin|].
    rewrite !ids_where_cons, Hc, Hu.
    split.
    + simpl. destruct (Sync.resolveTitle env api coll dt item); [|reflexivity].
      replace (Sync.write dry (Sync.decide existing item) item a
                 (toISOString (clock i)) db) with db; [exact Hdb|].
      unfold Sync.write. destruct dry; [reflexivity|].
      destruct (Sync.decide existing item); try discriminate; reflexivity.
    + destruct (Sync.decide existing item); try discriminate; auto.
Qed.

(** *** Two runs *)

(** C9 (as amended).  A real run of the incremental sync that returned its
    report,
    followed by a second run over the same Source, the second seeing no
    candidate that the first did not evaluate: the second run issues no write
    at all, and what it reports is zero creates and zero updates.  The first
    run has left, for every candidate, a live row that is locked or stores a
    timestamp the item's is not newer than. *)
Theorem second_run_is_idle
    env api query now1 now2 clock1 clock2 (db db1 : Db) rep1 pl1 :
  unique_ids db →
  Sync.toBool (Sync.getQP query "dryRun") = false →
  Sync.plan env api query now1 db = Ok pl1 →
  Sync.run env api query now1 clock1 db = (db1, Ok rep1) →
  (∀ pl2 item, Sync.plan env api query now2 db1 = Ok pl2 →
               item ∈ Sync.plan_candidates pl2 → item ∈ Sync.plan_candidates pl1) →
  (∀ item, item ∈ Sync.plan_candidates pl1 → settled db1 item)
  ∧ (Sync.run env api query now2 clock2 db1).1 = db1
  ∧ match (Sync.run env api query now2 clock2 db1).2 with
    | Ok rep2 =>
        Sync.r_created rep2 = 0 ∧ Sync.r_updated rep2 = 0
        ∧ Sync.r_createdIds rep2 = Some [] ∧ Sync.r_updatedIds rep2 = Some []
    | Throw _ => True
    end.
Proof.
  intros Huniq Hreal Hplan1 Hrun1 Hsame.
  assert (Hdry : ∀ now (d : Db) pl,
            Sync.plan env api query now d = Ok pl →
            Sync.dryRun (Sync.plan_knobs pl) = false).
  { intros now d pl H. rewrite (plan_knobs_eq _ _ _ _ _ _ H). exact Hreal. }
  (* the first run *)
  unfold Sync.run in Hrun1. rewrite Hplan1 in Hrun1.
  rewrite (Hdry _ _ _ Hplan1) in Hrun1.
  destruct (Sync.upsert_loop _ _ _ _ _ _ _ _ _ _ _) as [db1' [t1|msg]] eqn:Hloop1;
    simpl in Hrun1; [|discriminate].
  injection Hrun1 as -> _.
  rewrite (plan_existing_eq _ _ _ _ _ _ Hplan1) in Hloop1.
  assert (Hsnap : ∀ item, item ∈ Sync.plan_candidates pl1 →
            snapshot_ok db
              (getPagesByRaindropIds db (List.map _id (Sync.plan_candidates pl1)))
              item).
  { intros item Hin. unfold snapshot_ok.
    assert (Hid : _id item ∈ List.map _id (Sync.plan_candidates pl1))
      by (apply list_elem_of_In, in_map, list_elem_of_In; exact Hin).
    destruct (Js.get (_id item) _) as [f|] eqn:Hget.
    - apply (getPages_backs _ _ _ _ Hget).
    - intros pid p Hp Ha Hrow.
      rewrite (getPages_complete db _ _ pid p Huniq Hp Ha Hrow Hid) in Hget.
      discriminate. }
  destruct (upsert_loop_settles _ _ _ _ _ _ _ _ _ _ _ _ Huniq
              (plan_candidates_NoDup _ _ _ _ _ _ Hplan1) Hsnap Hloop1)
    as (Huniq1 & Hsettled & _).
  clear Hloop1 Hsnap.
  split; [exact Hsettled|].
  (* the second run *)
  rewrite run_db. unfold Sync.run.
  destruct (Sync.plan env api query now2 db1) as [pl2|] eqn:Hplan2;
    [|split; [reflexivity | exact I]].
  rewrite (Hdry _ _ _ Hplan2).
  assert (Hidle : ∀ item, item ∈ Sync.plan_candidates pl2 →
            is_existing (Sync.decide (Sync.plan_existing pl2) item) = true).
  { intros item Hin.
    destruct (Hsettled item (Hsame pl2 item eq_refl Hin))
      as (pid & p & Hp & Ha & Hid & Hok).
    rewrite (plan_existing_eq _ _ _ _ _ _ Hplan2).
    unfold Sync.decide.
    rewrite (getPages_complete db1 _ _ pid p Huniq1 Hp Ha Hid)
      by (apply list_elem_of_In, in_map, list_elem_of_In; exact Hin).
    cbn [found_of found_locked raindropLastUpdate found_pageId].
    destruct (Lock p) eqn:Hl; [reflexivity|].
    destruct Hok as [Hok|Hok]; [discriminate|].
    fold (itemLast item). rewrite Hok. reflexivity. }
  destruct (upsert_loop_idle env api (default "" (env "RAINDROP_COLLECTION_ID"))
              false (Sync.plan_existing pl2) (Sync.plan_defaultTitle pl2) clock2
              (Sync.plan_candidates pl2) 0%nat db1 Sync.tally_start Hidle)
    as (Hdb & Hc & Hu).
  split; [exact Hdb|].
  pose proof (upsert_loop_throw_or_tally env api
    (default "" (env "RAINDROP_COLLECTION_ID")) false (Sync.plan_existing pl2)
    (Sync.plan_defaultTitle pl2) clock2 0 (Sync.plan_candidates pl2) db1
    Sync.tally_start) as Ht.
  destruct (Sync.upsert_loop _ _ _ _ _ _ _ _ _ _ _) as [db2 [t2|msg]];
    simpl in *; [|exact I].
  subst t2. rewrite tally_of_real, Hc, Hu. unfold Sync.report. simpl.
  rewrite (Hdry _ _ _ Hplan2). auto.
Qed.

End Idempotency.

(** C9, the instance.  Three new bookmarks and an empty database, default
    settings, no parameter; the second run comes five minutes after the
    first. *)
Lemma second_run_is_idle_witness :
  let api := Scenario.service (Scenario.bookmarks 3 9 Scenario.noon)
               (fun _ _ => true) Scenario.no_titles Scenario.no_details in
  let first := Sync.run (date := IsoDate.instance) Scenario.default_env api
                 Scenario.no_query Scenario.noon Scenario.at_noon ∅ in
  let second := Sync.run (date := IsoDate.instance) Scenario.default_env api
                  Scenario.no_query (Scenario.noon + 300000) Scenario.at_noon
                  first.1 in
  (∃ rep1, first.2 = Ok rep1 ∧ Sync.r_createdIds rep1 = Some [9; 8; 7])
  ∧ second.1 = first.1
  ∧ ∃ rep2, second.2 = Ok rep2
            ∧ Sync.r_created rep2 = 0 ∧ Sync.r_updated rep2 = 0
            ∧ Sync.r_alreadyExists rep2 = [9; 8; 7].
Proof.
  intros api first second.
  evar (rep1 : Sync.Report).
  assert (Hrep1 : first.2 = Ok rep1) by (subst rep1; vm_compute; reflexivity).
  evar (pl1 : Sync.Plan).
  assert (Hpl1 : Sync.plan (date := IsoDate.instance) Scenario.default_env api
                   Scenario.no_query Scenario.noon ∅ = Ok pl1)
    by (subst pl1; vm_compute; reflexivity).
  assert (Hrun1 : first = (first.1, Ok rep1))
    by (rewrite <- Hrep1; apply surjective_pairing).
  assert (Huniq : Spec.unique_ids (∅ : gmap N Notion.Page)).
  { intros k1 k2 p1 p2 id H. rewrite lookup_empty in H. discriminate. }
  assert (Hsame : ∀ pl2 item,
            Sync.plan (date := IsoDate.instance) Scenario.default_env api
              Scenario.no_query (Scenario.noon + 300000) first.1 = Ok pl2 →
            item ∈ Sync.plan_candidates pl2 → item ∈ Sync.plan_candidates pl1).
  { intros pl2 item H2.
    assert (E : match Sync.plan (date := IsoDate.instance) Scenario.default_env
                        api Scenario.no_query (Scenario.noon + 300000) first.1 with
                | Ok pl => Sync.plan_candidates pl = Sync.plan_candidates pl1
                | Throw _ => False
                end) by (vm_compute; reflexivity).
    rewrite H2 in E. rewrite E. exact id. }
  destruct (second_run_is_idle (date := IsoDate.instance) Scenario.default_env
    api Scenario.no_query Scenario.noon (Scenario.noon + 300000)
    Scenario.at_noon Scenario.at_noon ∅ first.1 rep1 pl1
    Huniq eq_refl Hpl1 Hrun1 Hsame) as (_ & W1 & W2).
  split; [exists rep1; split; [exact Hrep1 | vm_compute; reflexivity]|].
  split; [exact W1|].
  evar (rep2 : Sync.Report).
  assert (Hrep2 : second.2 = Ok rep2) by (subst rep2; vm_compute; reflexivity).
  fold second in W2. rewrite Hrep2 in W2. destruct W2 as (W3 & W4 & _).
  exists rep2. split; [exact Hrep2|]. split; [exact W3|]. split; [exact W4|].
  vm_compute. reflexivity.
Defined.

(** C9, the counterexample.  With [?limit=1] and an unchanged Source, the
    run at noon has bookmark 1 (from pass A) ahead of bookmark 2 (from pass B)
    and creates bookmark 1 only; five minutes later bookmark 1 has left the
    window, bookmark 2 is the one candidate, and the second run creates it. *)
Lemma capped_second_run_creates :
  let query := Scenario.query_of [("limit", "1")] in
  let first := Sync.run (date := IsoDate.instance) Scenario.default_env
                 Scenario.aging_and_edited query Scenario.noon Scenario.at_noon ∅ in
  let second := Sync.run (date := IsoDate.instance) Scenario.default_env
                  Scenario.aging_and_edited query (Scenario.noon + 300000)
                  Scenario.at_noon first.1 in
  match first.2, second.2 with
  | Ok rep1, Ok rep2 =>
      Sync.r_unionCandidates rep1 = 1%nat ∧ Sync.r_createdIds rep1 = Some [1]
      ∧ Sync.r_unionCandidates rep2 = 1%nat ∧ Sync.r_createdIds rep2 = Some [2]
      ∧ Sync.r_created rep2 = 1
  | _, _ => False
  end.
Proof. vm_compute. repeat split; reflexivity. Qed.

(** * Further properties of the code *)

(** ** The request gate *)

Section Gate.
Import Raindrop Notion Endpoint.
Context {date : JsDate}.

Lemma same_spec a b : same a b = true ↔ a = b.
Proof.
  destruct a as [x|], b as [y|]; simpl; try (split; [discriminate | congruence]).
  - rewrite String.eqb_eq. split; congruence.
  - tauto.
Qed.

(** The handler answers 405 to every method but POST and GET, and 401 to a
    POST that does not come from the cron, when a trigger token is configured
    and the token sent (the header, and only without the header the query)
    is not that token; neither answer comes with a write.  Every other
    request gets the sync: its database, and 200 with the report or 500 with
    the error. *)
Theorem request_gate env api req now clock (db : Db) :
  let out := handler env api req now clock db in
  (status out.2 = 405 ↔ method req ≠ "POST" ∧ method req ≠ "GET")
  ∧ (status out.2 = 401 ↔
       method req = "POST" ∧ headers req "x-vercel-cron" ≠ Some "1"
       ∧ ∃ t, env "TRIGGER_TOKEN" = Some t ∧ t ≠ "" ∧ token req ≠ Some t)
  ∧ (status out.2 = 405 ∨ status out.2 = 401 → out.1 = db)
  ∧ (status out.2 ≠ 405 → status out.2 ≠ 401 →
       out.1 = (Sync.run env api (query req) now clock db).1
       ∧ match (Sync.run env api (query req) now clock db).2 with
         | Ok r => out.2 = {| status := 200; body := Report r |}
         | Throw msg =>
             out.2 = {| status := 500;
                        body := Failed (if Js.truthy msg then msg else "Error") |}
         end).
Proof.
  intros out. subst out. unfold handler, requireToken, isCron.
  destruct (String.eqb_spec (method req) "POST") as [Hp|Hp];
    destruct (String.eqb_spec (method req) "GET") as [Hg|Hg]; simpl.
  - rewrite Hp in Hg. discriminate.
  - destruct (same (headers req "x-vercel-cron") (Some "1")) eqn:Ec; simpl.
    + apply same_spec in Ec.
      destruct (Sync.run env api (query req) now clock db) as [db' [r|msg]]; simpl;
        (split; [split; [discriminate | tauto]|]);
        (split; [split; [discriminate | tauto]|]);
        (split; [intros [H|H]; discriminate | auto]).
    + assert (Hc : headers req "x-vercel-cron" ≠ Some "1").
      { intros E. apply same_spec in E. congruence. }
      destruct (env "TRIGGER_TOKEN") as [t|] eqn:Et; simpl.
      2:{ destruct (Sync.run env api (query req) now clock db) as [db' [r|msg]]; simpl;
            (split; [split; [discriminate | tauto]|]);
            (split; [split; [discriminate | intros (_ & _ & t & ? & _); discriminate]|]);
            (split; [intros [H|H]; discriminate | auto]). }
      destruct t as [|c t']; simpl.
      { destruct (Sync.run env api (query req) now clock db) as [db' [r|msg]]; simpl;
          (split; [split; [discriminate | tauto]|]);
          (split; [split; [discriminate
                          | intros (_ & _ & t & [= <-] & Hne & _); contradiction]|]);
          (split; [intros [H|H]; discriminate | auto]). }
      destruct (same (token req) (Some (String c t'))) eqn:Es; simpl.
      * apply same_spec in Es.
        destruct (Sync.run env api (query req) now clock db) as [db' [r|msg]]; simpl;
          (split; [split; [discriminate | tauto]|]);
          (split; [split; [discriminate
                          | intros (_ & _ & t & [= <-] & _ & Hne); contradiction]|]);
          (split; [intros [H|H]; discriminate | auto]).
      * assert (Hne : token req ≠ Some (String c t')).
        { intros E. apply same_spec in E. congruence. }
        split; [split; [discriminate | tauto]|].
        split; [split; [|reflexivity]|].
        { intros _. repeat split; try assumption.
          exists (String c t'). repeat split; [discriminate | exact Hne]. }
        split; [reflexivity | congruence].
  - destruct (Sync.run env api (query req) now clock db) as [db' [r|msg]]; simpl;
      (split; [split; [discriminate | tauto]|]);
      (split; [split; [discriminate | tauto]|]);
      (split; [intros [H|H]; discriminate | auto]).
  - split; [split; [auto | reflexivity]|].
    split; [split; [discriminate | tauto]|].
    split; [reflexivity | congruence].
Qed.

End Gate.

(** ** The title cache *)

Section Cache.
Import Raindrop TitleCache.

Lemma cached_call env api key cache tok :
  getRaindropToken env = Ok tok → coherent api cache →
  (TitleCache.getCollectionTitleById env api key cache).1
  = Raindrop.getCollectionTitleById env api key
  ∧ coherent api (TitleCache.getCollectionTitleById env api key cache).2.
Proof.
  intros Htok Hcache.
  unfold TitleCache.getCollectionTitleById, Raindrop.getCollectionTitleById.
  rewrite Htok. simpl.
  destruct (cache !! key) as [t|] eqn:Ehit; simpl.
  - destruct (Hcache key t Ehit) as (_ & status & -> & ->). auto.
  - destruct (collection_item_title api key) as [msg|status t] eqn:Eapi; simpl;
      [auto|].
    destruct (ok status) eqn:Eok; simpl; [|auto].
    split; [reflexivity|].
    destruct t as [s|]; [|exact Hcache].
    destruct (Js.truthy s) eqn:Es; [|exact Hcache].
    cbn [snd]. intros key' t'. destruct (decide (key' = key)) as [->|Hne].
    + rewrite lookup_insert_eq. intros [= <-]. split; [exact Es|].
      exists status. auto.
    + rewrite lookup_insert_ne by congruence. apply Hcache.
Qed.

(** With the access token in place and a cache that holds nothing but what
    the service answers (an empty cache, a cache filled by earlier calls to an
    unchanged service), a series of title lookups through the cache returns
    call for call what the service would have returned, and leaves a cache of
    the same kind. *)
Theorem cache_is_transparent env api keys cache tok :
  getRaindropToken env = Ok tok → coherent api cache →
  (lookups env api keys cache).1
  = List.map (Raindrop.getCollectionTitleById env api) keys
  ∧ coherent api (lookups env api keys cache).2.
Proof.
  intros Htok. revert cache. induction keys as [|key rest IH]; intros cache Hcache.
  - split; [reflexivity | exact Hcache].
  - destruct (cached_call env api key cache tok Htok Hcache) as [E Hcache1].
    simpl.
    destruct (TitleCache.getCollectionTitleById env api key cache) as [r cache1].
    simpl in E, Hcache1. destruct (IH cache1 Hcache1) as [E' Hcache2].
    destruct (lookups env api rest cache1) as [rs cache2]. simpl in *.
    split; [congruence | exact Hcache2].
Qed.

End Cache.

(** The instance: a cold cache, a service that knows every collection as
    "Elsewhere", and three lookups of which the second repeats the first. *)
Lemma cache_is_transparent_witness :
  Raindrop.getRaindropToken Scenario.default_env = Ok "token"
  ∧ (TitleCache.lookups Scenario.default_env Scenario.moved_away
       ["99"; "99"; "7"] ∅).1
    = [Ok (Some "Elsewhere"); Ok (Some "Elsewhere"); Ok (Some "Elsewhere")]
  ∧ (TitleCache.lookups Scenario.default_env Scenario.moved_away
       ["99"; "99"; "7"] ∅).2 !! "99" = Some "Elsewhere".
Proof.
  assert (Hcold : TitleCache.coherent Scenario.moved_away ∅).
  { intros key t H. rewrite lookup_empty in H. discriminate. }
  destruct (cache_is_transparent Scenario.default_env Scenario.moved_away
              ["99"; "99"; "7"] ∅ "token" eq_refl Hcold) as [E H].
  split; [reflexivity|]. split; [exact E|].
  vm_compute. reflexivity.
Defined.

(** ** The first revision of the sync *)

Module V1Facts.
Import Raindrop Notion Spec Terms.

Lemma id_equals_spec id p : V1.id_equals id p = true ↔ RaindropID p = Some id.
Proof.
  unfold V1.id_equals. destruct (RaindropID p) as [n|].
  - rewrite Z.eqb_eq. split; congruence.
  - split; discriminate.
Qed.

Lemma pageExists_Some id (db : Db) kp :
  V1.pageExists id db = Some kp →
  db !! kp.1 = Some kp.2 ∧ archived kp.2 = false ∧ RaindropID kp.2 = Some id.
Proof.
  unfold V1.pageExists. intros H. apply head_Some_elem_of in H.
  destruct kp as [pid p]. apply NotionFacts.elem_of_query in H as (H1 & H2 & H3).
  apply id_equals_spec in H3. auto.
Qed.

Lemma pageExists_None id (db : Db) : V1.pageExists id db = None ↔ ¬ live db id.
Proof.
  unfold V1.pageExists, databases_query. cbn [fst]. rewrite drop_0. split.
  - intros H (pid & p & Hp & Ha & Hid).
    assert (Hin : (pid, p) ∈ matching (V1.id_equals id) db).
    { apply NotionFacts.elem_of_matching. rewrite id_equals_spec. auto. }
    destruct (matching (V1.id_equals id) db) as [|kp l];
      [apply elem_of_nil in Hin; contradiction | discriminate].
  - intros Hno. destruct (matching (V1.id_equals id) db) as [|[pid p] l] eqn:E;
      [reflexivity|].
    exfalso. apply Hno. exists pid, p.
    assert (Hin : (pid, p) ∈ matching (V1.id_equals id) db) by (rewrite E; left).
    apply NotionFacts.elem_of_matching in Hin as (H1 & H2 & H3).
    apply id_equals_spec in H3. auto.
Qed.

Lemma pageExists_live id (db : Db) : live db id → is_Some (V1.pageExists id db).
Proof.
  intros H. destruct (V1.pageExists id db) eqn:E; [eauto|].
  apply pageExists_None in E. contradiction.
Qed.

Lemma create_old item (db : Db) pid p :
  db !! pid = Some p → V1.createFromRaindrop item db !! pid = Some p.
Proof.
  intros H. unfold V1.createFromRaindrop, pages_create.
  rewrite lookup_insert_ne; [exact H|].
  intros E. apply (is_fresh (dom db)). rewrite E. apply elem_of_dom. eauto.
Qed.

Lemma create_inv item (db : Db) pid p :
  V1.createFromRaindrop item db !! pid = Some p →
  db !! pid = Some p
  ∨ (pid = fresh (dom db) ∧ archived p = false ∧ RaindropID p = Some (_id item)
     ∧ Status p = None ∧ RaindropLastUpdate p = None).
Proof.
  unfold V1.createFromRaindrop, pages_create.
  destruct (decide (pid = fresh (dom db))) as [->|Hne].
  - rewrite lookup_insert_eq. intros [= <-]. right. auto.
  - rewrite lookup_insert_ne by congruence. auto.
Qed.

Lemma create_live item (db : Db) : live (V1.createFromRaindrop item db) (_id item).
Proof.
  exists (fresh (dom db)). eexists. split; [apply lookup_insert_eq|]. auto.
Qed.

Lemma live_mono (db db' : Db) id :
  (∀ pid p, db !! pid = Some p → db' !! pid = Some p) → live db id → live db' id.
Proof. intros Hsub (pid & p & Hp & H). exists pid, p. auto. Qed.

Lemma create_size item (db : Db) :
  size (V1.createFromRaindrop item db) = S (size db).
Proof.
  unfold V1.createFromRaindrop, pages_create.
  apply map_size_insert_None, not_elem_of_dom, is_fresh.
Qed.

(** What the loop leaves: the rows it found, a live row for every item, one
    new page for each unit of the counter, and nothing on a new page but an
    item that had no live row. *)
Lemma create_loop_spec items :
  ∀ (db db' : Db) n n',
    V1.create_loop items db n = (db', n') →
    (∀ pid p, db !! pid = Some p → db' !! pid = Some p)
    ∧ (∀ item, item ∈ items → live db' (_id item))
    ∧ Z.of_nat (size db') = Z.of_nat (size db) + (n' - n)
    ∧ (∀ pid p, db' !! pid = Some p → db !! pid = None →
         ∃ item, item ∈ items ∧ ¬ live db (_id item)
                 ∧ RaindropID p = Some (_id item) ∧ archived p = false
                 ∧ Status p = None ∧ RaindropLastUpdate p = None).
Proof.
  induction items as [|item rest IH]; intros db db' n n' Hrun; simpl in Hrun.
  - injection Hrun as <- <-. split; [auto|]. split.
    + intros item H. apply elem_of_nil in H. contradiction.
    + split; [lia|]. intros pid p H1 H2. congruence.
  - destruct (V1.pageExists (_id item) db) as [kp|] eqn:Ex.
    + destruct (IH _ _ _ _ Hrun) as (Hold & Hall & Hsize & Hnew).
      split; [exact Hold|]. split; [|split; [exact Hsize|]].
      * intros it Hin. apply elem_of_cons in Hin as [->|Hin]; [|apply Hall; exact Hin].
        apply (live_mono db); [exact Hold|].
        apply pageExists_Some in Ex. destruct kp as [pid p]. exists pid, p. exact Ex.
      * intros pid p H1 H2. destruct (Hnew pid p H1 H2) as (it & Hin & H).
        exists it. split; [right; exact Hin | exact H].
    + apply pageExists_None in Ex.
      destruct (IH _ _ _ _ Hrun) as (Hold & Hall & Hsize & Hnew).
      split; [|split; [|split]].
      * intros pid p H. apply Hold, create_old, H.
      * intros it Hin. apply elem_of_cons in Hin as [->|Hin]; [|apply Hall; exact Hin].
        apply (live_mono (V1.createFromRaindrop item db)); [exact Hold|].
        apply create_live.
      * rewrite create_size in Hsize. lia.
      * intros pid p H1 H2.
        destruct (V1.createFromRaindrop item db !! pid) as [q|] eqn:Eq.
        -- pose proof (Hold pid q Eq) as H3. rewrite H1 in H3. injection H3 as ->.
           apply create_inv in Eq as [Eq|(_ & H)]; [congruence|].
           exists item. split; [left|]. split; [exact Ex | tauto].
        -- destruct (Hnew pid p H1 Eq) as (it & Hin & Hno & H).
           exists it. split; [right; exact Hin|]. split; [|exact H].
           intros Hl. apply Hno. apply (live_mono db); [|exact Hl].
           intros pid' p'. apply create_old.
Qed.

Lemma create_loop_idle items :
  ∀ (db : Db) n,
    (∀ item, item ∈ items → live db (_id item)) →
    V1.create_loop items db n = (db, n).
Proof.
  induction items as [|item rest IH]; intros db n Hall; simpl; [reflexivity|].
  destruct (pageExists_live (_id item) db) as [kp ->]; [apply Hall; left|].
  apply IH. intros it Hin. apply Hall. right. exact Hin.
Qed.

Lemma create_unique item (db : Db) :
  unique_ids db → ¬ live db (_id item) →
  unique_ids (V1.createFromRaindrop item db).
Proof.
  intros Huniq Hno k1 k2 p1 p2 id H1 H2 A1 A2 I1 I2.
  apply create_inv in H1 as [H1|(N1 & _ & J1 & _)];
    apply create_inv in H2 as [H2|(N2 & _ & J2 & _)].
  - exact (Huniq k1 k2 p1 p2 id H1 H2 A1 A2 I1 I2).
  - exfalso. apply Hno. exists k1, p1. repeat split; congruence.
  - exfalso. apply Hno. exists k2, p2. repeat split; congruence.
  - congruence.
Qed.

Lemma create_loop_unique items :
  ∀ (db : Db) n, unique_ids db → unique_ids (V1.create_loop items db n).1.
Proof.
  induction items as [|item rest IH]; intros db n Huniq; simpl; [exact Huniq|].
  destruct (V1.pageExists (_id item) db) as [kp|] eqn:Ex.
  - apply IH, Huniq.
  - apply IH, create_unique; [exact Huniq|]. apply pageExists_None, Ex.
Qed.

Lemma run_inv env api (db db' : Db) rep :
  V1.run env api db = (db', Ok rep) →
  ∃ items,
    V1.fetchRecentRaindrops env api (default "" (env "RAINDROP_COLLECTION_ID")) 50
    = Ok items
    ∧ V1.checked rep = length items
    ∧ V1.create_loop items db 0 = (db', V1.created rep).
Proof.
  unfold V1.run.
  destruct (env "RAINDROP_COLLECTION_ID") as [coll|]; [|discriminate].
  destruct (negb (Js.truthy coll)); [discriminate|]. simpl.
  destruct (V1.fetchRecentRaindrops env api coll 50) as [items|]; [|discriminate].
  destruct (V1.create_loop items db 0) as [db1 n] eqn:E.
  intros [= <- <-]. exists items. auto.
Qed.

End V1Facts.

Section FirstRevision.
Import Raindrop Notion Spec Terms V1Facts.

(** [pageExists] returns nothing exactly when no live row carries the id,
    and what it returns is a live row that carries it; archived pages do not
    count. *)
Theorem pageExists_finds_a_live_row id (db : Db) :
  (V1.pageExists id db = None ↔ ¬ live db id)
  ∧ (∀ pid p, V1.pageExists id db = Some (pid, p) →
       db !! pid = Some p ∧ archived p = false ∧ RaindropID p = Some id).
Proof.
  split; [apply pageExists_None|].
  intros pid p H. exact (pageExists_Some id db (pid, p) H).
Qed.

(** A run of the first revision that returns its report has checked the
    first page of the listing: every item on it has a live row afterwards,
    the rows that were there are as they were, the database has grown by
    exactly [created] pages, and each new page is the unarchived row of a
    listed item that had no live row, without status or stored timestamp. *)
Theorem first_revision_creates_the_missing_rows env api (db db' : Db) rep :
  V1.run env api db = (db', Ok rep) →
  ∃ items,
    V1.fetchRecentRaindrops env api (default "" (env "RAINDROP_COLLECTION_ID")) 50
    = Ok items
    ∧ V1.checked rep = length items
    ∧ (∀ item, item ∈ items → live db' (_id item))
    ∧ (∀ pid p, db !! pid = Some p → db' !! pid = Some p)
    ∧ Z.of_nat (size db') = Z.of_nat (size db) + V1.created rep
    ∧ (∀ pid p, db' !! pid = Some p → db !! pid = None →
         ∃ item, item ∈ items ∧ ¬ live db (_id item)
                 ∧ RaindropID p = Some (_id item) ∧ archived p = false
                 ∧ Status p = None ∧ RaindropLastUpdate p = None).
Proof.
  intros Hrun. apply run_inv in Hrun as (items & Hfetch & Hchecked & Hloop).
  exists items. split; [exact Hfetch|]. split; [exact Hchecked|].
  destruct (create_loop_spec items db db' 0 (V1.created rep) Hloop)
    as (Hold & Hall & Hsize & Hnew).
  split; [exact Hall|]. split; [exact Hold|]. split; [lia | exact Hnew].
Qed.

(** Run again over the same listing, the first revision checks the same
    items, creates nothing and leaves the database as it is. *)
Theorem first_revision_second_run_creates_nothing env api (db db' : Db) rep :
  V1.run env api db = (db', Ok rep) →
  V1.run env api db'
  = (db', Ok {| V1.checked := V1.checked rep; V1.created := 0 |}).
Proof.
  intros Hrun. pose proof Hrun as Hinv.
  apply run_inv in Hinv as (items & Hfetch & Hchecked & Hloop).
  destruct (create_loop_spec items db db' 0 (V1.created rep) Hloop)
    as (_ & Hall & _).
  unfold V1.run in *.
  destruct (env "RAINDROP_COLLECTION_ID") as [coll|]; [|discriminate].
  destruct (negb (Js.truthy coll)); [discriminate|]. simpl in Hfetch.
  rewrite Hfetch. rewrite (create_loop_idle items db' 0 Hall).
  rewrite Hchecked. reflexivity.
Qed.

(** Whatever the listing holds (an id twice, an id that has a row) and
    however the run ends, the first revision leaves at most one live row per
    Raindrop id where there was at most one. *)
Theorem first_revision_keeps_one_row_per_id env api (db : Db) :
  unique_ids db → unique_ids (V1.run env api db).1.
Proof.
  intros Huniq. unfold V1.run.
  destruct (env "RAINDROP_COLLECTION_ID") as [coll|]; [|exact Huniq].
  destruct (negb (Js.truthy coll)); [exact Huniq|].
  destruct (V1.fetchRecentRaindrops env api coll 50) as [items|]; [|exact Huniq].
  pose proof (create_loop_unique items db 0 Huniq) as H.
  destruct (V1.create_loop items db 0). exact H.
Qed.

End FirstRevision.

Lemma unique_ids_db_of_one p : Spec.unique_ids (Scenario.db_of [p]).
Proof.
  intros k1 k2 p1 p2 id H1 H2 _ _ _ _. unfold Scenario.db_of in *. simpl in *.
  unfold Notion.pages_create in *.
  apply lookup_insert_Some in H1 as [[<- _]|[_ H1]];
    [|rewrite lookup_empty in H1; discriminate].
  apply lookup_insert_Some in H2 as [[<- _]|[_ H2]];
    [|rewrite lookup_empty in H2; discriminate].
  reflexivity.
Qed.

(** The instance: bookmarks 3, 2 and 3 again on the first page, and a
    database that has a row for bookmark 2. *)
Lemma first_revision_creates_the_missing_rows_witness :
  let api := Scenario.service
               [Scenario.bookmark 3 Scenario.noon; Scenario.bookmark 2 0;
                Scenario.bookmark 3 Scenario.noon]
               (fun _ _ => false) Scenario.no_titles Scenario.no_details in
  let db := Scenario.db_of [Scenario.row 2 None false false None] in
  ∃ db' rep,
    V1.run Scenario.default_env api db = (db', Ok rep)
    ∧ V1.checked rep = 3%nat ∧ V1.created rep = 1
    ∧ size db' = 2%nat
    ∧ Terms.live db' 3.
Proof.
  intros api db.
  evar (db' : gmap N Notion.Page). evar (rep : V1.Report).
  assert (Hrun : V1.run Scenario.default_env api db = (db', Ok rep))
    by (subst db' rep; vm_compute; reflexivity).
  destruct (first_revision_creates_the_missing_rows Scenario.default_env api
              db db' rep Hrun) as (items & Hfetch & Hchecked & Hall & _ & Hsize & _).
  assert (Hitems : items = List.map V1.normalise
                     [Scenario.bookmark 3 Scenario.noon; Scenario.bookmark 2 0;
                      Scenario.bookmark 3 Scenario.noon]).
  { assert (E : V1.fetchRecentRaindrops Scenario.default_env api "4242" 50
                = Ok (List.map V1.normalise
                        [Scenario.bookmark 3 Scenario.noon; Scenario.bookmark 2 0;
                         Scenario.bookmark 3 Scenario.noon]))
      by (vm_compute; reflexivity).
    change (default "" (Scenario.default_env "RAINDROP_COLLECTION_ID"))
      with "4242" in Hfetch.
    congruence. }
  exists db', rep. split; [exact Hrun|].
  split; [vm_compute; reflexivity|]. split; [vm_compute; reflexivity|].
  split; [vm_compute; reflexivity|].
  apply (Hall (V1.normalise (Scenario.bookmark 3 Scenario.noon))).
  rewrite Hitems. left.
Defined.

Lemma first_revision_second_run_creates_nothing_witness :
  let db := Scenario.db_of [Scenario.row 2 None false false None] in
  ∃ db' rep,
    V1.run Scenario.default_env Scenario.three db = (db', Ok rep)
    ∧ V1.created rep = 2
    ∧ V1.run Scenario.default_env Scenario.three db'
      = (db', Ok {| V1.checked := 3; V1.created := 0 |}).
Proof.
  intros db.
  evar (db' : gmap N Notion.Page). evar (rep : V1.Report).
  assert (Hrun : V1.run Scenario.default_env Scenario.three db = (db', Ok rep))
    by (subst db' rep; vm_compute; reflexivity).
  exists db', rep. split; [exact Hrun|]. split; [vm_compute; reflexivity|].
  exact (first_revision_second_run_creates_nothing Scenario.default_env
           Scenario.three db db' rep Hrun).
Defined.

Lemma first_revision_keeps_one_row_per_id_witness :
  let db := Scenario.db_of [Scenario.row 2 None false false None] in
  Spec.unique_ids (V1.run Scenario.default_env Scenario.three db).1
  ∧ size (V1.run Scenario.default_env Scenario.three db).1 = 3%nat.
Proof.
  intros db. split; [|vm_compute; reflexivity].
  apply first_revision_keeps_one_row_per_id, unique_ids_db_of_one.
Defined.

(** ** Lookups in the database *)

Module LookupFacts.
Import Raindrop Notion Spec Terms NotionFacts.

Lemma chunks_from_sub fuel size (ids : list Z) c x :
  c ∈ chunks_from fuel size ids → x ∈ c → x ∈ ids.
Proof.
  revert ids. induction fuel as [|fuel IH]; intros ids Hc Hx.
  - destruct ids; apply elem_of_nil in Hc; contradiction.
  - destruct ids as [|a l]; [apply elem_of_nil in Hc; contradiction|].
    cbn [chunks_from] in Hc. apply elem_of_cons in Hc as [->|Hc].
    + exact (subseteq_take size (a :: l) x Hx).
    + exact (subseteq_drop size (a :: l) x (IH _ Hc Hx)).
Qed.

Lemma chunks_from_concat fuel size (ids : list Z) :
  (0 < size)%nat → (length ids ≤ fuel)%nat →
  concat (chunks_from fuel size ids) = ids.
Proof.
  intros Hsize. revert ids. induction fuel as [|fuel IH]; intros ids Hlen.
  - destruct ids; [reflexivity | simpl in Hlen; lia].
  - destruct ids as [|a l]; [reflexivity|]. cbn [chunks_from concat].
    rewrite IH; [apply take_drop|].
    rewrite length_drop. cbn [length] in *. lia.
Qed.

Lemma chunks_from_nonempty fuel size (ids : list Z) c :
  (0 < size)%nat → c ∈ chunks_from fuel size ids → (0 < length c)%nat.
Proof.
  intros Hsize. revert ids. induction fuel as [|fuel IH]; intros ids Hc.
  - destruct ids; apply elem_of_nil in Hc; contradiction.
  - destruct ids as [|a l]; [apply elem_of_nil in Hc; contradiction|].
    cbn [chunks_from] in Hc. apply elem_of_cons in Hc as [->|Hc].
    + rewrite length_take. cbn [length]. lia.
    + exact (IH _ Hc).
Qed.

Lemma chunks_from_count fuel size (ids : list Z) :
  (0 < size)%nat → (length ids ≤ fuel)%nat →
  length (chunks_from fuel size ids) = ((length ids + size - 1) / size)%nat.
Proof.
  intros Hsize. revert ids. induction fuel as [|fuel IH]; intros ids Hlen.
  - destruct ids; [|simpl in Hlen; lia]. simpl.
    symmetry. apply Nat.div_small. lia.
  - destruct ids as [|a l].
    + simpl. symmetry. apply Nat.div_small. lia.
    + cbn [chunks_from length]. rewrite IH.
      2:{ rewrite length_drop. cbn [length] in *. lia. }
      rewrite length_drop. cbn [length].
      destruct (le_lt_dec (S (length l)) size) as [Hle|Hgt].
      * replace (S (length l) - size)%nat with 0%nat by lia.
        rewrite (Nat.div_small (0 + size - 1) size) by lia.
        apply (Nat.div_unique _ _ 1 (length l)); lia.
      * replace (S (length l) + size - 1)%nat
          with ((S (length l) - size + size - 1) + 1 * size)%nat by lia.
        rewrite Nat.div_add by lia. lia.
Qed.

(** Every key of the lookup result is one of the ids asked for. *)
Lemma getPages_asked (db : Db) ids id f :
  Js.get id (getPagesByRaindropIds db ids) = Some f → id ∈ ids.
Proof.
  unfold getPagesByRaindropIds, chunks.
  assert (R : ∀ chunk l out,
    (∀ kp, kp ∈ l → id_in chunk kp.2 = true) →
    is_Some (Js.get id (fold_left record_found l out)) →
    id ∈ chunk ∨ is_Some (Js.get id out)).
  { intros chunk. induction l as [|kp l IH]; intros out Hl H; simpl in H; [auto|].
    destruct (IH _ ltac:(intros kp' Hin; apply Hl; right; exact Hin) H)
      as [Hin|Hout]; [auto|].
    unfold record_found in Hout.
    destruct (RaindropID kp.2) as [idProp|] eqn:E; [|auto].
    rewrite JsFacts.get_set in Hout. destruct (id =? idProp) eqn:E'; [|auto].
    apply Z.eqb_eq in E'. subst idProp. left.
    pose proof (Hl kp ltac:(left)) as Hk. apply id_in_spec in Hk as (id' & Hid & Hc).
    congruence. }
  assert (G : ∀ cs out,
    is_Some (Js.get id (fold_left
      (fun out chunk =>
         fold_left record_found (databases_query (id_in chunk) 100 0 db).1 out)
      cs out)) →
    (∃ c, c ∈ cs ∧ id ∈ c) ∨ is_Some (Js.get id out)).
  { induction cs as [|c cs IH]; intros out H; simpl in H; [auto|].
    destruct (IH _ H) as [(c' & Hc' & Hid)|Hout].
    - left. exists c'. split; [right; exact Hc' | exact Hid].
    - apply (R c) in Hout as [Hin|Hout];
        [left; exists c; split; [left | exact Hin] | auto |].
      intros [k p] Hkp. apply elem_of_query in Hkp. simpl. tauto. }
  intros H. destruct (G _ [] ltac:(rewrite H; eauto)) as [(c & Hc & Hid)|[x Hx]].
  - exact (chunks_from_sub _ _ _ _ _ Hc Hid).
  - discriminate.
Qed.

(** A new page for an id without a live row keeps the ids unique. *)
Lemma pages_create_unique q (db : Db) id :
  RaindropID q = Some id → unique_ids db → ¬ live db id →
  unique_ids (pages_create q db).
Proof.
  intros Hq Huniq Hno k1 k2 p1 p2 id' H1 H2 A1 A2 I1 I2.
  unfold pages_create in *.
  assert (Hfresh : db !! fresh (dom db) = None)
    by (apply not_elem_of_dom, is_fresh).
  apply lookup_insert_Some in H1 as [[<- <-]|[N1 H1]];
    apply lookup_insert_Some in H2 as [[<- <-]|[N2 H2]].
  - reflexivity.
  - exfalso. apply Hno. exists k2, p2. repeat split; congruence.
  - exfalso. apply Hno. exists k1, p1. repeat split; congruence.
  - exact (Huniq k1 k2 p1 p2 id' H1 H2 A1 A2 I1 I2).
Qed.

End LookupFacts.

Section Lookups.
Import Raindrop Notion Spec Terms NotionFacts LookupFacts.
Context {date : JsDate}.

(** However many pages of a hundred the database takes, [listAllNotionRows]
    returns every live page that carries a Raindrop id exactly once, with the
    lock and the delete tracking the page has; archived pages and pages
    without an id are not listed. *)
Theorem listAllNotionRows_lists_each_live_row_once (db : Db) :
  NoDup (List.map pageId (listAllNotionRows db))
  ∧ ∀ row, row ∈ listAllNotionRows db ↔
      ∃ p, db !! pageId row = Some p ∧ archived p = false
           ∧ RaindropID p = Some (raindropId row) ∧ locked row = Lock p
           ∧ deletedFlag row = Deleted p
           ∧ deleteDetectedAt row = DeleteDetectedAt p.
Proof.
  split; [apply ReconcileFacts.NoDup_pageId_rows|].
  intros row. rewrite ReconcileFacts.elem_of_listAllNotionRows.
  split; intros (p & Hp & Ha & H); exists p; (split; [exact Hp|]);
    (split; [exact Ha|]).
  - unfold row_of in H. simpl in H.
    destruct (RaindropID p) as [id|]; simpl in H; [|discriminate].
    injection H as <-. simpl. auto.
  - destruct H as (Hid & Hl & Hd & Ht). unfold row_of. simpl. rewrite Hid. simpl.
    destruct row. simpl in *. congruence.
Qed.

(** The ids go to the database in batches of twenty-five: the batches are
    the id list cut in order, none is empty, and there are as many queries as
    the list has started twenty-fives. *)
Theorem lookup_batches (ids : list Z) :
  let batches := chunks NOTION_QUERY_CHUNK ids in
  concat batches = ids
  ∧ (∀ c, c ∈ batches → (0 < length c ≤ 25)%nat)
  ∧ length batches = ((length ids + 24) / 25)%nat.
Proof.
  unfold chunks, NOTION_QUERY_CHUNK. split; [|split].
  - apply chunks_from_concat; lia.
  - intros c Hc. split.
    + apply (chunks_from_nonempty (length ids) 25 ids c); [lia | exact Hc].
    + exact (chunks_from_length _ _ _ _ Hc).
  - rewrite chunks_from_count by lia. f_equal. lia.
Qed.

(** With at most one live row per id, [getPagesByRaindropIds] has an entry
    for an id exactly when the id was asked for and has a live row, and the
    entry is that row's page id, lock and stored timestamp. *)
Theorem lookup_finds_the_live_rows (db : Db) ids :
  unique_ids db →
  ∀ id f, Js.get id (getPagesByRaindropIds db ids) = Some f
          ↔ id ∈ ids ∧ backs db id f.
Proof.
  intros Huniq id f. split.
  - intros H. split; [exact (getPages_asked db ids id f H)|].
    exact (getPages_backs db ids id f H).
  - intros (Hin & p & Hp & Ha & Hid & Hl & Ht).
    rewrite (getPages_complete db ids id (found_pageId f) p Huniq Hp Ha Hid Hin).
    unfold found_of. destruct f. simpl in *. congruence.
Qed.

(** A row that [createFromRaindrop] has just made for an item without a
    live row is found by the next lookup under the item's id, unlocked and
    with the item's timestamp, so the upsert decision for the same item is
    "already exists"; [pageExists] finds it too, and the ids stay unique. *)
Theorem created_row_is_found_and_up_to_date item title nowIso (db : Db) ids :
  unique_ids db → ¬ live db (_id item) → _id item ∈ ids →
  let db' := createFromRaindrop item title nowIso db in
  Js.get (_id item) (getPagesByRaindropIds db' ids)
  = Some {| found_pageId := fresh (dom db);
            raindropLastUpdate := dateOrNull (Some (itemLast item));
            found_locked := false |}
  ∧ Sync.decide (getPagesByRaindropIds db' ids) item = Sync.UpToDate
  ∧ is_Some (V1.pageExists (_id item) db')
  ∧ unique_ids db'.
Proof.
  intros Huniq Hno Hin db'.
  assert (Huniq' : unique_ids db').
  { apply (pages_create_unique _ db (_id item)); [reflexivity | exact Huniq | exact Hno]. }
  assert (Hget : Js.get (_id item) (getPagesByRaindropIds db' ids)
                 = Some {| found_pageId := fresh (dom db);
                           raindropLastUpdate := dateOrNull (Some (itemLast item));
                           found_locked := false |}).
  { pose proof (λ q H, getPages_complete db' ids (_id item) (fresh (dom db)) q
                         Huniq' H) as G.
    specialize (G _ (lookup_insert_eq _ _ _)). exact (G eq_refl eq_refl Hin). }
  split; [exact Hget|]. split; [|split; [|exact Huniq']].
  - unfold Sync.decide. rewrite Hget.
    cbn [found_locked raindropLastUpdate found_pageId]. fold (itemLast item).
    rewrite newerThan_self. reflexivity.
  - apply V1Facts.pageExists_live. exists (fresh (dom db)). eexists.
    split; [apply lookup_insert_eq|]. auto.
Qed.

(** A row that the first revision made stores no timestamp: the two-pass
    sync finds it unlocked and, for any item of that id whose
    [lastUpdate || created] is not empty, decides to update it. *)
Theorem first_revision_row_is_updated item item' (db : Db) ids :
  unique_ids db → ¬ live db (_id item) →
  _id item' = _id item → _id item ∈ ids → Js.truthy (itemLast item') = true →
  Sync.decide (getPagesByRaindropIds (V1.createFromRaindrop item db) ids) item'
  = Sync.Update (fresh (dom db)).
Proof.
  intros Huniq Hno Hsame Hin Hkey.
  set (db' := V1.createFromRaindrop item db).
  assert (Huniq' : unique_ids db') by (apply V1Facts.create_unique; assumption).
  unfold Sync.decide. rewrite Hsame.
  pose proof (λ q H, getPages_complete db' ids (_id item) (fresh (dom db)) q
                       Huniq' H) as G.
  specialize (G _ (lookup_insert_eq _ _ _)). rewrite (G eq_refl eq_refl Hin).
  cbn [found_of found_locked raindropLastUpdate found_pageId Lock
       RaindropLastUpdate]. fold (itemLast item').
  rewrite newerThan_missing; [reflexivity | exact Hkey | reflexivity].
Qed.

End Lookups.

Lemma not_live_empty id : ¬ Terms.live (∅ : gmap N Notion.Page) id.
Proof. intros (pid & p & H & _). rewrite lookup_empty in H. discriminate. Qed.

Lemma unique_ids_empty : Spec.unique_ids (∅ : gmap N Notion.Page).
Proof. intros k1 k2 p1 p2 id H. rewrite lookup_empty in H. discriminate. Qed.

(** The instance: a database with the locked row of bookmark 7, asked for
    bookmarks 7 and 8. *)
Lemma lookup_finds_the_live_rows_witness :
  let db := Scenario.db_of [Scenario.row 7 (Some "2025-09-15T12:34:56.789Z")
                              true false None] in
  Spec.backs db 7 {| Notion.found_pageId := 0%N;
                     Notion.raindropLastUpdate := Some "2025-09-15T12:34:56.789Z";
                     Notion.found_locked := true |}
  ∧ Js.get 7 (Notion.getPagesByRaindropIds db [7; 8])
    = Some {| Notion.found_pageId := 0%N;
              Notion.raindropLastUpdate := Some "2025-09-15T12:34:56.789Z";
              Notion.found_locked := true |}.
Proof.
  intros db.
  assert (Hb : Spec.backs db 7
                 {| Notion.found_pageId := 0%N;
                    Notion.raindropLastUpdate := Some "2025-09-15T12:34:56.789Z";
                    Notion.found_locked := true |}).
  { eexists. split; [vm_compute; reflexivity|]. repeat split. }
  split; [exact Hb|].
  apply (lookup_finds_the_live_rows db [7; 8] (unique_ids_db_of_one _)).
  split; [left | exact Hb].
Defined.

(** The instance: bookmark 7 created in an empty database. *)
Lemma created_row_is_found_and_up_to_date_witness :
  let item := Scenario.bookmark 7 Scenario.noon in
  let db' := Notion.createFromRaindrop item None "2025-09-15T12:35:00.000Z" ∅ in
  Js.get 7 (Notion.getPagesByRaindropIds db' [7])
  = Some {| Notion.found_pageId := 0%N;
            Notion.raindropLastUpdate := Some "2025-09-15T12:34:56.789Z";
            Notion.found_locked := false |}
  ∧ Sync.decide (date := IsoDate.instance)
      (Notion.getPagesByRaindropIds db' [7]) item = Sync.UpToDate.
Proof.
  intros item db'.
  destruct (created_row_is_found_and_up_to_date (date := IsoDate.instance)
              item None "2025-09-15T12:35:00.000Z" ∅ [7]
              unique_ids_empty (not_live_empty _) ltac:(left))
    as (W1 & W2 & _).
  split; [exact W1 | exact W2].
Defined.

(** The instance: bookmark 7 as the first revision stored it, and the same
    bookmark seen by the two-pass sync. *)
Lemma first_revision_row_is_updated_witness :
  let item := Scenario.bookmark 7 Scenario.noon in
  Js.truthy (Spec.itemLast item) = true
  ∧ Sync.decide (date := IsoDate.instance)
      (Notion.getPagesByRaindropIds (V1.createFromRaindrop item ∅) [7]) item
    = Sync.Update 0%N.
Proof.
  intros item. split; [reflexivity|].
  exact (first_revision_row_is_updated (date := IsoDate.instance) item item ∅ [7]
           unique_ids_empty (not_live_empty _) eq_refl ltac:(left) eq_refl).
Defined.

(** ** What the reconciliation writes *)

Module ReconcileWrites.
Import Raindrop Notion Spec Terms ReconcileFacts RowFacts.

#[local] Arguments Reconcile.at_least : simpl never.

Section WithDate.
Context {date : JsDate}.

(** A row's iteration patches the row's page or leaves it: whatever it
    does, the mirrored fields stay. *)
Lemma reconcile_row_kept env api k ids now row (db : Db) l pid :
  reconcile_kept <$> (Reconcile.reconcile_row env api k ids now row db l).1 !! pid
  = reconcile_kept <$> db !! pid.
Proof.
  destruct (decide (pid = pageId row)) as [->|Hne];
    [|rewrite reconcile_row_other by exact Hne; reflexivity].
  unfold Reconcile.reconcile_row,
    clearDeleteFlags, updateCollectionOnly, markDeleteDetected, archivePage,
    pages_update.
  repeat case_match; simpl; rewrite ?lookup_alter_eq;
    destruct (db !! pageId row); reflexivity.
Qed.

Lemma reconcile_loop_kept env api k ids clock rows :
  ∀ i (db : Db) l pid,
    reconcile_kept <$> (Reconcile.reconcile_loop env api k ids clock i rows db l).1 !! pid
    = reconcile_kept <$> db !! pid.
Proof.
  induction rows as [|row rest IH]; intros i db l pid; simpl; [reflexivity|].
  pose proof (reconcile_row_kept env api k ids (clock i) row db l pid) as E.
  destruct (Reconcile.reconcile_row env api k ids (clock i) row db l)
    as [db1 [l1|msg]]; simpl in E |- *; [|exact E].
  rewrite IH. exact E.
Qed.

(** The one way an iteration archives a page that was not archived. *)
Lemma reconcile_row_archives env api k ids now row (db : Db) l q q' :
  db !! pageId row = Some q → archived q = false →
  (Reconcile.reconcile_row env api k ids now row db l).1 !! pageId row = Some q' →
  archived q' = true →
  Reconcile.dryRun k = false ∧ Reconcile.DELETE_MODE k = "archive"
  ∧ locked row = false ∧ deletedFlag row = true
  ∧ (raindropId row ∉ ids) ∧ reported_missing env api (raindropId row)
  ∧ ∃ s t0, deleteDetectedAt row = Some s ∧ getTime s = Some t0
            ∧ Reconcile.DELETE_GRACE_HOURS k * 3600000 ≤ now - t0.
Proof.
  intros Hq Ha Hq' Ha'.
  assert (K0 : db !! pageId row = Some q' → False) by congruence.
  assert (K1 : ∀ f : Page → Page, (∀ x, archived (f x) = archived x) →
            alter f (pageId row) db !! pageId row = Some q' → False).
  { intros f Hf E. rewrite lookup_alter_eq, Hq in E. simpl in E.
    injection E as <-. rewrite Hf in Ha'. congruence. }
  assert (K2 : ∀ f g : Page → Page,
            (∀ x, archived (f x) = archived x) → (∀ x, archived (g x) = archived x) →
            alter g (pageId row) (alter f (pageId row) db) !! pageId row = Some q' →
            False).
  { intros f g Hf Hg E. rewrite !lookup_alter_eq, Hq in E. simpl in E.
    injection E as <-. rewrite Hg, Hf in Ha'. congruence. }
  unfold Reconcile.reconcile_row,
    clearDeleteFlags, updateCollectionOnly, markDeleteDetected, pages_update in Hq'.
  destruct (bool_decide (raindropId row ∈ ids)) eqn:Ein.
  { exfalso. destruct (deletedFlag row), (Reconcile.dryRun k); simpl in Hq';
      first [ exact (K0 Hq')
            | eapply K1; [|exact Hq']; intros; reflexivity ]. }
  apply bool_decide_eq_false in Ein.
  destruct (fetchRaindropDetail env api (raindropId row)) as [d|msg] eqn:Ed;
    [|exfalso; exact (K0 Hq')].
  destruct (exists_ d && negb (default false (removed d))) eqn:Epres.
  { exfalso.
    destruct (locked row), (deletedFlag row), (Reconcile.dryRun k); simpl in Hq';
      first [ exact (K0 Hq')
            | eapply K1; [|exact Hq']; intros; reflexivity
            | eapply K2; [| |exact Hq']; intros; reflexivity ]. }
  destruct (negb (deletedFlag row) || negb (Js.truthy_opt (deleteDetectedAt row)))
    eqn:Efirst.
  { exfalso. destruct (Reconcile.dryRun k); simpl in Hq';
      first [ exact (K0 Hq')
            | eapply K1; [|exact Hq']; intros; reflexivity ]. }
  apply orb_false_iff in Efirst as [Eflag Eat].
  apply negb_false_iff in Eflag, Eat.
  destruct (deleteDetectedAt row) as [s|] eqn:Es; [|discriminate].
  simpl in Eat.
  destruct (Reconcile.at_least (Reconcile.hoursSince now (Some s))
              (Reconcile.DELETE_GRACE_HOURS k)) eqn:Eage;
    [|exfalso; exact (K0 Hq')].
  destruct (String.eqb (Reconcile.DELETE_MODE k) "archive" && negb (locked row))
    eqn:Emode; [|exfalso; exact (K0 Hq')].
  apply andb_true_iff in Emode as [Emode Elock].
  apply String.eqb_eq in Emode. apply negb_true_iff in Elock.
  destruct (Reconcile.dryRun k) eqn:Edry; [exfalso; exact (K0 Hq')|].
  repeat (split; [first [reflexivity | assumption]|]).
  split; [exists d; auto|].
  unfold Reconcile.hoursSince in Eage. rewrite Eat in Eage. simpl in Eage.
  destruct (getTime s) as [t0|] eqn:Et; [|discriminate].
  rewrite at_least_hours in Eage. apply Z.leb_le in Eage.
  exists s, t0. auto.
Qed.

(** A property of one page that every iteration keeps, each iteration at
    its own reading of the clock, holds when the loop ends. *)
Lemma reconcile_loop_invariant_at env api k ids clock (Q : option Page → Prop) pid :
  ∀ rows i (db : Db) l,
    (∀ row j db0 l0, row ∈ rows → pageId row = pid → Q (db0 !! pid) →
       Q ((Reconcile.reconcile_row env api k ids (clock j) row db0 l0).1 !! pid)) →
    Q (db !! pid) →
    Q ((Reconcile.reconcile_loop env api k ids clock i rows db l).1 !! pid).
Proof.
  induction rows as [|row rest IH]; intros i db l Hstep HQ; simpl.
  - exact HQ.
  - assert (HQ' : Q ((Reconcile.reconcile_row env api k ids (clock i) row db l).1 !! pid)).
    { destruct (decide (pageId row = pid)) as [E|E].
      - apply Hstep; [left | exact E | exact HQ].
      - rewrite reconcile_row_other by congruence. exact HQ. }
    destruct (Reconcile.reconcile_row env api k ids (clock i) row db l)
      as [db' [l'|msg]]; simpl in *.
    + apply IH; [|exact HQ']. intros row' j db0 l0 Hin. apply Hstep. right. exact Hin.
    + exact HQ'.
Qed.

(** The same with the position of the row: the row at position [n] of
    [rows] is handled at the clock reading [clock (i + n)]. *)
Lemma reconcile_loop_invariant_pos env api k ids clock (Q : option Page → Prop) pid :
  ∀ rows i (db : Db) l,
    (∀ row n db0 l0, rows !! n = Some row → pageId row = pid → Q (db0 !! pid) →
       Q ((Reconcile.reconcile_row env api k ids (clock (i + n)%nat) row db0 l0).1
          !! pid)) →
    Q (db !! pid) →
    Q ((Reconcile.reconcile_loop env api k ids clock i rows db l).1 !! pid).
Proof.
  induction rows as [|row rest IH]; intros i db l Hstep HQ; simpl.
  - exact HQ.
  - assert (HQ' : Q ((Reconcile.reconcile_row env api k ids (clock i) row db l).1 !! pid)).
    { destruct (decide (pageId row = pid)) as [E|E].
      - specialize (Hstep row 0%nat db l eq_refl E HQ).
        rewrite Nat.add_0_r in Hstep. exact Hstep.
      - rewrite reconcile_row_other by congruence. exact HQ. }
    destruct (Reconcile.reconcile_row env api k ids (clock i) row db l)
      as [db' [l'|msg]]; simpl in *.
    + apply IH; [|exact HQ']. intros row' n db0 l0 Hn.
      specialize (Hstep row' (S n) db0 l0 Hn).
      rewrite Nat.add_succ_r in Hstep. exact Hstep.
    + exact HQ'.
Qed.

End WithDate.
End ReconcileWrites.

Section ReconcileWritesOnly.
Import Raindrop Notion Spec Terms ReconcileFacts RowFacts ReconcileWrites.
Context {date : JsDate}.

(** However a reconciliation ends, it has created no page and removed none,
    and on every page the title, the URL, the tags, the excerpt, the notes,
    the site, the creation date, the Raindrop id, the stored timestamp and
    the lock are what they were. *)
Theorem reconciliation_keeps_the_mirrored_fields env api query clock (db : Db) :
  ∀ pid, reconcile_kept <$> (Reconcile.run env api query clock db).1 !! pid
         = reconcile_kept <$> db !! pid.
Proof.
  intros pid. unfold Reconcile.run.
  destruct (env "RAINDROP_COLLECTION_ID") as [coll|]; [|reflexivity].
  destruct (negb (Js.truthy coll)); [reflexivity|].
  destruct (Reconcile.enumerate _ _ _ _ _ _ _) as [[ids n]|]; [|reflexivity].
  pose proof (reconcile_loop_kept env api (Reconcile.knobs env query) ids clock
                (listAllNotionRows db) 0 db Reconcile.lists_start pid) as E.
  destruct (Reconcile.reconcile_loop _ _ _ _ _ _ _ _ _). exact E.
Qed.

(** A page that a reconciliation archives was, when the run began, the
    unlocked row of an id that the listing does not hold and the detail check
    does not report present, flagged deleted with a detection timestamp that
    parses and lies at least the grace period before the clock reading of its
    own iteration, the one at its position [i] among the rows listed; and the
    run is a real one in mode [archive]. *)
Theorem archived_only_after_the_grace_period
    env api query clock (db : Db) pid p p' :
  db !! pid = Some p → archived p = false →
  (Reconcile.run env api query clock db).1 !! pid = Some p' →
  archived p' = true →
  let k := Reconcile.knobs env query in
  Reconcile.dryRun k = false ∧ Reconcile.DELETE_MODE k = "archive"
  ∧ Lock p = false ∧ Deleted p = true
  ∧ ∃ id ids s t0 i row,
      RaindropID p = Some id ∧ listed_ids env api query = Some ids ∧ (id ∉ ids)
      ∧ reported_missing env api id
      ∧ DeleteDetectedAt p = Some s ∧ getTime s = Some t0
      ∧ listAllNotionRows db !! i = Some row ∧ pageId row = pid
      ∧ Reconcile.DELETE_GRACE_HOURS k * 3600000 ≤ clock i - t0.
Proof.
  intros Hp Ha Hp' Ha' k.
  assert (Hsame : db !! pid = Some p' → False) by congruence.
  unfold Reconcile.run in Hp'. unfold listed_ids.
  destruct (env "RAINDROP_COLLECTION_ID") as [coll|];
    [|exfalso; exact (Hsame Hp')].
  destruct (negb (Js.truthy coll)); [exfalso; exact (Hsame Hp')|]. simpl.
  fold k in Hp' |- *.
  destruct (Reconcile.enumerate env api coll k _ _ _) as [[ids n]|];
    [|exfalso; exact (Hsame Hp')].
  set (Cond :=
    Reconcile.dryRun k = false ∧ Reconcile.DELETE_MODE k = "archive"
    ∧ Lock p = false ∧ Deleted p = true
    ∧ ∃ id s t0 i row,
        RaindropID p = Some id ∧ (id ∉ ids) ∧ reported_missing env api id
        ∧ DeleteDetectedAt p = Some s ∧ getTime s = Some t0
        ∧ listAllNotionRows db !! i = Some row ∧ pageId row = pid
        ∧ Reconcile.DELETE_GRACE_HOURS k * 3600000 ≤ clock i - t0).
  pose proof (reconcile_loop_invariant_pos env api k ids clock
    (fun o => ∃ q, o = Some q ∧ (archived q = true → Cond)) pid
    (listAllNotionRows db) 0 db Reconcile.lists_start) as Inv.
  destruct (Reconcile.reconcile_loop env api k ids clock 0 (listAllNotionRows db)
              db Reconcile.lists_start) as [db' r].
  simpl in Inv, Hp'.
  assert (Hfinal : ∃ q, db' !! pid = Some q ∧ (archived q = true → Cond)).
  { apply Inv; [|exists p; split; [exact Hp | congruence]].
    intros row j db0 l0 Hj Hpid (q & Hq & HC).
    pose proof (list_elem_of_lookup_2 _ _ _ Hj) as Hin.
    apply elem_of_listAllNotionRows in Hin as (p0 & Hp0 & _ & Hrow).
    rewrite Hpid, Hp in Hp0. injection Hp0 as <-.
    pose proof (reconcile_row_kept env api k ids (clock j) row db0 l0 pid) as Ek.
    rewrite Hq in Ek. simpl in Ek.
    destruct ((Reconcile.reconcile_row env api k ids (clock j) row db0 l0).1 !! pid)
      as [q1|] eqn:Eq1; [|discriminate].
    exists q1. split; [reflexivity|]. intros Hq1.
    destruct (archived q) eqn:Eaq; [exact (HC eq_refl)|].
    rewrite <- Hpid in Hq, Eq1.
    destruct (reconcile_row_archives env api k ids (clock j) row db0 l0 q q1
                Hq Eaq Eq1 Hq1)
      as (D1 & D2 & D3 & D4 & D5 & D6 & s & t0 & D7 & D8 & D9).
    unfold row_of in Hrow. simpl in Hrow.
    destruct (RaindropID p) as [id|] eqn:Eid; simpl in Hrow; [|discriminate].
    injection Hrow as Hrow.
    assert (F1 : raindropId row = id) by (rewrite <- Hrow; reflexivity).
    assert (F2 : locked row = Lock p) by (rewrite <- Hrow; reflexivity).
    assert (F3 : deletedFlag row = Deleted p) by (rewrite <- Hrow; reflexivity).
    assert (F4 : deleteDetectedAt row = DeleteDetectedAt p)
      by (rewrite <- Hrow; reflexivity).
    rewrite F1 in D5, D6. rewrite F2 in D3. rewrite F3 in D4. rewrite F4 in D7.
    unfold Cond. repeat (split; [assumption|]).
    exists id, s, t0, j, row.
    repeat (split; [first [assumption | reflexivity]|]). assumption. }
  destruct Hfinal as (q & Hq & HC).
  assert (q = p') as -> by congruence.
  destruct (HC Ha')
    as (C1 & C2 & C3 & C4 & id & s & t0 & i & row & C5 & C6 & C7 & C8 & C9 & C10).
  repeat (split; [assumption|]). exists id, ids, s, t0, i, row.
  split; [assumption|]. split; [reflexivity|].
  repeat (split; [assumption|]). assumption.
Qed.

End ReconcileWritesOnly.

(** ** What the reconciliation reports *)

Module TallyFacts.
Import Raindrop Notion Spec Tally.

Section WithDate.
Context {date : JsDate}.

Lemma resolved_push_moved id l :
  resolved (Reconcile.push_moved id l) ≡ₚ id :: resolved l.
Proof.
  unfold resolved. simpl. rewrite <- app_assoc. simpl.
  symmetry. apply Permutation_middle.
Qed.

Lemma resolved_push_deleteDetected id l :
  resolved (Reconcile.push_deleteDetected id l) ≡ₚ id :: resolved l.
Proof.
  unfold resolved. simpl. rewrite <- !app_assoc. simpl.
  rewrite (Permutation_middle (Reconcile.moved l)).
  apply Permutation_app_head. symmetry. apply Permutation_middle.
Qed.

Lemma resolved_push_deleteArchivedNow id l :
  resolved (Reconcile.push_deleteArchivedNow id l) ≡ₚ id :: resolved l.
Proof.
  unfold resolved. simpl. rewrite <- !app_assoc. simpl.
  rewrite (Permutation_middle (Reconcile.moved l)).
  apply Permutation_app_head.
  rewrite (Permutation_middle (Reconcile.deleteDetected l)).
  apply Permutation_app_head. symmetry. apply Permutation_middle.
Qed.

Lemma resolved_push_skippedLocked id l :
  resolved (Reconcile.push_skippedLocked id l) ≡ₚ id :: resolved l.
Proof.
  unfold resolved. simpl.
  rewrite (Permutation_middle (Reconcile.moved l)).
  apply Permutation_app_head.
  rewrite (Permutation_middle (Reconcile.deleteDetected l)).
  apply Permutation_app_head.
  rewrite (Permutation_middle (Reconcile.deleteArchivedNow l)).
  apply Permutation_app_head. symmetry. apply Permutation_cons_append.
Qed.

Lemma resolved_push_clearedFlags id l :
  resolved (Reconcile.push_clearedFlags id l) = resolved l.
Proof. reflexivity. Qed.

(** One iteration that gets through: a row with a listed id adds nothing to
    the four lists, any other row adds its id to one of them. *)
Lemma reconcile_row_resolved env api k ids now row (db db' : Db) l l' :
  Reconcile.reconcile_row env api k ids now row db l = (db', Ok l') →
  resolved l' ≡ₚ
  (if bool_decide (raindropId row ∈ ids) then [] else [raindropId row])
  ++ resolved l.
Proof.
  unfold Reconcile.reconcile_row.
  destruct (bool_decide (raindropId row ∈ ids)).
  { destruct (deletedFlag row); intros [= _ <-]; reflexivity. }
  destruct (fetchRaindropDetail env api (raindropId row)) as [d|msg];
    [|discriminate].
  repeat case_match; intros [= _ <-]; simpl;
    rewrite ?resolved_push_clearedFlags;
    first [ apply resolved_push_moved | apply resolved_push_deleteDetected
          | apply resolved_push_deleteArchivedNow
          | apply resolved_push_skippedLocked ].
Qed.

Lemma reconcile_loop_resolved env api k ids clock rows :
  ∀ i (db db' : Db) l l',
    Reconcile.reconcile_loop env api k ids clock i rows db l = (db', Ok l') →
    resolved l' ≡ₚ List.map raindropId (absent ids rows) ++ resolved l.
Proof.
  induction rows as [|row rest IH]; intros i db db' l l' Hrun; simpl in Hrun.
  - injection Hrun as _ <-. reflexivity.
  - destruct (Reconcile.reconcile_row env api k ids (clock i) row db l)
      as [db1 [l1|msg]] eqn:Estep; [|discriminate].
    rewrite (IH _ _ _ _ _ Hrun).
    rewrite (reconcile_row_resolved _ _ _ _ _ _ _ _ _ _ Estep).
    unfold absent. simpl.
    destruct (bool_decide (raindropId row ∈ ids)); simpl; [reflexivity|].
    symmetry. apply Permutation_middle.
Qed.

End WithDate.
End TallyFacts.

Section ReconcileReport.
Import Raindrop Notion Spec Tally TallyFacts.
Context {date : JsDate}.

(** A reconciliation that returns its report has put every row whose id the
    enumeration did not return into exactly one of [moved], [deleteDetected],
    [deleteArchivedNow] and [skippedLocked], and no other id into any of
    them; the totals are the rows listed and the ids enumerated. *)
Theorem every_absent_row_is_resolved_once env api query clock (db db' : Db) rep :
  Reconcile.run env api query clock db = (db', Ok rep) →
  ∃ ids,
    listed_ids env api query = Some ids
    ∧ Reconcile.r_raindropIds rep = size ids
    ∧ Reconcile.r_notionRows rep = length (listAllNotionRows db)
    ∧ resolved (Reconcile.r_results rep)
      ≡ₚ List.map raindropId (absent ids (listAllNotionRows db)).
Proof.
  unfold Reconcile.run, listed_ids.
  destruct (env "RAINDROP_COLLECTION_ID") as [coll|]; [|discriminate].
  destruct (negb (Js.truthy coll)); [discriminate|]. simpl.
  destruct (Reconcile.enumerate _ _ _ _ _ _ _) as [[ids n]|]; [|discriminate].
  destruct (Reconcile.reconcile_loop _ _ _ _ _ _ _ _ _) as [db1 [l|msg]] eqn:Eloop;
    simpl; [|discriminate].
  intros [= <- <-]. exists ids. simpl. repeat split.
  rewrite (reconcile_loop_resolved _ _ _ _ _ _ _ _ _ _ _ Eloop).
  unfold resolved. simpl. rewrite app_nil_r. reflexivity.
Qed.

End ReconcileReport.

Section StatusOnDetection.
Import Raindrop Notion Spec Terms ReconcileFacts RowFacts.
Context {date : JsDate}.

#[local] Arguments Reconcile.knobs : simpl never.

(** The status select is written by the first detection, not by the
    archiving: the real run that first misses the item of a live, unflagged
    row sets the status of an unlocked row to "Archived" at once (whatever
    the delete mode and before any grace period has passed) and leaves the
    page itself unarchived; when the item is listed again, the next run
    clears the flag and the detection timestamp and leaves the status where
    the detection put it.  A locked row keeps its status throughout.
    The mirrored fields and the collection are as before. *)
Theorem first_detection_sets_the_status
    env gone back query t1 t2 (db : Db) pid p id gone_ids back_ids :
  Js.truthy_opt (env "RAINDROP_COLLECTION_ID") = true →
  Reconcile.dryRun (Reconcile.knobs env query) = false →
  db !! pid = Some p → archived p = false → RaindropID p = Some id →
  Deleted p = false →
  listed_ids env gone query = Some gone_ids → id ∉ gone_ids →
  reported_missing env gone id → details_answered env gone →
  listed_ids env back query = Some back_ids → id ∈ back_ids →
  details_answered env back →
  let flagged := (Reconcile.run env gone query (fun _ => t1) db).1 in
  let cleared := (Reconcile.run env back query (fun _ => t2) flagged).1 in
  ∃ p1 p2,
    flagged !! pid = Some p1 ∧ cleared !! pid = Some p2
    ∧ Status p1 = (if Lock p then Status p else Some "Archived")
    ∧ Deleted p1 = true ∧ archived p1 = false
    ∧ Status p2 = Status p1
    ∧ Deleted p2 = false ∧ DeleteDetectedAt p2 = None ∧ archived p2 = false
    ∧ reconcile_kept p2 = reconcile_kept p ∧ Collection p2 = Collection p.
Proof.
  intros Hcoll Hreal Hp Ha Hid Hdel Hgone Hnotin Hmiss Hans Hback Hin Hans'
    flagged cleared.
  destruct (run_at env gone query t1 db gone_ids pid p _
              Hgone Hcoll Hans Hp Ha (row_of_Some pid p id Hid)) as [_ E1].
  rewrite row_first_detection in E1; simpl; try assumption.
  2:{ rewrite Hdel. reflexivity. }
  rewrite Hreal in E1. simpl in E1. unfold markDeleteDetected, pages_update in E1.
  rewrite lookup_alter_eq, Hp in E1. simpl in E1. fold flagged in E1.
  set (p1 := patch_deleteDetected _ _ _ p) in E1.
  destruct (run_at env back query t2 flagged back_ids pid p1 _
              Hback Hcoll Hans' E1 Ha (row_of_Some pid p1 id Hid)) as [_ E2].
  rewrite row_listed in E2 by exact Hin. rewrite Hreal in E2.
  simpl in E2. unfold clearDeleteFlags, pages_update in E2.
  rewrite lookup_alter_eq, E1 in E2. simpl in E2. fold cleared in E2.
  eexists _, _. split; [exact E1|]. split; [exact E2|].
  subst p1. simpl. destruct (Lock p); simpl; repeat split; assumption.
Qed.

End StatusOnDetection.

(** The instance: the unlocked row of bookmark 7, which leaves the
    collection and is listed again four hours later. *)
Lemma first_detection_sets_the_status_witness :
  let db := Scenario.db_of [Scenario.row 7 None false false None] in
  let run api t db :=
    (Reconcile.run (date := IsoDate.instance) Scenario.default_env api
       Scenario.no_query (fun _ => t) db).1 in
  let flagged := run Scenario.emptied (Scenario.noon + Spec.hours 1) db in
  let cleared := run Scenario.listing_seven (Scenario.noon + Spec.hours 5) flagged in
  Spec.listed_ids Scenario.default_env Scenario.emptied Scenario.no_query = Some ∅
  ∧ Spec.listed_ids Scenario.default_env Scenario.listing_seven Scenario.no_query
    = Some {[7]}
  ∧ ∃ p1 p2,
      flagged !! 0%N = Some p1 ∧ cleared !! 0%N = Some p2
      ∧ Notion.Status p1 = Some "Archived" ∧ Notion.archived p1 = false
      ∧ Notion.Status p2 = Some "Archived" ∧ Notion.Deleted p2 = false
      ∧ Notion.archived p2 = false.
Proof.
  intros db run flagged cleared.
  assert (Hans : ∀ api, Raindrop.raindrop api = Scenario.no_details →
                        Spec.details_answered Scenario.default_env api).
  { intros api E id. unfold Raindrop.fetchRaindropDetail. rewrite E.
    eexists. reflexivity. }
  assert (Hgone : Spec.listed_ids Scenario.default_env Scenario.emptied
                    Scenario.no_query = Some ∅) by (vm_compute; reflexivity).
  assert (Hback : Spec.listed_ids Scenario.default_env Scenario.listing_seven
                    Scenario.no_query = Some {[7]}) by (vm_compute; reflexivity).
  assert (Hmiss : Spec.reported_missing Scenario.default_env Scenario.emptied 7)
    by (eexists; split; reflexivity).
  pose proof (first_detection_sets_the_status (date := IsoDate.instance)
    Scenario.default_env Scenario.emptied Scenario.listing_seven
    Scenario.no_query (Scenario.noon + Spec.hours 1) (Scenario.noon + Spec.hours 5)
    db 0%N (Scenario.row 7 None false false None) 7 ∅ {[7]}
    eq_refl eq_refl eq_refl eq_refl eq_refl eq_refl
    Hgone (not_elem_of_empty 7) Hmiss (Hans Scenario.emptied eq_refl)
    Hback (proj2 (elem_of_singleton 7 7) eq_refl)
    (Hans Scenario.listing_seven eq_refl)) as W.
  destruct W as (p1 & p2 & W1 & W2 & W3 & _ & W4 & W5 & W6 & _ & W7 & _).
  split; [vm_compute; reflexivity|]. split; [vm_compute; reflexivity|].
  exists p1, p2. split; [exact W1|]. split; [exact W2|].
  split; [exact W3|]. split; [exact W4|].
  split; [rewrite W5; exact W3|]. split; [exact W6 | exact W7].
Defined.

(** The instance: the unlocked rows of bookmarks 7 and 8, both flagged at
    noon, and a run over an empty collection that reads the clock at
    twenty-three hours past noon for the first row listed and at twenty-five
    hours for the second: the second alone is archived. *)
Lemma archived_only_after_the_grace_period_witness :
  let flagged id := Scenario.row id None false true
                      (Some (IsoDate.print Scenario.noon)) in
  let db := Scenario.db_of [flagged 7; flagged 8] in
  let clock := fun i : nat => Scenario.noon + Spec.hours (23 + 2 * Z.of_nat i) in
  let db' := (Reconcile.run (date := IsoDate.instance) Scenario.default_env
                Scenario.emptied Scenario.no_query clock db).1 in
  Notion.pageId <$> Notion.listAllNotionRows db = [1%N; 0%N]
  ∧ Notion.archived <$> db' !! 1%N = Some false
  ∧ ∃ p', db' !! 0%N = Some p' ∧ Notion.archived p' = true
          ∧ ∃ t0 i row, Notion.listAllNotionRows db !! i = Some row
                        ∧ Notion.pageId row = 0%N
                        ∧ 24 * 3600000 ≤ clock i - t0.
Proof.
  intros flagged db clock db'.
  destruct (db' !! 0%N) as [p'|] eqn:Hp'; [|vm_compute in Hp'; discriminate].
  assert (Ha' : Notion.archived p' = true).
  { pose proof Hp' as Hc. vm_compute in Hc. injection Hc as <-. reflexivity. }
  assert (Hp : db !! 0%N = Some (flagged 7)) by (vm_compute; reflexivity).
  pose proof (archived_only_after_the_grace_period (date := IsoDate.instance)
    Scenario.default_env Scenario.emptied Scenario.no_query clock db 0%N
    (flagged 7) p' Hp eq_refl Hp' Ha') as W.
  destruct W
    as (_ & _ & _ & _ & id & ids & s & t0 & i & row & _ & _ & _ & _ & _ & _
        & W1 & W2 & W3).
  split; [vm_compute; reflexivity|].
  split; [vm_compute; reflexivity|].
  exists p'. split; [reflexivity|]. split; [exact Ha'|].
  exists t0, i, row. split; [exact W1|]. split; [exact W2 | exact W3].
Defined.

(** The instance: the rows of bookmarks 7 and 8 against a listing that holds
    bookmark 7 only. *)
Lemma every_absent_row_is_resolved_once_witness :
  let db := Scenario.db_of [Scenario.row 7 None false false None;
                            Scenario.row 8 None false false None] in
  ∃ db' rep,
    Reconcile.run (date := IsoDate.instance) Scenario.default_env
      Scenario.listing_seven Scenario.no_query Scenario.at_noon db = (db', Ok rep)
    ∧ Tally.resolved (Reconcile.r_results rep) ≡ₚ [8]
    ∧ Reconcile.deleteDetected (Reconcile.r_results rep) = [8].
Proof.
  intros db.
  evar (db' : gmap N Notion.Page). evar (rep : Reconcile.Report).
  assert (Hrun : Reconcile.run (date := IsoDate.instance) Scenario.default_env
                   Scenario.listing_seven Scenario.no_query Scenario.at_noon db
                 = (db', Ok rep))
    by (subst db' rep; vm_compute; reflexivity).
  destruct (every_absent_row_is_resolved_once (date := IsoDate.instance)
              Scenario.default_env Scenario.listing_seven Scenario.no_query
              Scenario.at_noon db db' rep Hrun) as (ids & Hids & _ & _ & W).
  assert (E : ids = {[7]}).
  { assert (E : Spec.listed_ids Scenario.default_env Scenario.listing_seven
                  Scenario.no_query = Some {[7]}) by (vm_compute; reflexivity).
    congruence. }
  exists db', rep. split; [exact Hrun|]. split; [|vm_compute; reflexivity].
  rewrite W, E. vm_compute. reflexivity.
Defined.

(** ** What the sync writes and reports *)

Module SyncWrites.
Import Raindrop Notion Spec Terms SyncFacts.

#[local] Arguments Sync.write : simpl never.
#[local] Arguments Sync.record : simpl never.
#[local] Arguments Sync.resolveTitle : simpl never.

Section WithDate.
Context {date : JsDate}.

Lemma write_kept dry d item title nowIso (db : Db) pid :
  is_Some (db !! pid) →
  sync_kept <$> Sync.write dry d item title nowIso db !! pid
  = sync_kept <$> db !! pid.
Proof.
  intros Hin. destruct dry; [reflexivity|].
  destruct (decide (d = Sync.Update pid)) as [->|Hd].
  - rewrite write_update. destruct (db !! pid); reflexivity.
  - rewrite write_other by assumption. reflexivity.
Qed.

Lemma upsert_loop_kept env api coll dry existing dt clock cands :
  ∀ i (db : Db) t pid,
    is_Some (db !! pid) →
    sync_kept <$> (Sync.upsert_loop env api coll dry existing dt clock i cands db t).1
                  !! pid
    = sync_kept <$> db !! pid.
Proof.
  induction cands as [|item rest IH]; intros i db t pid Hin; simpl; [reflexivity|].
  destruct (Sync.resolveTitle env api coll dt item) as [title|]; simpl;
    [|reflexivity].
  rewrite IH by (apply write_is_Some; exact Hin).
  apply write_kept. exact Hin.
Qed.

Lemma write_size d item title nowIso (db : Db) :
  size (Sync.write false d item title nowIso db)
  = (size db + if is_create d then 1 else 0)%nat.
Proof.
  unfold Sync.write. destruct d as [| |pid|]; simpl; try lia.
  - unfold createFromRaindrop, pages_create.
    rewrite map_size_insert_None by (apply not_elem_of_dom, is_fresh). lia.
  - unfold updateFromRaindrop, pages_update.
    rewrite <- !size_dom, dom_alter_L. lia.
Qed.

Lemma upsert_loop_size env api coll existing dt clock cands :
  ∀ i (db db' : Db) t t',
    Sync.upsert_loop env api coll false existing dt clock i cands db t = (db', Ok t') →
    size db' = (size db + length (ids_where is_create existing cands))%nat.
Proof.
  induction cands as [|item rest IH]; intros i db db' t t' Hrun; simpl in Hrun.
  - injection Hrun as <- _. unfold ids_where. simpl. lia.
  - destruct (Sync.resolveTitle env api coll dt item) as [title|]; [|discriminate].
    rewrite (IH _ _ _ _ _ Hrun), write_size, ids_where_cons, length_app.
    destruct (is_create (Sync.decide existing item)); simpl; lia.
Qed.

(** The three outcomes split the candidates. *)
Lemma ids_where_split existing cands :
  ids_where is_create existing cands ++ ids_where is_update existing cands
  ++ ids_where is_existing existing cands
  ≡ₚ List.map _id cands.
Proof.
  induction cands as [|item rest IH]; [reflexivity|].
  rewrite !ids_where_cons. simpl.
  destruct (Sync.decide existing item); simpl.
  - constructor. exact IH.
  - rewrite <- IH, !app_assoc. symmetry. apply Permutation_middle.
  - rewrite <- IH. rewrite (Permutation_middle (ids_where is_create existing rest)).
    reflexivity.
  - rewrite <- IH, !app_assoc. symmetry. apply Permutation_middle.
Qed.

Lemma ids_where_locked_sublist existing cands :
  ids_where is_locked existing cands `sublist_of` ids_where is_existing existing cands.
Proof.
  induction cands as [|item rest IH]; [constructor|].
  rewrite !ids_where_cons.
  destruct (Sync.decide existing item); simpl;
    first [exact IH | apply sublist_skip; exact IH | apply sublist_cons; exact IH].
Qed.

End WithDate.
End SyncWrites.

Section SyncReport.
Import Raindrop Notion Spec Terms SyncFacts SyncWrites.
Context {date : JsDate}.

(** However a sync ends, it has removed no page, and on every page that was
    there the archived state, the Raindrop id, the status, the lock and the
    delete tracking are what they were: an update rewrites the mirrored
    content and nothing else. *)
Theorem sync_keeps_status_lock_and_flags env api query now clock (db : Db) pid :
  is_Some (db !! pid) →
  sync_kept <$> (Sync.run env api query now clock db).1 !! pid
  = sync_kept <$> db !! pid.
Proof.
  intros Hin. rewrite run_db.
  destruct (Sync.plan env api query now db) as [pl|]; [|reflexivity].
  apply upsert_loop_kept. exact Hin.
Qed.

(** A sync that returns its report has put every candidate into exactly one
    of created, updated (their previews in a dry run) and already-exists, the
    locked ones being among the last; the counters are the lengths of the
    lists, and the database has grown by the pages created and by nothing
    else. *)
Theorem every_candidate_is_counted_once env api query now clock (db db' : Db) rep :
  Sync.run env api query now clock db = (db', Ok rep) →
  ∃ pl,
    Sync.plan env api query now db = Ok pl
    ∧ Sync.r_unionCandidates rep = length (Sync.plan_candidates pl)
    ∧ evaluated rep ≡ₚ List.map _id (Sync.plan_candidates pl)
    ∧ NoDup (evaluated rep)
    ∧ Sync.r_skippedLocked rep `sublist_of` Sync.r_alreadyExists rep
    ∧ Sync.r_created rep = Z.of_nat (length (default [] (Sync.r_createdIds rep)))
    ∧ Sync.r_updated rep = Z.of_nat (length (default [] (Sync.r_updatedIds rep)))
    ∧ size db' = (size db + Z.to_nat (Sync.r_created rep))%nat
    ∧ (Sync.r_dryRun rep = true → db' = db ∧ Sync.r_created rep = 0
                                  ∧ Sync.r_updated rep = 0).
Proof.
  unfold Sync.run.
  destruct (Sync.plan env api query now db) as [pl|] eqn:Epl; [|discriminate].
  set (coll := default "" (env "RAINDROP_COLLECTION_ID")).
  destruct (Sync.upsert_loop env api coll (Sync.dryRun (Sync.plan_knobs pl))
              (Sync.plan_existing pl) (Sync.plan_defaultTitle pl) clock 0
              (Sync.plan_candidates pl) db Sync.tally_start)
    as [db1 [t|msg]] eqn:Eloop; simpl; [|discriminate].
  intros [= <- <-]. exists pl. split; [reflexivity|]. split; [reflexivity|].
  pose proof (upsert_loop_tally _ _ _ _ _ _ _ _ _ _ _ _ _ Eloop) as Ht.
  pose proof (ids_where_split (Sync.plan_existing pl) (Sync.plan_candidates pl)) as Hsplit.
  pose proof (plan_candidates_NoDup env api query now db pl Epl) as Hnd.
  assert (Hev : evaluated (Sync.report pl t) ≡ₚ List.map _id (Sync.plan_candidates pl)).
  { rewrite <- Hsplit. unfold evaluated, Sync.report. simpl.
    destruct (Sync.dryRun (Sync.plan_knobs pl)); subst t;
      [rewrite tally_of_dry | rewrite tally_of_real]; simpl; reflexivity. }
  split; [exact Hev|]. split; [rewrite Hev; exact Hnd|].
  unfold Sync.report. simpl.
  destruct (Sync.dryRun (Sync.plan_knobs pl)) eqn:Edry.
  - pose proof (upsert_loop_dry env api coll (Sync.plan_existing pl)
                  (Sync.plan_defaultTitle pl) clock 0 (Sync.plan_candidates pl) db
                  Sync.tally_start) as Hdb.
    rewrite Eloop in Hdb. simpl in Hdb. subst db1 t. rewrite tally_of_dry. simpl.
    split; [apply ids_where_locked_sublist|]. repeat split; lia.
  - pose proof (upsert_loop_size _ _ _ _ _ _ _ _ _ _ _ _ Eloop) as Hsize.
    subst t. rewrite tally_of_real. simpl.
    split; [apply ids_where_locked_sublist|].
    split; [reflexivity|]. split; [reflexivity|].
    split; [rewrite Hsize; lia | discriminate].
Qed.

End SyncReport.

(** ** One row per id, and the scan's bounds *)

Module SyncBounds.
Import Raindrop Notion Spec Terms NotionFacts SyncFacts ScanFacts.

#[local] Arguments Sync.write : simpl never.
#[local] Arguments Sync.record : simpl never.
#[local] Arguments Sync.resolveTitle : simpl never.

Section WithDate.
Context {date : JsDate}.

(** A lookup tells the truth about the database it was made on. *)
Lemma snapshot_initial (db : Db) ids item :
  unique_ids db → _id item ∈ ids →
  snapshot_ok db (getPagesByRaindropIds db ids) item.
Proof.
  intros Huniq Hin. unfold snapshot_ok.
  destruct (Js.get (_id item) (getPagesByRaindropIds db ids)) as [f|] eqn:E.
  - exact (getPages_backs db ids _ f E).
  - intros pid p Hp Ha Hid.
    rewrite (getPages_complete db ids (_id item) pid p Huniq Hp Ha Hid Hin) in E.
    discriminate.
Qed.

Lemma upsert_loop_unique env api coll existing dt clock :
  ∀ todo i (cur : Db) t,
    unique_ids cur → NoDup (List.map _id todo) →
    (∀ item, item ∈ todo → snapshot_ok cur existing item) →
    unique_ids
      (Sync.upsert_loop env api coll false existing dt clock i todo cur t).1.
Proof.
  induction todo as [|head rest IH]; intros i cur t Huniq Hnd Hsnap; simpl.
  - exact Huniq.
  - destruct (Sync.resolveTitle env api coll dt head) as [title|]; [|exact Huniq].
    destruct (write_step existing head rest title (toISOString (clock i)) cur
                Huniq Hnd Hsnap) as (Huniq' & Hsnap' & _).
    apply IH; [exact Huniq' | | exact Hsnap'].
    simpl in Hnd. apply NoDup_cons in Hnd as [_ H]. exact H.
Qed.

Lemma toIntInRange_bounds s def min max :
  min ≤ max → min ≤ def ≤ max →
  min ≤ Sync.toIntInRange s def min max ≤ max.
Proof.
  intros Hmm Hdef. unfold Sync.toIntInRange.
  destruct s as [s|]; [|exact Hdef].
  destruct (Js.truthy s); [|exact Hdef].
  destruct (Js.parseInt s); try exact Hdef. lia.
Qed.

Lemma slice0_length {A : Type} n (l : list A) :
  0 ≤ n → (length (Sync.slice0 n l) ≤ Z.to_nat n)%nat.
Proof.
  intros Hn. unfold Sync.slice0.
  destruct (0 <=? n) eqn:E; [|apply Z.leb_gt in E; lia].
  rewrite length_take. lia.
Qed.

(** The page loops count the requests they make and make no more than they
    have iterations left. *)
Lemma passA_loop_budget env api (db : Db) coll k remaining :
  ∀ page st st',
    Sync.passA_loop env api db coll k remaining page st = Ok st' →
    Sync.stopReasonA st = None →
    Sync.pagesFetchedA st ≤ Sync.pagesFetchedA st'
                          ≤ Sync.pagesFetchedA st + Z.of_nat remaining
    ∧ (Sync.stopReasonA st' = None →
       Sync.pagesFetchedA st' = Sync.pagesFetchedA st + Z.of_nat remaining)
    ∧ Sync.stopReasonA st' ≠ Some "completed".
Proof.
  induction remaining as [|r IH]; intros page st st' Hrun Hnone; simpl in Hrun.
  - injection Hrun as <-. rewrite Hnone. split; [lia|]. split; [lia | discriminate].
  - destruct (fetchRecentRaindrops env api coll (Sync.perPageA k) page)
      as [pageItems|]; simpl in Hrun; [|discriminate].
    destruct (length pageItems =? 0)%nat.
    { injection Hrun as <-. simpl. split; [lia|]. split; discriminate. }
    destruct (Sync.scanPage k _ pageItems _ _) as [[kept c] stopped].
    destruct stopped.
    { injection Hrun as <-. simpl. split; [lia|]. split; discriminate. }
    destruct (Z.of_nat (length pageItems) <? Sync.perPageA k).
    { injection Hrun as <-. simpl. split; [lia|]. split; discriminate. }
    destruct (negb (Sync.limitQP k =? 0) && (Sync.limitQP k <=? Sync.PER_PAGE k)).
    { injection Hrun as <-. simpl. split; [lia|]. split; discriminate. }
    destruct (IH _ _ _ Hrun eq_refl) as (H1 & H2 & H3). simpl in H1, H2.
    split; [lia|]. split; [|exact H3]. intros E. rewrite (H2 E). lia.
Qed.

Lemma search_loop_budget env api coll search k remaining :
  ∀ page st st',
    Sync.search_loop env api coll search k remaining page st = Ok st' →
    st.2 ≤ st'.2 ≤ st.2 + Z.of_nat remaining.
Proof.
  induction remaining as [|r IH]; intros page st st' Hrun; simpl in Hrun.
  - injection Hrun as <-. lia.
  - destruct (fetchRaindropsBySearch env api coll search (Sync.PER_PAGE k) page)
      as [pageItems|]; simpl in Hrun; [|discriminate].
    destruct (length pageItems =? 0)%nat; [injection Hrun as <-; simpl; lia|].
    destruct (Z.of_nat (length pageItems) <? Sync.PER_PAGE k);
      [injection Hrun as <-; simpl; lia|].
    apply IH in Hrun. simpl in Hrun. lia.
Qed.

Lemma enumerate_budget env api coll k remaining :
  ∀ page st st',
    Reconcile.enumerate env api coll k remaining page st = Ok st' →
    st.2 ≤ st'.2 ≤ st.2 + Z.of_nat remaining.
Proof.
  induction remaining as [|r IH]; intros page st st' Hrun; simpl in Hrun.
  - injection Hrun as <-. lia.
  - destruct (fetchRecentRaindrops env api coll (Reconcile.PER_PAGE k) page)
      as [items|]; simpl in Hrun; [|discriminate].
    destruct (length items =? 0)%nat; [injection Hrun as <-; simpl; lia|].
    destruct (Z.of_nat (length items) <? Reconcile.PER_PAGE k);
      [injection Hrun as <-; simpl; lia|].
    apply IH in Hrun. simpl in Hrun. lia.
Qed.

(** What pass A keeps is inside the window. *)
Lemma keptOf_inv since l :
  ∀ kept k it,
    (k, it) ∈ keptOf since l kept →
    (k, it) ∈ kept ∨ (it ∈ l ∧ Sync.createdOld since it = false ∧ k = _id it).
Proof.
  induction l as [|a l IH]; intros kept k it H; simpl in H; [auto|].
  apply IH in H as [H|(H1 & H2 & H3)].
  - destruct (Sync.createdOld since a) eqn:Eold; [auto|].
    apply elem_of_set in H as [[= -> ->]|H]; [|auto].
    right. split; [left | auto].
  - right. split; [right; exact H1 | auto].
Qed.

Lemma passA_loop_in_window env api (db : Db) coll k remaining :
  ∀ page st st',
    Sync.passA_loop env api db coll k remaining page st = Ok st' →
    (∀ id it, (id, it) ∈ Sync.passAItems st →
              Sync.createdOld (Sync.since k) it = false) →
    ∀ id it, (id, it) ∈ Sync.passAItems st' →
             Sync.createdOld (Sync.since k) it = false.
Proof.
  induction remaining as [|r IH]; intros page st st' Hrun Hst; simpl in Hrun.
  - injection Hrun as <-. exact Hst.
  - destruct (fetchRecentRaindrops env api coll (Sync.perPageA k) page)
      as [pageItems|]; simpl in Hrun; [|discriminate].
    destruct (length pageItems =? 0)%nat; [injection Hrun as <-; exact Hst|].
    destruct (scanPage_spec k (getPagesByRaindropIds db (List.map _id pageItems))
                pageItems (Sync.passAItems st) (Sync.consecutiveExisting st))
      as (m & _ & Hkept & _).
    destruct (Sync.scanPage k _ pageItems _ _) as [[kept c] stopped].
    simpl in Hkept.
    assert (Hk : ∀ id it, (id, it) ∈ kept →
                          Sync.createdOld (Sync.since k) it = false).
    { intros id it H. rewrite Hkept in H.
      apply keptOf_inv in H as [H|(_ & H & _)]; [exact (Hst id it H) | exact H]. }
    repeat case_match; try (injection Hrun as <-; exact Hk).
    eapply IH; [exact Hrun | exact Hk].
Qed.

End WithDate.
End SyncBounds.

Section SyncInvariants.
Import Raindrop Notion Spec Terms NotionFacts SyncFacts ScanFacts SyncWrites SyncBounds.
Context {date : JsDate}.

#[local] Arguments Sync.write : simpl never.
#[local] Arguments Sync.record : simpl never.
#[local] Arguments Sync.resolveTitle : simpl never.

Lemma plan_inv env api query now (db : Db) pl :
  Sync.plan env api query now db = Ok pl →
  let k := Sync.knobs env query now in
  let coll := default "" (env "RAINDROP_COLLECTION_ID") in
  Sync.plan_knobs pl = k
  ∧ Sync.passA env api db coll k = Ok (Sync.plan_passA pl)
  ∧ Sync.passB env api coll k = Ok (Sync.plan_passB pl)
  ∧ Sync.plan_candidates pl
    = Sync.candidateList k
        (Sync.union (Sync.passAItems (Sync.plan_passA pl)) (Sync.plan_passB pl).1).
Proof.
  unfold Sync.plan.
  destruct (env "RAINDROP_COLLECTION_ID") as [coll|]; [|discriminate].
  destruct (negb (Js.truthy coll)); [discriminate|]. simpl.
  destruct (Sync.isoDateOnly _) as [day|]; simpl; [|discriminate].
  destruct (Sync.passA _ _ _ _ _) as [a|]; simpl; [|discriminate].
  destruct (Sync.passB _ _ _ _) as [b|]; simpl; [|discriminate].
  intros [= <-]. simpl. auto.
Qed.

Lemma sync_run_inv env api query now clock (db db' : Db) rep :
  Sync.run env api query now clock db = (db', Ok rep) →
  ∃ pl t,
    Sync.plan env api query now db = Ok pl
    ∧ Sync.upsert_loop env api (default "" (env "RAINDROP_COLLECTION_ID"))
        (Sync.dryRun (Sync.plan_knobs pl)) (Sync.plan_existing pl)
        (Sync.plan_defaultTitle pl) clock 0 (Sync.plan_candidates pl) db
        Sync.tally_start = (db', Ok t)
    ∧ rep = Sync.report pl t.
Proof.
  unfold Sync.run.
  destruct (Sync.plan env api query now db) as [pl|]; [|discriminate].
  destruct (Sync.upsert_loop _ _ _ _ _ _ _ _ _ _ _) as [db1 [t|msg]] eqn:Eloop;
    simpl; [|discriminate].
  intros [= <- <-]. exists pl, t. repeat split. exact Eloop.
Qed.

(** However a sync ends, it leaves at most one live row per Raindrop id
    where there was at most one: it creates a row only for an id the lookup
    did not find, and no candidate list holds an id twice. *)
Theorem sync_keeps_one_row_per_id env api query now clock (db : Db) :
  unique_ids db → unique_ids (Sync.run env api query now clock db).1.
Proof.
  intros Huniq. rewrite run_db.
  destruct (Sync.plan env api query now db) as [pl|] eqn:Epl; [|exact Huniq].
  destruct (Sync.dryRun (Sync.plan_knobs pl)).
  - rewrite upsert_loop_dry. exact Huniq.
  - apply upsert_loop_unique; [exact Huniq | |].
    + exact (plan_candidates_NoDup env api query now db pl Epl).
    + intros item Hin. rewrite (plan_existing_eq env api query now db pl Epl).
      apply snapshot_initial; [exact Huniq|].
      apply list_elem_of_In, in_map, list_elem_of_In. exact Hin.
Qed.

(** The cap is always there: [limitQP] lies between 1 and 500 whatever the
    query holds, a run evaluates no more than [limitQP] candidates, and so
    creates and updates no more than that many rows. *)
Theorem candidates_are_capped env api query now clock (db db' : Db) rep :
  Sync.run env api query now clock db = (db', Ok rep) →
  let k := Sync.knobs env query now in
  1 ≤ Sync.limitQP k ≤ 500
  ∧ Z.of_nat (Sync.r_unionCandidates rep) ≤ Sync.limitQP k
  ∧ Sync.r_created rep + Sync.r_updated rep ≤ Sync.limitQP k.
Proof.
  intros Hrun k.
  assert (Hlim : 1 ≤ Sync.limitQP k ≤ 500)
    by (apply toIntInRange_bounds; lia).
  apply sync_run_inv in Hrun as (pl & t & Epl & Eloop & ->).
  destruct (plan_inv env api query now db pl Epl) as (Hk & _ & _ & Hc).
  fold k in Hk, Hc.
  assert (Hlen : Z.of_nat (length (Sync.plan_candidates pl)) ≤ Sync.limitQP k).
  { rewrite Hc. unfold Sync.candidateList.
    destruct (Sync.limitQP k =? 0) eqn:E; [apply Z.eqb_eq in E; lia|].
    cbn [negb].
    pose proof (slice0_length (Sync.limitQP k)
                  (Js.values (Sync.union (Sync.passAItems (Sync.plan_passA pl))
                                (Sync.plan_passB pl).1)) ltac:(lia)) as Hs.
    lia. }
  split; [exact Hlim|]. split; [exact Hlen|].
  pose proof (upsert_loop_tally _ _ _ _ _ _ _ _ _ _ _ _ _ Eloop) as Ht.
  pose proof (Permutation_length
                (ids_where_split (Sync.plan_existing pl) (Sync.plan_candidates pl)))
    as Hsplit.
  rewrite !length_app, length_map in Hsplit.
  unfold Sync.report. cbn [Sync.r_created Sync.r_updated]. subst t.
  destruct (Sync.dryRun (Sync.plan_knobs pl));
    [rewrite tally_of_dry | rewrite tally_of_real];
    cbn [Sync.created_count Sync.updated_count Sync.tally_start]; lia.
Qed.

(** [newerThan] is a strict order on what it is given: nothing is newer
    than itself, two values are never each newer than the other, and newer
    than something newer is newer; a missing or empty value is below
    every value that is there and above none. *)
Theorem newerThan_is_a_strict_order :
  (∀ a, Sync.newerThan a a = false)
  ∧ (∀ a b, Sync.newerThan a b = true → Sync.newerThan b a = false)
  ∧ (∀ a b c, Sync.newerThan a b = true → Sync.newerThan b c = true →
              Sync.newerThan a c = true)
  ∧ (∀ a b, Js.truthy_opt a = false →
            Sync.newerThan a b = false
            ∧ Sync.newerThan b a = Js.truthy_opt b).
Proof.
  assert (Hlt : ∀ x y : Z, (x <? y) = true → (y <? x) = false)
    by (intros x y H; apply Z.ltb_lt in H; apply Z.ltb_ge; lia).
  assert (Htr : ∀ x y z : Z, (y <? x) = true → (z <? y) = true → (z <? x) = true)
    by (intros x y z H1 H2; apply Z.ltb_lt in H1, H2; apply Z.ltb_lt; lia).
  split; [|split; [|split]].
  - intros [a|]; [|reflexivity]. unfold Sync.newerThan.
    destruct (Js.truthy a); simpl; [|reflexivity].
    destruct (getTime a); [apply Z.ltb_irrefl | reflexivity].
  - intros a b. unfold Sync.newerThan.
    destruct a as [a|], b as [b|]; try discriminate; try (intros _; reflexivity).
    destruct (Js.truthy a), (Js.truthy b); simpl; try discriminate;
      try (intros _; reflexivity).
    destruct (getTime a), (getTime b); try discriminate;
      try (intros _; reflexivity). apply Hlt.
  - intros a b c. unfold Sync.newerThan.
    destruct a as [a|]; [|discriminate].
    destruct (Js.truthy a); simpl; [|discriminate].
    destruct b as [b|]; [|discriminate].
    destruct (Js.truthy b); simpl; [|discriminate].
    destruct c as [c|]; [|intros _ _; reflexivity].
    destruct (Js.truthy c); simpl; [|intros _ _; reflexivity].
    destruct (getTime a), (getTime b), (getTime c); try discriminate;
      try (intros _ H; discriminate). apply Htr.
  - intros a b Ha. unfold Sync.newerThan. split.
    + destruct a as [a|]; simpl in *; [|reflexivity]. rewrite Ha. reflexivity.
    + destruct b as [b|]; [|reflexivity]. simpl.
      destruct (Js.truthy b); simpl; [|reflexivity].
      destruct a as [a|]; simpl in *; [|reflexivity]. rewrite Ha. reflexivity.
Qed.

(** A sync that returns its report has asked the listing for no more than
    [MAX_PAGES] pages in pass A and the search for no more than twice that in
    pass B; the stop reason is "completed" only when pass A used all its
    pages. *)
Theorem sync_page_budget env api query now clock (db db' : Db) rep :
  Sync.run env api query now clock db = (db', Ok rep) →
  let k := Sync.knobs env query now in
  0 ≤ Sync.r_passA_pagesFetched rep ≤ Z.max 0 (Sync.MAX_PAGES k)
  ∧ 0 ≤ Sync.r_passB_pagesFetched rep ≤ 2 * Z.max 0 (Sync.MAX_PAGES k)
  ∧ (Sync.r_passA_stopReason rep = "completed" →
     Sync.r_passA_pagesFetched rep = Z.max 0 (Sync.MAX_PAGES k)).
Proof.
  intros Hrun k.
  apply sync_run_inv in Hrun as (pl & t & Epl & _ & ->).
  destruct (plan_inv env api query now db pl Epl) as (_ & Ha & Hb & _).
  fold k in Ha, Hb. unfold Sync.report. simpl.
  unfold Sync.passA in Ha.
  destruct (passA_loop_budget _ _ _ _ _ _ _ _ _ Ha eq_refl) as (A1 & A2 & A3).
  simpl in A1, A2.
  unfold Sync.passB in Hb.
  destruct (Sync.search_loop env api _ _ k _ 0 ([], 0)) as [b1|] eqn:Eb1;
    simpl in Hb; [|discriminate].
  apply search_loop_budget in Eb1, Hb. simpl in Eb1.
  split; [lia|]. split; [lia|].
  destruct (Sync.stopReasonA (Sync.plan_passA pl)) as [reason|] eqn:Er; simpl.
  - intros ->. contradiction.
  - intros _. rewrite A2 by reflexivity. lia.
Qed.

(** Pass A keeps an item only if it was not created before the window, and
    keeps it under its own id. *)
Theorem pass_A_keeps_the_window_only env api query now (db : Db) pl :
  Sync.plan env api query now db = Ok pl →
  ∀ id it, (id, it) ∈ Sync.passAItems (Sync.plan_passA pl) →
    Sync.createdOld (Sync.since (Sync.knobs env query now)) it = false
    ∧ _id it = id.
Proof.
  intros Epl id it Hin.
  destruct (plan_inv env api query now db pl Epl) as (_ & Ha & _).
  split.
  - eapply passA_loop_in_window; [exact Ha | | exact Hin].
    intros id' it' H. apply elem_of_nil in H. contradiction.
  - eapply passA_loop_well_keyed; [|exact Ha|exact Hin]. apply well_keyed_nil.
Qed.

End SyncInvariants.

(** The instance: bookmark 7, made at noon, against its unlocked row that
    stores an older timestamp and is flagged deleted.  The sync updates the
    row and leaves the flag and the status. *)
Lemma sync_keeps_status_lock_and_flags_witness :
  let api := Scenario.service [Scenario.bookmark 7 Scenario.noon]
               (fun _ _ => true) Scenario.no_titles Scenario.no_details in
  let old := Scenario.row 7 (Some (IsoDate.print 0)) false true
               (Some (IsoDate.print 0)) in
  let db := Scenario.db_of [old] in
  let db' := (Sync.run (date := IsoDate.instance) Scenario.default_env api
                Scenario.no_query Scenario.noon Scenario.at_noon db).1 in
  ∃ p', db' !! 0%N = Some p'
        ∧ Notion.RaindropLastUpdate p' = Some (IsoDate.print Scenario.noon)
        ∧ Terms.sync_kept p' = Terms.sync_kept old.
Proof.
  intros api old db db'.
  evar (p' : Notion.Page).
  assert (Hp' : db' !! 0%N = Some p') by (subst p'; vm_compute; reflexivity).
  pose proof (sync_keeps_status_lock_and_flags (date := IsoDate.instance)
                Scenario.default_env api Scenario.no_query Scenario.noon
                Scenario.at_noon db 0%N ltac:(vm_compute; eauto)) as W.
  fold db' in W. rewrite Hp' in W.
  exists p'. split; [exact Hp'|]. split; [vm_compute; reflexivity|].
  assert (E : db !! 0%N = Some old) by (vm_compute; reflexivity).
  rewrite E in W. simpl in W. congruence.
Defined.

(** The instance: three new bookmarks and an empty database. *)
Lemma every_candidate_is_counted_once_witness :
  ∃ db' rep,
    Sync.run (date := IsoDate.instance) Scenario.default_env Scenario.three
      Scenario.no_query Scenario.noon Scenario.at_noon ∅ = (db', Ok rep)
    ∧ Spec.evaluated rep ≡ₚ [3; 2; 1]
    ∧ Sync.r_created rep = 3 ∧ size db' = 3%nat.
Proof.
  evar (db' : gmap N Notion.Page). evar (rep : Sync.Report).
  assert (Hrun : Sync.run (date := IsoDate.instance) Scenario.default_env
                   Scenario.three Scenario.no_query Scenario.noon
                   Scenario.at_noon ∅ = (db', Ok rep))
    by (subst db' rep; vm_compute; reflexivity).
  destruct (every_candidate_is_counted_once (date := IsoDate.instance)
              Scenario.default_env Scenario.three Scenario.no_query Scenario.noon
              Scenario.at_noon ∅ db' rep Hrun)
    as (pl & Hpl & _ & W1 & _ & _ & _ & _ & W2 & _).
  exists db', rep. split; [exact Hrun|].
  assert (E : Sync.plan (date := IsoDate.instance) Scenario.default_env
                Scenario.three Scenario.no_query Scenario.noon ∅
              = Ok pl → List.map Raindrop._id (Sync.plan_candidates pl) = [3; 2; 1]).
  { intros H.
    assert (G : match Sync.plan (date := IsoDate.instance) Scenario.default_env
                        Scenario.three Scenario.no_query Scenario.noon ∅ with
                | Ok pl => List.map Raindrop._id (Sync.plan_candidates pl) = [3; 2; 1]
                | Throw _ => False
                end) by (vm_compute; reflexivity).
    rewrite H in G. exact G. }
  split; [rewrite W1, (E Hpl); reflexivity|].
  split; [vm_compute; reflexivity|].
  rewrite W2. vm_compute. reflexivity.
Defined.

(** The instance: the same three bookmarks, the row of bookmark 2 being
    there already. *)
Lemma sync_keeps_one_row_per_id_witness :
  let db := Scenario.db_of [Scenario.row 2 None false false None] in
  let db' := (Sync.run (date := IsoDate.instance) Scenario.default_env
                Scenario.three Scenario.no_query Scenario.noon
                Scenario.at_noon db).1 in
  Spec.unique_ids db ∧ Spec.unique_ids db' ∧ size db' = 3%nat.
Proof.
  intros db db'. split; [apply unique_ids_db_of_one|].
  split; [|vm_compute; reflexivity].
  apply sync_keeps_one_row_per_id, unique_ids_db_of_one.
Defined.

(** The instance: sixty new bookmarks and no [limit] parameter. *)
Lemma candidates_are_capped_witness :
  ∃ db' rep,
    Sync.run (date := IsoDate.instance) Scenario.default_env Scenario.sixty
      Scenario.no_query Scenario.noon Scenario.at_noon ∅ = (db', Ok rep)
    ∧ Z.of_nat (Sync.r_unionCandidates rep) ≤ 50
    ∧ Sync.r_created rep + Sync.r_updated rep ≤ 50.
Proof.
  evar (db' : gmap N Notion.Page). evar (rep : Sync.Report).
  assert (Hrun : Sync.run (date := IsoDate.instance) Scenario.default_env
                   Scenario.sixty Scenario.no_query Scenario.noon
                   Scenario.at_noon ∅ = (db', Ok rep))
    by (subst db' rep; vm_compute; reflexivity).
  destruct (candidates_are_capped (date := IsoDate.instance)
              Scenario.default_env Scenario.sixty Scenario.no_query Scenario.noon
              Scenario.at_noon ∅ db' rep Hrun) as (_ & W1 & W2).
  exists db', rep. split; [exact Hrun|]. split; [exact W1 | exact W2].
Defined.

(** The instance: pages of two and a budget of one page. *)
Lemma sync_page_budget_witness :
  ∃ db' rep,
    Sync.run (date := IsoDate.instance) Scenario.one_page_of_two Scenario.three
      (Scenario.query_of [("limit", "500")]) Scenario.noon Scenario.at_noon ∅
    = (db', Ok rep)
    ∧ Sync.r_passA_stopReason rep = "completed"
    ∧ Sync.r_passA_pagesFetched rep = 1
    ∧ 0 ≤ Sync.r_passB_pagesFetched rep ≤ 2.
Proof.
  evar (db' : gmap N Notion.Page). evar (rep : Sync.Report).
  assert (Hrun : Sync.run (date := IsoDate.instance) Scenario.one_page_of_two
                   Scenario.three (Scenario.query_of [("limit", "500")])
                   Scenario.noon Scenario.at_noon ∅ = (db', Ok rep))
    by (subst db' rep; vm_compute; reflexivity).
  destruct (sync_page_budget (date := IsoDate.instance)
              Scenario.one_page_of_two Scenario.three
              (Scenario.query_of [("limit", "500")]) Scenario.noon
              Scenario.at_noon ∅ db' rep Hrun) as (_ & W2 & W3).
  assert (Hreason : Sync.r_passA_stopReason rep = "completed")
    by (vm_compute; reflexivity).
  exists db', rep. split; [exact Hrun|]. split; [exact Hreason|].
  split; [exact (W3 Hreason) | exact W2].
Defined.

(** The instance: a listing of bookmark 7, made at noon, and bookmark 6,
    made in 1970. *)
Lemma pass_A_keeps_the_window_only_witness :
  let api := Scenario.service
               [Scenario.bookmark 7 Scenario.noon; Scenario.bookmark 6 0]
               (fun _ _ => false) Scenario.no_titles Scenario.no_details in
  ∃ pl,
    Sync.plan (date := IsoDate.instance) Scenario.default_env api
      Scenario.no_query Scenario.noon ∅ = Ok pl
    ∧ Js.keys (Sync.passAItems (Sync.plan_passA pl)) = [7]
    ∧ ∀ id it, (id, it) ∈ Sync.passAItems (Sync.plan_passA pl) →
        Sync.createdOld (date := IsoDate.instance)
          (Sync.since (Sync.knobs (date := IsoDate.instance)
                         Scenario.default_env Scenario.no_query Scenario.noon)) it
        = false
        ∧ Raindrop._id it = id.
Proof.
  intros api.
  evar (pl : Sync.Plan).
  assert (Hpl : Sync.plan (date := IsoDate.instance) Scenario.default_env api
                  Scenario.no_query Scenario.noon ∅ = Ok pl)
    by (subst pl; vm_compute; reflexivity).
  exists pl. split; [exact Hpl|]. split; [vm_compute; reflexivity|].
  exact (pass_A_keeps_the_window_only (date := IsoDate.instance)
           Scenario.default_env api Scenario.no_query Scenario.noon ∅ pl Hpl).
Defined.

(** ** The rows a sync writes *)

Section Mirror.
Import Raindrop Notion Spec Terms NotionFacts SyncFacts ScanFacts SyncWrites SyncBounds.
Context {date : JsDate}.

#[local] Arguments Sync.write : simpl never.
#[local] Arguments Sync.record : simpl never.
#[local] Arguments Sync.resolveTitle : simpl never.

(** What the write of a create or an update leaves for its candidate. *)
Lemma write_mirrors existing head title nowIso (cur : Db) :
  snapshot_ok cur existing head →
  is_create (Sync.decide existing head) || is_update (Sync.decide existing head)
  = true →
  mirrors (Sync.write false (Sync.decide existing head) head title nowIso cur)
    head title.
Proof.
  intros Hsnap Hd.
  destruct (Sync.decide existing head) as [| |pid|] eqn:Ed; try discriminate.
  - exists (fresh (dom cur)). eexists. split; [apply lookup_insert_eq|].
    repeat split.
  - apply decide_Update_inv in Ed as (f & Hget & _ & <- & _).
    unfold snapshot_ok in Hsnap. rewrite Hget in Hsnap.
    destruct Hsnap as (p & Hp & Ha & Hid & _).
    exists (found_pageId f). eexists.
    split; [rewrite write_update, Hp; reflexivity|].
    repeat split; assumption.
Qed.

Lemma write_keeps_mirror existing head title nowIso (cur : Db) item title' :
  snapshot_ok cur existing head → _id item ≠ _id head →
  mirrors cur item title' →
  mirrors (Sync.write false (Sync.decide existing head) head title nowIso cur)
    item title'.
Proof.
  intros Hsnap Hne (pid & p & Hp & Ha & Hid & H).
  exists pid, p. split; [|auto].
  apply write_keeps_row; [exact Hsnap | exact Hp | congruence].
Qed.

Lemma upsert_loop_mirrors env api coll existing dt clock :
  ∀ todo i (cur final : Db) t t',
    unique_ids cur → NoDup (List.map _id todo) →
    (∀ item, item ∈ todo → snapshot_ok cur existing item) →
    Sync.upsert_loop env api coll false existing dt clock i todo cur t
      = (final, Ok t') →
    (∀ item, item ∈ todo →
       is_create (Sync.decide existing item) || is_update (Sync.decide existing item)
       = true →
       ∃ title, Sync.resolveTitle env api coll dt item = Ok title
                ∧ mirrors final item title)
    ∧ (∀ item title, _id item ∉ List.map _id todo → mirrors cur item title →
                     mirrors final item title).
Proof.
  induction todo as [|head rest IH]; intros i cur final t t' Huniq Hnd Hsnap Hrun.
  - simpl in Hrun. injection Hrun as <- _. split; [|auto].
    intros item H. apply elem_of_nil in H. contradiction.
  - simpl in Hrun.
    destruct (Sync.resolveTitle env api coll dt head) as [title|] eqn:Et;
      [|discriminate].
    destruct (write_step existing head rest title (toISOString (clock i)) cur
                Huniq Hnd Hsnap) as (Huniq' & Hsnap' & _).
    assert (Hhead : snapshot_ok cur existing head) by (apply Hsnap; left).
    assert (Hnd' : NoDup (List.map _id rest))
      by (simpl in Hnd; apply NoDup_cons in Hnd as [_ H]; exact H).
    assert (Hfresh : _id head ∉ List.map _id rest)
      by (simpl in Hnd; apply NoDup_cons in Hnd as [H _]; exact H).
    destruct (IH _ _ _ _ _ Huniq' Hnd' Hsnap' Hrun) as (Hall & Hold).
    split.
    + intros item Hin Hd. apply elem_of_cons in Hin as [->|Hin].
      * exists title. split; [exact Et|].
        apply Hold; [exact Hfresh|]. apply write_mirrors; assumption.
      * apply Hall; assumption.
    + intros item title' Hnot Hm. simpl in Hnot.
      apply not_elem_of_cons in Hnot as [Hne Hnot].
      apply Hold; [exact Hnot|]. apply write_keeps_mirror; assumption.
Qed.

(** What [Sync.run], which makes every title request anew, leaves for the
    candidates it reports as created or updated. *)
Lemma written_rows_of_run env api query now clock (db db' : Db) rep :
  unique_ids db →
  Sync.run env api query now clock db = (db', Ok rep) →
  Sync.r_dryRun rep = false →
  ∃ pl,
    Sync.plan env api query now db = Ok pl
    ∧ ∀ item, item ∈ Sync.plan_candidates pl →
        _id item ∈ default [] (Sync.r_createdIds rep)
                   ++ default [] (Sync.r_updatedIds rep) →
        ∃ title,
          Sync.resolveTitle env api (default "" (env "RAINDROP_COLLECTION_ID"))
            (Sync.plan_defaultTitle pl) item = Ok title
          ∧ mirrors db' item title.
Proof.
  intros Huniq Hrun Hreal.
  destruct (sync_run_inv env api query now clock db db' rep Hrun)
    as (pl & t & Epl & Eloop & ->).
  unfold Sync.report in Hreal. simpl in Hreal. rewrite Hreal in Eloop.
  exists pl. split; [exact Epl|]. intros item Hin Hid.
  pose proof (plan_candidates_NoDup env api query now db pl Epl) as Hnd.
  assert (Hsnap : ∀ it, it ∈ Sync.plan_candidates pl →
                        snapshot_ok db (Sync.plan_existing pl) it).
  { intros it Hit. rewrite (plan_existing_eq env api query now db pl Epl).
    apply snapshot_initial; [exact Huniq|].
    apply list_elem_of_In, in_map, list_elem_of_In. exact Hit. }
  destruct (upsert_loop_mirrors _ _ _ _ _ _ _ _ _ _ _ _ Huniq Hnd Hsnap Eloop)
    as [Hall _].
  apply Hall; [exact Hin|].
  pose proof (upsert_loop_tally _ _ _ _ _ _ _ _ _ _ _ _ _ Eloop) as Ht.
  unfold Sync.report in Hid. simpl in Hid. rewrite Hreal in Hid. simpl in Hid.
  subst t. rewrite tally_of_real in Hid. simpl in Hid.
  apply elem_of_app in Hid as [Hid|Hid];
    apply elem_of_ids_where in Hid as (item' & Hin' & E & Hd);
    assert (item' = item) as ->
      by (apply (NoDup_map_inj _id (Sync.plan_candidates pl)); assumption);
    rewrite Hd; [reflexivity | apply orb_true_r].
Qed.

End Mirror.

(** ** Reading a number from a setting or a parameter *)

Module Decimal.

Lemma digit_val_char d :
  (d < 10)%N → Js.digit_val (pretty_N_char d) = Some (Z.of_N d).
Proof.
  intros H.
  assert (d = 0 ∨ d = 1 ∨ d = 2 ∨ d = 3 ∨ d = 4 ∨ d = 5 ∨ d = 6 ∨ d = 7
          ∨ d = 8 ∨ d = 9)%N as E by lia.
  repeat (destruct E as [->|E]; [reflexivity|]). subst d. reflexivity.
Qed.

(** The digits that [pretty] writes in front of [s] are read back as the
    number they stand for. *)
Lemma digits_prefix_go x :
  (0 < x)%N →
  ∀ s, ∃ len : nat,
    (0 < len)%nat
    ∧ ∀ acc cnt,
        Js.digits_prefix acc cnt (pretty_N_go x s)
        = Js.digits_prefix (acc * 10 ^ Z.of_nat len + Z.of_N x) (cnt + len) s.
Proof.
  induction (N.lt_wf_0 x) as [x _ IH]. intros Hx s.
  rewrite pretty_N_go_step by exact Hx.
  assert (Hr : (x `mod` 10 < 10)%N) by (apply N.mod_lt; lia).
  assert (Hx10 : x = (10 * (x `div` 10) + x `mod` 10)%N)
    by (apply N.div_mod; lia).
  destruct (decide (x `div` 10 = 0)%N) as [Hq|Hq].
  - rewrite Hq, pretty_N_go_0. exists 1%nat. split; [lia|]. intros acc cnt.
    simpl. rewrite digit_val_char by exact Hr.
    f_equal; [|lia]. rewrite Z.pow_1_r. lia.
  - destruct (IH (x `div` 10)%N) with (s := String (pretty_N_char (x `mod` 10)) s)
      as (len & Hlen & Hgo); [apply N.div_lt; lia | lia |].
    exists (S len). split; [lia|]. intros acc cnt.
    rewrite Hgo. simpl. rewrite digit_val_char by exact Hr.
    f_equal; [|lia].
    rewrite Nat2Z.inj_succ, Z.pow_succ_r by lia. lia.
Qed.

Lemma digits_prefix_count s :
  ∀ acc cnt, (cnt ≤ (Js.digits_prefix acc cnt s).2)%nat.
Proof.
  induction s as [|c r IH]; intros acc cnt; simpl; [lia|].
  destruct (Js.digit_val c); simpl; [|lia].
  etransitivity; [|apply IH]. lia.
Qed.

Lemma digits_prefix_stop acc cnt rest :
  (∀ c r, rest = String c r → Js.digit_val c = None) →
  Js.digits_prefix acc cnt rest = (acc, cnt).
Proof.
  intros H. destruct rest as [|c r]; [reflexivity|].
  simpl. rewrite (H c r eq_refl). reflexivity.
Qed.

Lemma digit_is_plain c d :
  Js.digit_val c = Some d →
  Js.is_space c = false ∧ c ≠ "-"%char ∧ c ≠ "+"%char.
Proof.
  destruct c as [[] [] [] [] [] [] [] []]; try discriminate;
    intros _; repeat split; discriminate.
Qed.

(** [parseInt] on a string that begins with a digit. *)
Lemma parseInt_digits c r :
  is_Some (Js.digit_val c) →
  Js.parseInt (String c r)
  = match Js.digits_prefix 0 0 (String c r) with
    | (_, O) => Js.NaN
    | (m, S _) => Js.of_magnitude false m
    end.
Proof.
  intros [d Hd]. destruct (digit_is_plain c d Hd) as (Hs & Hm & Hp).
  unfold Js.parseInt. cbn [Js.skip_spaces]. rewrite Hs.
  destruct c as [[] [] [] [] [] [] [] []]; try reflexivity; congruence.
Qed.

Lemma pretty_N_go_app x :
  ∀ s rest, pretty_N_go x s +:+ rest = pretty_N_go x (s +:+ rest).
Proof.
  induction (N.lt_wf_0 x) as [x _ IH]. intros s rest.
  destruct (decide (0 < x)%N) as [Hx|Hx].
  - rewrite (pretty_N_go_step x s), (pretty_N_go_step x (s +:+ rest)) by exact Hx.
    rewrite IH by (apply N.div_lt; lia). reflexivity.
  - replace x with 0%N by lia. rewrite !pretty_N_go_0. reflexivity.
Qed.

(** A positive number in decimal, whatever follows it. *)
Lemma digits_prefix_pos p rest :
  (∀ c r, rest = String c r → Js.digit_val c = None) →
  ∃ len c r,
    pretty (N.pos p) +:+ rest = String c r
    ∧ is_Some (Js.digit_val c)
    ∧ Js.digits_prefix 0 0 (String c r) = (Z.pos p, S len).
Proof.
  intros Hrest. unfold pretty, pretty_N.
  destruct (decide (N.pos p = 0)%N) as [E|_]; [discriminate|].
  rewrite pretty_N_go_app. change ("" +:+ rest) with rest.
  destruct (digits_prefix_go (N.pos p) ltac:(lia) rest) as (len & Hlen & Hgo).
  specialize (Hgo 0 0%nat).
  rewrite (digits_prefix_stop _ _ rest Hrest) in Hgo.
  rewrite Z.mul_0_l, Z.add_0_l, Nat.add_0_l in Hgo.
  change (Z.of_N (N.pos p)) with (Z.pos p) in Hgo.
  destruct len as [|len]; [lia|]. exists len.
  destruct (pretty_N_go (N.pos p) rest) as [|c r]; [discriminate|].
  exists c, r. split; [reflexivity|]. split; [|exact Hgo].
  simpl in Hgo. destruct (Js.digit_val c); [eauto | discriminate].
Qed.

(** Up to [2 ^ 53] every integer is a double. *)
Lemma nearest_double_exact m :
  0 ≤ m ≤ 2 ^ 53 → Js.nearest_double m = m.
Proof.
  intros Hm. unfold Js.nearest_double.
  destruct (Z.log2 m - 52 <=? 0) eqn:E; [reflexivity|].
  apply Z.leb_gt in E.
  assert (Hlog : ¬ m < 2 ^ 53).
  { intros Hlt. destruct (decide (m = 0)) as [->|Hne]; [simpl in E; lia|].
    apply Z.log2_lt_pow2 in Hlt; lia. }
  change (2 ^ 53) with 9007199254740992 in *.
  assert (m = 9007199254740992) as -> by lia.
  vm_compute. reflexivity.
Qed.

Lemma of_magnitude_exact negative m :
  0 ≤ m ≤ 2 ^ 53 →
  Js.of_magnitude negative m = Js.Num (if negative then - m else m).
Proof.
  intros Hm. unfold Js.of_magnitude.
  rewrite (nearest_double_exact m Hm).
  destruct (Js.double_overflow <=? m) eqn:E; [|reflexivity].
  apply Z.leb_le in E.
  assert (2 ^ 53 < Js.double_overflow) by (vm_compute; reflexivity).
  change (2 ^ 53) with 9007199254740992 in *. lia.
Qed.

Lemma parseInt_decimal n rest :
  Z.abs n ≤ 2 ^ 53 →
  (∀ c r, rest = String c r → Js.digit_val c = None) →
  Js.parseInt (pretty n +:+ rest) = Js.Num n
  ∧ Js.truthy (pretty n +:+ rest) = true.
Proof.
  intros Hn Hrest. destruct n as [|p|p].
  - change (pretty 0) with "0". simpl.
    unfold Js.parseInt. simpl. rewrite digits_prefix_stop by exact Hrest.
    split; reflexivity.
  - change (pretty (Z.pos p)) with (pretty (N.pos p)).
    destruct (digits_prefix_pos p rest Hrest) as (len & c & r & Epos & Hc & Hd).
    rewrite Epos.
    rewrite parseInt_digits by exact Hc. rewrite Hd.
    rewrite of_magnitude_exact by (simpl in Hn; split; [lia | exact Hn]).
    split; reflexivity.
  - change (pretty (Z.neg p) +:+ rest)
      with (String "-" (pretty (N.pos p) +:+ rest)).
    destruct (digits_prefix_pos p rest Hrest) as (len & c & r & Eneg & Hc & Hd).
    rewrite Eneg. split; [|reflexivity].
    change (Js.parseInt (String "-" (String c r)))
      with (match Js.digits_prefix 0 0 (String c r) with
            | (_, O) => Js.NaN
            | (m, S _) => Js.of_magnitude true m
            end).
    rewrite Hd.
    rewrite of_magnitude_exact by (simpl in Hn; split; [lia | exact Hn]).
    reflexivity.
Qed.

End Decimal.

(** A setting or a parameter that begins with an integer in decimal of a
    magnitude up to [2 ^ 53] (from where on doubles round) is read as that
    integer, whatever follows the digits: [envInt] returns it, and
    [toIntInRange] returns it clamped to the range. *)
Theorem decimal_is_read_back env name def n rest :
  Z.abs n ≤ 2 ^ 53 →
  (∀ c r, rest = String c r → Js.digit_val c = None) →
  env name = Some (pretty n +:+ rest) →
  Sync.envInt env name def = n
  ∧ ∀ lo hi, Sync.toIntInRange (Some (pretty n +:+ rest)) def lo hi
             = Z.max lo (Z.min hi n).
Proof.
  intros Hn Hrest Henv.
  destruct (Decimal.parseInt_decimal n rest Hn Hrest) as [Hp Ht].
  unfold Sync.envInt, Sync.toIntInRange. rewrite Henv, Ht, Hp.
  split; reflexivity.
Qed.

(** The instance: [PER_PAGE=25 # per page]. *)
Lemma decimal_is_read_back_witness :
  let env := Scenario.lookup_env [("PER_PAGE", "25 # per page")] in
  Z.abs 25 ≤ 2 ^ 53
  ∧ Sync.envInt env "PER_PAGE" 50 = 25
  ∧ Sync.toIntInRange (Some "25 # per page") 50 1 20 = 20.
Proof.
  intros env.
  assert (Hn : Z.abs 25 ≤ 2 ^ 53) by (vm_compute; discriminate).
  assert (Hrest : ∀ c r, " # per page" = String c r → Js.digit_val c = None)
    by (intros c r [= <- _]; reflexivity).
  destruct (decimal_is_read_back env "PER_PAGE" 50 25 " # per page" Hn Hrest
              eq_refl) as [W1 W2].
  split; [exact Hn|]. split; [exact W1 | exact (W2 1 20)].
Defined.

(** ** The rows a run leaves alone *)

Section LeftAlone.
Import Raindrop Notion Spec Terms NotionFacts SyncFacts ReconcileFacts RowFacts
  ReconcileWrites.
Context {date : JsDate}.

(** The sync writes to the live, unlocked rows of its candidates and to no
    other page: a page that is archived, or locked, or carries no id of a
    candidate is after the run what it was before, sync timestamp included,
    however the run ends. *)
Theorem sync_writes_to_candidate_rows_only env api query now clock (db : Db) pl pid p :
  Sync.plan env api query now db = Ok pl →
  db !! pid = Some p →
  archived p = true ∨ Lock p = true
  ∨ (∀ item, item ∈ Sync.plan_candidates pl → RaindropID p ≠ Some (_id item)) →
  (Sync.run env api query now clock db).1 !! pid = Some p.
Proof.
  intros Epl Hp Hwhy. rewrite run_db, Epl, <- Hp.
  apply upsert_loop_untouched; [eauto|].
  intros item Hin Hd.
  apply decide_Update_inv in Hd as (f & Hget & Hlock & Hpid & _).
  rewrite (plan_existing_eq env api query now db pl Epl) in Hget.
  apply getPages_backs in Hget as (p' & Hp' & Ha & Hid & Hl & _).
  rewrite Hpid, Hp in Hp'. injection Hp' as <-.
  destruct Hwhy as [H|[H|H]]; [congruence | congruence |].
  exact (H item Hin Hid).
Qed.

(** The reconciliation leaves alone, sync timestamp included, every page
    without a Raindrop id, every archived page, and every row that is not
    flagged deleted and whose id the enumeration returned, however the run
    ends. *)
Theorem reconciliation_leaves_healthy_rows_alone
    env api query clock (db : Db) ids pid p :
  listed_ids env api query = Some ids →
  db !! pid = Some p →
  RaindropID p = None ∨ archived p = true
  ∨ (∃ id, RaindropID p = Some id ∧ id ∈ ids ∧ Deleted p = false) →
  (Reconcile.run env api query clock db).1 !! pid = Some p.
Proof.
  intros Hids Hp Hwhy. unfold listed_ids in Hids. unfold Reconcile.run.
  destruct (env "RAINDROP_COLLECTION_ID") as [coll|]; [|exact Hp].
  destruct (negb (Js.truthy coll)); [exact Hp|]. simpl in Hids.
  destruct (Reconcile.enumerate _ _ _ _ _ _ _) as [[ids' n]|]; [|discriminate].
  injection Hids as ->.
  pose proof (reconcile_loop_invariant_at env api (Reconcile.knobs env query) ids
    clock (fun o => o = Some p) pid (listAllNotionRows db) 0 db
    Reconcile.lists_start) as Inv.
  destruct (Reconcile.reconcile_loop _ _ _ _ _ _ _ _ _) as [db' r].
  simpl in Inv |- *. apply Inv; [|exact Hp].
  intros row j db0 l0 Hin Hpid Hdb0.
  apply elem_of_listAllNotionRows in Hin as (p0 & Hp0 & Ha & Hrow).
  rewrite Hpid, Hp in Hp0. injection Hp0 as <-.
  unfold row_of in Hrow. simpl in Hrow.
  destruct Hwhy as [H|[H|(id & Hid & Hin & Hdel)]];
    [rewrite H in Hrow; discriminate | congruence |].
  rewrite Hid in Hrow. simpl in Hrow. injection Hrow as Hrow.
  assert (F1 : raindropId row = id) by (rewrite <- Hrow; reflexivity).
  assert (F2 : deletedFlag row = false) by (rewrite <- Hrow; exact Hdel).
  rewrite row_listed by (rewrite F1; exact Hin). rewrite F2. exact Hdb0.
Qed.

End LeftAlone.

(** The instance: the row of bookmark 5, which the listing does not hold,
    while the sync creates the rows of bookmarks 3, 2 and 1. *)
Lemma sync_writes_to_candidate_rows_only_witness :
  let p := Scenario.row 5 None false false None in
  let db := Scenario.db_of [p] in
  ∃ pl,
    Sync.plan (date := IsoDate.instance) Scenario.default_env Scenario.three
      Scenario.no_query Scenario.noon db = Ok pl
    ∧ List.map Raindrop._id (Sync.plan_candidates pl) = [3; 2; 1]
    ∧ (Sync.run (date := IsoDate.instance) Scenario.default_env Scenario.three
         Scenario.no_query Scenario.noon Scenario.at_noon db).1 !! 0%N = Some p.
Proof.
  intros p db.
  evar (pl : Sync.Plan).
  assert (Hpl : Sync.plan (date := IsoDate.instance) Scenario.default_env
                  Scenario.three Scenario.no_query Scenario.noon db = Ok pl)
    by (subst pl; vm_compute; reflexivity).
  assert (Hids : List.map Raindrop._id (Sync.plan_candidates pl) = [3; 2; 1])
    by (vm_compute; reflexivity).
  exists pl. split; [exact Hpl|]. split; [exact Hids|].
  apply (sync_writes_to_candidate_rows_only (date := IsoDate.instance)
           Scenario.default_env Scenario.three Scenario.no_query Scenario.noon
           Scenario.at_noon db pl 0%N p Hpl eq_refl).
  right. right. intros item Hin Hid.
  assert (Hin' : Raindrop._id item ∈ List.map Raindrop._id (Sync.plan_candidates pl))
    by (apply list_elem_of_In, in_map, list_elem_of_In; exact Hin).
  rewrite Hids in Hin'. simpl in Hid. injection Hid as Hid. rewrite <- Hid in Hin'.
  repeat (apply elem_of_cons in Hin' as [Hin'|Hin']; [discriminate|]).
  apply elem_of_nil in Hin'. exact Hin'.
Defined.

(** The instance: the unflagged row of bookmark 7 and a listing that holds
    bookmark 7. *)
Lemma reconciliation_leaves_healthy_rows_alone_witness :
  let p := Scenario.row 7 None false false None in
  let db := Scenario.db_of [p] in
  Spec.listed_ids Scenario.default_env Scenario.listing_seven Scenario.no_query
  = Some {[7]}
  ∧ (Reconcile.run (date := IsoDate.instance) Scenario.default_env
       Scenario.listing_seven Scenario.no_query Scenario.at_noon db).1 !! 0%N
    = Some p.
Proof.
  intros p db.
  assert (Hids : Spec.listed_ids Scenario.default_env Scenario.listing_seven
                   Scenario.no_query = Some {[7]}) by (vm_compute; reflexivity).
  split; [exact Hids|].
  apply (reconciliation_leaves_healthy_rows_alone (date := IsoDate.instance)
           Scenario.default_env Scenario.listing_seven Scenario.no_query
           Scenario.at_noon db {[7]} 0%N p Hids eq_refl).
  right. right. exists 7. split; [reflexivity|].
  split; [apply elem_of_singleton; reflexivity | reflexivity].
Defined.

(** ** The enumeration and the flag *)

Module EnumerateFacts.
Import Raindrop Notion Spec ScanFacts ReconcileFacts.

Lemma foldl_ids (items : list RaindropItem) (s : gset Z) :
  foldl (fun s it => {[ _id it ]} ∪ s) s items
  = s ∪ list_to_set (List.map _id items).
Proof.
  revert s. induction items as [|it l IH]; intros s; simpl.
  - symmetry. apply union_empty_r_L.
  - rewrite IH, (union_comm_L {[ _id it ]} s), <- union_assoc_L. reflexivity.
Qed.

(** Over a service that lists [all], the enumeration holds the ids of the
    first [page * n] items when it asks for page [page], and with enough
    iterations left it ends with the ids of them all. *)
Lemma enumerate_lists env api coll k all :
  Js.truthy_opt (env "RAINDROP_ACCESS_TOKEN") = true → lists api coll all →
  0 < Reconcile.PER_PAGE k →
  let n := Z.to_nat (Reconcile.PER_PAGE k) in
  ∀ remaining page st,
    st.1 = list_to_set (List.map _id (take (page * n) all)) →
    (length all ≤ (page + remaining) * n)%nat →
    ∃ pages,
      Reconcile.enumerate env api coll k remaining page st
      = Ok (list_to_set (List.map _id all), pages).
Proof.
  intros Htok Hlists Hpos n.
  assert (Hn : (0 < n)%nat) by (subst n; lia).
  induction remaining as [|r IH]; intros page [ids fetched] Hst Hlen;
    simpl in Hst |- *.
  - rewrite Nat.add_0_r in Hlen. rewrite take_ge in Hst by exact Hlen.
    subst ids. eauto.
  - rewrite (fetchRecentRaindrops_lists env api coll all _ _ Htok Hlists).
    simpl. unfold Scenario.paged. fold n.
    set (items := take n (drop (page * n) all)).
    assert (Hitems : length items = Nat.min n (length all - page * n))
      by (subst items; rewrite length_take, length_drop; reflexivity).
    destruct (length items =? 0)%nat eqn:E0.
    { apply Nat.eqb_eq in E0. rewrite take_ge in Hst by lia. subst ids. eauto. }
    apply Nat.eqb_neq in E0.
    assert (Hids : foldl (fun s it => {[ _id it ]} ∪ s) ids items
                   = list_to_set (List.map _id (take (S page * n) all))).
    { rewrite foldl_ids, Hst.
      replace (S page * n)%nat with (page * n + n)%nat by lia.
      rewrite <- (take_take_drop all (page * n) n). fold items.
      rewrite map_app, list_to_set_app_L. reflexivity. }
    destruct (Z.of_nat (length items) <? Reconcile.PER_PAGE k) eqn:Eshort.
    { apply Z.ltb_lt in Eshort. rewrite Hids.
      rewrite take_ge by (subst n; lia). eauto. }
    apply (IH (S page)); [exact Hids | lia].
Qed.

Section WithDate.
Context {date : JsDate}.

(** The one way an iteration sets the flag on a page that did not have
    it. *)
Lemma reconcile_row_flags env api k ids now row (db : Db) l q q' :
  db !! pageId row = Some q → Deleted q = false →
  (Reconcile.reconcile_row env api k ids now row db l).1 !! pageId row = Some q' →
  Deleted q' = true →
  Reconcile.dryRun k = false
  ∧ (raindropId row ∉ ids) ∧ reported_missing env api (raindropId row).
Proof.
  intros Hq Hd Hq' Hd'.
  assert (K0 : db !! pageId row = Some q' → False) by congruence.
  assert (K1 : ∀ f : Page → Page, (∀ x, Deleted (f x) = Deleted x) →
            alter f (pageId row) db !! pageId row = Some q' → False).
  { intros f Hf E. rewrite lookup_alter_eq, Hq in E. simpl in E.
    injection E as <-. rewrite Hf in Hd'. congruence. }
  assert (K1' : ∀ f : Page → Page, (∀ x, Deleted (f x) = false) →
            alter f (pageId row) db !! pageId row = Some q' → False).
  { intros f Hf E. rewrite lookup_alter_eq, Hq in E. simpl in E.
    injection E as <-. rewrite Hf in Hd'. discriminate. }
  assert (K2 : ∀ f g : Page → Page, (∀ x, Deleted (g x) = false) →
            alter g (pageId row) (alter f (pageId row) db) !! pageId row = Some q' →
            False).
  { intros f g Hg E. rewrite !lookup_alter_eq, Hq in E. simpl in E.
    injection E as <-. rewrite Hg in Hd'. discriminate. }
  unfold Reconcile.reconcile_row,
    clearDeleteFlags, updateCollectionOnly, archivePage, pages_update in Hq'.
  destruct (bool_decide (raindropId row ∈ ids)) eqn:Ein.
  { exfalso. destruct (deletedFlag row), (Reconcile.dryRun k); simpl in Hq';
      first [ exact (K0 Hq')
            | eapply K1'; [|exact Hq']; intros; reflexivity ]. }
  apply bool_decide_eq_false in Ein.
  destruct (fetchRaindropDetail env api (raindropId row)) as [d|msg] eqn:Ed;
    [|exfalso; exact (K0 Hq')].
  destruct (exists_ d && negb (default false (removed d))) eqn:Epres.
  { exfalso.
    destruct (locked row), (deletedFlag row), (Reconcile.dryRun k); simpl in Hq';
      first [ exact (K0 Hq')
            | eapply K1; [|exact Hq']; intros; reflexivity
            | eapply K2; [|exact Hq']; intros; reflexivity ]. }
  destruct (negb (deletedFlag row) || negb (Js.truthy_opt (deleteDetectedAt row))).
  { destruct (Reconcile.dryRun k) eqn:Edry; [exfalso; exact (K0 Hq')|].
    split; [reflexivity|]. split; [exact Ein|]. exists d. auto. }
  exfalso.
  destruct (Reconcile.at_least _ _); [|exact (K0 Hq')].
  destruct (String.eqb (Reconcile.DELETE_MODE k) "archive" && negb (locked row));
    [|exact (K0 Hq')].
  destruct (Reconcile.dryRun k); [exact (K0 Hq')|].
  eapply K1; [|exact Hq']. intros; reflexivity.
Qed.

End WithDate.
End EnumerateFacts.

Section ReconcileSafety.
Import Raindrop Notion Spec Terms ScanFacts ReconcileFacts RowFacts ReconcileWrites
  EnumerateFacts.
Context {date : JsDate}.

(** Over a service that answers every listing request with the pages of the
    collection, and with a page budget that covers the collection
    ([PER_PAGE * MAX_PAGES] items or more), step 1 of the reconciliation
    enumerates exactly the ids of the collection. *)
Theorem enumeration_is_complete_within_budget env api query coll all :
  env "RAINDROP_COLLECTION_ID" = Some coll →
  Js.truthy_opt (env "RAINDROP_ACCESS_TOKEN") = true →
  lists api coll all →
  let k := Reconcile.knobs env query in
  0 < Reconcile.PER_PAGE k →
  Z.of_nat (length all) ≤ Reconcile.PER_PAGE k * Reconcile.MAX_PAGES k →
  listed_ids env api query = Some (list_to_set (List.map _id all)).
Proof.
  intros Hcoll Htok Hlists k Hpos Hbudget.
  destruct (enumerate_lists env api coll k all Htok Hlists Hpos
              (Z.to_nat (Reconcile.MAX_PAGES k)) 0%nat (∅, 0))
    as [pages E]; [reflexivity | nia |].
  unfold listed_ids. rewrite Hcoll. cbn [mbind option_bind].
  unfold k in E. rewrite E. reflexivity.
Qed.

(** A row that a reconciliation run flags deleted is, in a real run, a live
    row whose Raindrop id the enumeration did not return and which the detail
    check did not report present: no row is flagged on the strength of the
    listing alone. *)
Theorem flagged_only_when_the_item_is_gone env api query clock (db : Db) pid p p' :
  db !! pid = Some p → Deleted p = false →
  (Reconcile.run env api query clock db).1 !! pid = Some p' →
  Deleted p' = true →
  Reconcile.dryRun (Reconcile.knobs env query) = false ∧ archived p = false
  ∧ ∃ id ids, RaindropID p = Some id ∧ listed_ids env api query = Some ids
              ∧ (id ∉ ids) ∧ reported_missing env api id.
Proof.
  intros Hp Hd Hp' Hd'.
  assert (Hsame : db !! pid = Some p' → False) by congruence.
  unfold Reconcile.run in Hp'. unfold listed_ids.
  destruct (env "RAINDROP_COLLECTION_ID") as [coll|];
    [|exfalso; exact (Hsame Hp')].
  destruct (negb (Js.truthy coll)); [exfalso; exact (Hsame Hp')|]. simpl.
  set (k := Reconcile.knobs env query) in *.
  destruct (Reconcile.enumerate env api coll k _ _ _) as [[ids n]|];
    [|exfalso; exact (Hsame Hp')].
  set (Cond :=
    Reconcile.dryRun k = false ∧ archived p = false
    ∧ ∃ id, RaindropID p = Some id ∧ (id ∉ ids) ∧ reported_missing env api id).
  pose proof (reconcile_loop_invariant_at env api k ids clock
    (fun o => ∃ q, o = Some q ∧ (Deleted q = true → Cond)) pid
    (listAllNotionRows db) 0 db Reconcile.lists_start) as Inv.
  destruct (Reconcile.reconcile_loop env api k ids clock 0 (listAllNotionRows db)
              db Reconcile.lists_start) as [db' r].
  simpl in Inv, Hp'.
  assert (Hfinal : ∃ q, db' !! pid = Some q ∧ (Deleted q = true → Cond)).
  { apply Inv; [|exists p; split; [exact Hp | congruence]].
    intros row j db0 l0 Hin Hpid (q & Hq & HC).
    apply elem_of_listAllNotionRows in Hin as (p0 & Hp0 & Ha0 & Hrow).
    rewrite Hpid, Hp in Hp0. injection Hp0 as <-.
    pose proof (reconcile_row_kept env api k ids (clock j) row db0 l0 pid) as Ek.
    rewrite Hq in Ek. simpl in Ek.
    destruct ((Reconcile.reconcile_row env api k ids (clock j) row db0 l0).1 !! pid)
      as [q1|] eqn:Eq1; [|discriminate].
    exists q1. split; [reflexivity|]. intros Hq1.
    destruct (Deleted q) eqn:Edq; [exact (HC eq_refl)|].
    subst pid.
    destruct (reconcile_row_flags env api k ids (clock j) row db0 l0 q q1
                Hq Edq Eq1 Hq1) as (D1 & D2 & D3).
    unfold row_of in Hrow. simpl in Hrow.
    destruct (RaindropID p) as [id|] eqn:Eid; simpl in Hrow; [|discriminate].
    injection Hrow as Hrow.
    assert (F1 : raindropId row = id) by (rewrite <- Hrow; reflexivity).
    rewrite F1 in D2, D3.
    unfold Cond. split; [exact D1|]. split; [exact Ha0|].
    exists id. split; [reflexivity|]. split; assumption. }
  destruct Hfinal as (q & Hq & HC).
  assert (q = p') as -> by congruence.
  destruct (HC Hd') as (C1 & C2 & id & C3 & C4 & C5).
  split; [exact C1|]. split; [exact C2|]. exists id, ids.
  split; [exact C3|]. split; [reflexivity|]. split; assumption.
Qed.

End ReconcileSafety.

(** The instance: three bookmarks, pages of fifty. *)
Lemma enumeration_is_complete_within_budget_witness :
  Spec.listed_ids Scenario.default_env Scenario.three Scenario.no_query
  = Some (list_to_set [3; 2; 1]).
Proof.
  assert (Hlists : Spec.lists Scenario.three "4242"
                     (Scenario.bookmarks 3 3 Scenario.noon)).
  { intros perPage page. eexists _, _. split; reflexivity. }
  exact (enumeration_is_complete_within_budget Scenario.default_env Scenario.three
           Scenario.no_query "4242" (Scenario.bookmarks 3 3 Scenario.noon)
           eq_refl eq_refl Hlists ltac:(vm_compute; reflexivity)
           ltac:(vm_compute; discriminate)).
Defined.

(** The instance: the unflagged row of bookmark 7 and a collection that
    holds nothing any more. *)
Lemma flagged_only_when_the_item_is_gone_witness :
  let p := Scenario.row 7 None false false None in
  let db := Scenario.db_of [p] in
  let db' := (Reconcile.run (date := IsoDate.instance) Scenario.default_env
                Scenario.emptied Scenario.no_query Scenario.at_noon db).1 in
  ∃ p', db' !! 0%N = Some p' ∧ Notion.Deleted p' = true
        ∧ Spec.reported_missing Scenario.default_env Scenario.emptied 7.
Proof.
  intros p db db'.
  evar (p' : Notion.Page).
  assert (Hp' : db' !! 0%N = Some p') by (subst p'; vm_compute; reflexivity).
  assert (Hd' : Notion.Deleted p' = true) by (vm_compute; reflexivity).
  pose proof (flagged_only_when_the_item_is_gone (date := IsoDate.instance)
                Scenario.default_env Scenario.emptied Scenario.no_query
                Scenario.at_noon db 0%N p p' eq_refl eq_refl Hp' Hd') as W.
  destruct W as (_ & _ & id & ids & Hid & _ & _ & W).
  exists p'. split; [exact Hp'|]. split; [exact Hd'|].
  injection Hid as <-. exact W.
Defined.

(** ** Settings that are missing *)

Section MissingSettings.
Import Raindrop Notion Spec.
Context {date : JsDate}.

Lemma token_missing env :
  Js.truthy_opt (env "RAINDROP_ACCESS_TOKEN") = false →
  getRaindropToken env = Throw "Missing RAINDROP_ACCESS_TOKEN".
Proof.
  unfold getRaindropToken.
  destruct (env "RAINDROP_ACCESS_TOKEN") as [t|]; simpl; [|reflexivity].
  intros ->. reflexivity.
Qed.

(** Without a collection id (unset or empty) both handlers end at once with
    "Missing RAINDROP_COLLECTION_ID".  With the collection id: a sync whose
    window start is not a valid date ends with "Invalid time value" before
    any request; without an access token (unset or empty) and with a page
    budget of one page or more, the sync (its window start valid) and the
    reconciliation end with "Missing RAINDROP_ACCESS_TOKEN" on their first
    listing request, the sync after the title request for the default
    collection has failed silently.  None of these runs has written
    anything. *)
Theorem missing_settings_abort_without_a_write
    env api query now clock (db : Db) :
  (Js.truthy_opt (env "RAINDROP_COLLECTION_ID") = false →
   Sync.run env api query now clock db
   = (db, Throw "Missing RAINDROP_COLLECTION_ID")
   ∧ Reconcile.run env api query clock db
     = (db, Throw "Missing RAINDROP_COLLECTION_ID"))
  ∧ (Js.truthy_opt (env "RAINDROP_COLLECTION_ID") = true →
     (Sync.sinceDate env now = None →
      Sync.run env api query now clock db = (db, Throw "Invalid time value"))
     ∧ (Js.truthy_opt (env "RAINDROP_ACCESS_TOKEN") = false →
        (is_Some (Sync.sinceDate env now) →
         0 < Sync.MAX_PAGES (Sync.knobs env query now) →
         Sync.run env api query now clock db
         = (db, Throw "Missing RAINDROP_ACCESS_TOKEN"))
        ∧ (0 < Reconcile.MAX_PAGES (Reconcile.knobs env query) →
           Reconcile.run env api query clock db
           = (db, Throw "Missing RAINDROP_ACCESS_TOKEN")))).
Proof.
  split.
  - intros Hcoll. unfold Sync.run, Sync.plan, Reconcile.run.
    destruct (env "RAINDROP_COLLECTION_ID") as [coll|]; simpl in *;
      [rewrite Hcoll|]; simpl; split; reflexivity.
  - intros Hcoll.
    destruct (env "RAINDROP_COLLECTION_ID") as [coll|] eqn:Ec; simpl in Hcoll;
      [|discriminate].
    split.
    { intros Hsince. unfold Sync.run, Sync.plan.
      rewrite Ec, Hcoll, Hsince. reflexivity. }
    intros Htok. apply token_missing in Htok.
    split.
    + intros [s Hsince] Hpages.
      assert (∃ r, Z.to_nat (Sync.MAX_PAGES (Sync.knobs env query now)) = S r)
        as [r E] by (exists (Nat.pred (Z.to_nat (Sync.MAX_PAGES
                                                   (Sync.knobs env query now)))); lia).
      unfold Sync.run, Sync.plan. rewrite Ec, Hcoll, Hsince.
      cbn [negb Sync.isoDateOnly mbind result_bind].
      unfold Sync.passA. rewrite E. cbn [Sync.passA_loop].
      unfold fetchRecentRaindrops. rewrite Htok. reflexivity.
    + intros Hpages.
      assert (∃ r, Z.to_nat (Reconcile.MAX_PAGES (Reconcile.knobs env query)) = S r)
        as [r E] by (exists (Nat.pred (Z.to_nat (Reconcile.MAX_PAGES
                                                   (Reconcile.knobs env query)))); lia).
      unfold Reconcile.run. rewrite Ec, Hcoll. cbn [negb].
      rewrite E. cbn [Reconcile.enumerate].
      unfold fetchRecentRaindrops. rewrite Htok. reflexivity.
Qed.

End MissingSettings.

(** ** The order of the candidates *)

Module UnionFacts.
Import Raindrop Notion Spec ScanFacts.

Section Maps.
Context {V : Type}.
Implicit Types (m l : Js.map V).

Lemma has_spec k m : Js.has k m = true ↔ k ∈ Js.keys m.
Proof.
  unfold Js.has. destruct (Js.get k m) eqn:E.
  - split; [intros _; exact (JsFacts.get_Some_key _ _ _ E) | reflexivity].
  - apply JsFacts.get_None in E. split; [discriminate | contradiction].
Qed.

Lemma entry_get k v m : NoDup (Js.keys m) → (k, v) ∈ m → Js.get k m = Some v.
Proof.
  induction m as [|[k0 v0] m IH]; intros Hnd Hin.
  - apply elem_of_nil in Hin. contradiction.
  - simpl in Hnd. apply NoDup_cons in Hnd as [Hk0 Hnd]. simpl.
    apply elem_of_cons in Hin as [[= -> ->]|Hin].
    + rewrite Z.eqb_refl. reflexivity.
    + destruct (k =? k0) eqn:E; [|exact (IH Hnd Hin)].
      apply Z.eqb_eq in E. subst k0. exfalso. apply Hk0.
      apply list_elem_of_fmap. exists (k, v). auto.
Qed.

Lemma fold_set_keys l :
  ∀ m, NoDup (Js.keys l) →
    Js.keys (fold_left (fun m kv => Js.set kv.1 kv.2 m) l m)
    = Js.keys m ++ List.filter (fun k => negb (Js.has k m)) (Js.keys l).
Proof.
  induction l as [|[k v] l IH]; intros m Hnd; simpl.
  - rewrite app_nil_r. reflexivity.
  - simpl in Hnd. apply NoDup_cons in Hnd as [Hk Hnd].
    rewrite (IH _ Hnd), JsFacts.keys_set.
    rewrite (List.filter_ext_in (fun x => negb (Js.has x (Js.set k v m)))
               (fun x => negb (Js.has x m))).
    + destruct (Js.has k m); simpl; [rewrite app_nil_r | rewrite <- app_assoc];
        reflexivity.
    + intros x Hx. unfold Js.has. rewrite JsFacts.get_set.
      destruct (x =? k) eqn:E; [|reflexivity].
      apply Z.eqb_eq in E. subst x. exfalso. apply Hk, list_elem_of_In, Hx.
Qed.

Lemma fold_set_get l :
  ∀ m id, NoDup (Js.keys l) →
    Js.get id (fold_left (fun m kv => Js.set kv.1 kv.2 m) l m)
    = match Js.get id l with Some v => Some v | None => Js.get id m end.
Proof.
  induction l as [|[k v] l IH]; intros m id Hnd; simpl; [reflexivity|].
  simpl in Hnd. apply NoDup_cons in Hnd as [Hk Hnd].
  rewrite (IH _ _ Hnd), JsFacts.get_set.
  destruct (id =? k) eqn:E; [|reflexivity].
  apply Z.eqb_eq in E. subst id.
  destruct (Js.get k l) eqn:G; [|reflexivity].
  exfalso. apply Hk. exact (JsFacts.get_Some_key _ _ _ G).
Qed.

End Maps.

Lemma union_keys (a b : Js.map RaindropItem) :
  NoDup (Js.keys a) → NoDup (Js.keys b) →
  Js.keys (Sync.union a b)
  = Js.keys a ++ List.filter (fun k => negb (Js.has k a)) (Js.keys b).
Proof.
  intros Ha Hb. unfold Sync.union.
  rewrite (fold_set_keys b _ Hb), (fold_set_keys a [] Ha). simpl.
  assert (Hall : ∀ l : list Z, List.filter (fun _ => true) l = l).
  { induction l as [|x l IH]; simpl; [|rewrite IH]; reflexivity. }
  rewrite Hall.
  f_equal. apply List.filter_ext. intros k. f_equal.
  unfold Js.has. rewrite (fold_set_get a [] k Ha). simpl.
  destruct (Js.get k a); reflexivity.
Qed.

Lemma union_get (a b : Js.map RaindropItem) id :
  NoDup (Js.keys a) → NoDup (Js.keys b) →
  Js.get id (Sync.union a b)
  = match Js.get id b with Some it => Some it | None => Js.get id a end.
Proof.
  intros Ha Hb. unfold Sync.union.
  rewrite (fold_set_get b _ id Hb), (fold_set_get a [] id Ha). simpl.
  destruct (Js.get id b); [reflexivity|]. destruct (Js.get id a); reflexivity.
Qed.

Section WithDate.
Context {date : JsDate}.

Lemma keptOf_NoDup since l :
  ∀ kept, NoDup (Js.keys kept) → NoDup (Js.keys (keptOf since l kept)).
Proof.
  induction l as [|it l IH]; intros kept Hk; simpl; [exact Hk|].
  apply IH. destruct (Sync.createdOld since it); [exact Hk|].
  apply JsFacts.NoDup_keys_set. exact Hk.
Qed.

Lemma set_all_NoDup items :
  ∀ m : Js.map RaindropItem,
    NoDup (Js.keys m) → NoDup (Js.keys (Sync.set_all items m)).
Proof.
  unfold Sync.set_all. induction items as [|it l IH]; intros m Hm; simpl.
  - exact Hm.
  - apply IH, JsFacts.NoDup_keys_set. exact Hm.
Qed.

Lemma passA_loop_NoDup env api (db : Db) coll k remaining :
  ∀ page st st',
    NoDup (Js.keys (Sync.passAItems st)) →
    Sync.passA_loop env api db coll k remaining page st = Ok st' →
    NoDup (Js.keys (Sync.passAItems st')).
Proof.
  induction remaining as [|r IH]; intros page st st' Hst; simpl.
  - intros [= <-]. exact Hst.
  - destruct (fetchRecentRaindrops env api coll (Sync.perPageA k) page)
      as [pageItems|]; simpl; [|discriminate].
    destruct (length pageItems =? 0)%nat; [intros [= <-]; exact Hst|].
    destruct (scanPage_spec k (getPagesByRaindropIds db (List.map _id pageItems))
                pageItems (Sync.passAItems st) (Sync.consecutiveExisting st))
      as (m & _ & Hkept & _).
    destruct (Sync.scanPage k _ pageItems _ _) as [[kept c] stopped].
    simpl in Hkept.
    assert (Hk : NoDup (Js.keys kept))
      by (rewrite Hkept; apply keptOf_NoDup; exact Hst).
    repeat case_match; try (intros [= <-]; exact Hk).
    apply IH. exact Hk.
Qed.

Lemma search_loop_NoDup env api coll search k remaining :
  ∀ page st st',
    NoDup (Js.keys st.1) →
    Sync.search_loop env api coll search k remaining page st = Ok st' →
    NoDup (Js.keys st'.1).
Proof.
  induction remaining as [|r IH]; intros page st st' Hst; simpl.
  - intros [= <-]. exact Hst.
  - destruct (fetchRaindropsBySearch env api coll search (Sync.PER_PAGE k) page)
      as [pageItems|]; simpl; [|discriminate].
    repeat case_match; try (intros [= <-]; simpl;
                            first [exact Hst | apply set_all_NoDup; exact Hst]).
    apply IH. simpl. apply set_all_NoDup. exact Hst.
Qed.

End WithDate.
End UnionFacts.

Section CandidateOrder.
Import Raindrop Notion Spec ScanFacts SyncBounds UnionFacts.
Context {date : JsDate}.

(** The candidate list is pass A's items in the order pass A kept them,
    followed by the items that only pass B found, in pass B's order, cut to
    the first [limitQP]; for an id that both passes hold, the candidate is
    pass B's copy of the item. *)
Theorem candidates_list_pass_A_first env api query now (db : Db) pl :
  Sync.plan env api query now db = Ok pl →
  let a := Sync.passAItems (Sync.plan_passA pl) in
  let b := (Sync.plan_passB pl).1 in
  List.map _id (Sync.plan_candidates pl)
  = take (Z.to_nat (Sync.limitQP (Sync.knobs env query now)))
      (Js.keys a ++ List.filter (fun id => negb (Js.has id a)) (Js.keys b))
  ∧ ∀ item, item ∈ Sync.plan_candidates pl →
      Some item = match Js.get (_id item) b with
                  | Some it => Some it
                  | None => Js.get (_id item) a
                  end.
Proof.
  intros Epl a b.
  destruct (plan_inv env api query now db pl Epl) as (_ & Ha & Hb & Hc).
  set (k := Sync.knobs env query now) in *.
  assert (Hlim : 1 ≤ Sync.limitQP k ≤ 500) by (apply toIntInRange_bounds; lia).
  assert (Hwa : well_keyed a).
  { eapply passA_loop_well_keyed; [|exact Ha]. apply well_keyed_nil. }
  assert (Hna : NoDup (Js.keys a)).
  { eapply passA_loop_NoDup; [|exact Ha]. apply NoDup_nil_2. }
  unfold Sync.passB in Hb.
  destruct (Sync.search_loop env api _ _ k _ 0 ([], 0)) as [b1|] eqn:Eb1;
    simpl in Hb; [|discriminate].
  assert (Hwb : well_keyed b).
  { eapply search_loop_well_keyed; [|exact Hb].
    eapply search_loop_well_keyed; [|exact Eb1]. apply well_keyed_nil. }
  assert (Hnb : NoDup (Js.keys b)).
  { eapply search_loop_NoDup; [|exact Hb].
    eapply search_loop_NoDup; [|exact Eb1]. apply NoDup_nil_2. }
  assert (Hwu : well_keyed (Sync.union a b)).
  { apply well_keyed_fold; [exact Hwb|].
    apply well_keyed_fold; [exact Hwa | apply well_keyed_nil]. }
  split.
  - rewrite Hc. fold a b. rewrite candidateList_ids by (lia || exact Hwu).
    rewrite union_keys by assumption. reflexivity.
  - intros item Hin. rewrite Hc in Hin. fold a b in Hin.
    rewrite <- (union_get a b (_id item) Hna Hnb). symmetry.
    assert (Hv : item ∈ Js.values (Sync.union a b)).
    { unfold Sync.candidateList, Sync.slice0 in Hin.
      destruct (0 <=? _); apply elem_of_take in Hin as (i & Hi & _);
        exact (list_elem_of_lookup_2 _ _ _ Hi). }
    apply list_elem_of_fmap in Hv as ([key it] & -> & Hentry). simpl.
    rewrite (Hwu key it Hentry).
    apply entry_get; [|exact Hentry].
    rewrite union_keys by assumption.
    rewrite <- (union_keys a b Hna Hnb).
    unfold Sync.union. apply fold_set_NoDup, fold_set_NoDup, NoDup_nil_2.
Qed.

End CandidateOrder.

(** The instance: bookmark 1 from pass A and bookmark 2 from pass B, with
    [?limit=1]. *)
Lemma candidates_list_pass_A_first_witness :
  ∃ pl,
    Sync.plan (date := IsoDate.instance) Scenario.default_env
      Scenario.aging_and_edited (Scenario.query_of [("limit", "1")])
      Scenario.noon ∅ = Ok pl
    ∧ Js.keys (Sync.passAItems (Sync.plan_passA pl)) = [1]
    ∧ Js.keys (Sync.plan_passB pl).1 = [2]
    ∧ List.map Raindrop._id (Sync.plan_candidates pl) = [1].
Proof.
  evar (pl : Sync.Plan).
  assert (Hpl : Sync.plan (date := IsoDate.instance) Scenario.default_env
                  Scenario.aging_and_edited (Scenario.query_of [("limit", "1")])
                  Scenario.noon ∅ = Ok pl)
    by (subst pl; vm_compute; reflexivity).
  destruct (candidates_list_pass_A_first (date := IsoDate.instance)
              Scenario.default_env Scenario.aging_and_edited
              (Scenario.query_of [("limit", "1")]) Scenario.noon ∅ pl Hpl)
    as [W _].
  exists pl. split; [exact Hpl|].
  split; [vm_compute; reflexivity|]. split; [vm_compute; reflexivity|].
  rewrite W. vm_compute. reflexivity.
Defined.


(** The instances: no setting at all, the collection id alone, and the
    required settings with [LOOKBACK_HOURS=3000000000]. *)
Lemma missing_settings_abort_without_a_write_witness :
  (Sync.run (date := IsoDate.instance) (fun _ => None) Scenario.aging_and_edited
     (Scenario.query_of []) Scenario.noon (fun _ => Scenario.noon) ∅
   = (∅, Throw "Missing RAINDROP_COLLECTION_ID")
   ∧ Reconcile.run (date := IsoDate.instance) (fun _ => None)
       Scenario.aging_and_edited (Scenario.query_of []) (fun _ => Scenario.noon) ∅
     = (∅, Throw "Missing RAINDROP_COLLECTION_ID"))
  ∧ (Sync.run (date := IsoDate.instance)
       (Scenario.lookup_env [("RAINDROP_COLLECTION_ID", "12345")])
       Scenario.aging_and_edited (Scenario.query_of []) Scenario.noon
       (fun _ => Scenario.noon) ∅
     = (∅, Throw "Missing RAINDROP_ACCESS_TOKEN")
     ∧ Reconcile.run (date := IsoDate.instance)
         (Scenario.lookup_env [("RAINDROP_COLLECTION_ID", "12345")])
         Scenario.aging_and_edited (Scenario.query_of []) (fun _ => Scenario.noon) ∅
       = (∅, Throw "Missing RAINDROP_ACCESS_TOKEN"))
  ∧ Sync.run (date := IsoDate.instance)
      (Scenario.lookup_env [("RAINDROP_ACCESS_TOKEN", "token");
                            ("RAINDROP_COLLECTION_ID", "12345");
                            ("LOOKBACK_HOURS", "3000000000")])
      Scenario.aging_and_edited (Scenario.query_of []) Scenario.noon
      (fun _ => Scenario.noon) ∅
    = (∅, Throw "Invalid time value").
Proof.
  split; [|split].
  - pose proof (missing_settings_abort_without_a_write (date := IsoDate.instance)
                  (fun _ => None) Scenario.aging_and_edited (Scenario.query_of [])
                  Scenario.noon (fun _ => Scenario.noon) ∅) as [W _].
    exact (W eq_refl).
  - pose proof (missing_settings_abort_without_a_write (date := IsoDate.instance)
                  (Scenario.lookup_env [("RAINDROP_COLLECTION_ID", "12345")])
                  Scenario.aging_and_edited (Scenario.query_of [])
                  Scenario.noon (fun _ => Scenario.noon) ∅) as [_ W].
    specialize (W eq_refl) as [_ W]. specialize (W eq_refl) as [W1 W2].
    split; [apply W1 | apply W2]; vm_compute; first [reflexivity | eexists; reflexivity].
  - pose proof (missing_settings_abort_without_a_write (date := IsoDate.instance)
                  (Scenario.lookup_env [("RAINDROP_ACCESS_TOKEN", "token");
                                        ("RAINDROP_COLLECTION_ID", "12345");
                                        ("LOOKBACK_HOURS", "3000000000")])
                  Scenario.aging_and_edited (Scenario.query_of [])
                  Scenario.noon (fun _ => Scenario.noon) ∅) as [_ W].
    specialize (W eq_refl) as [W _]. apply W. vm_compute. reflexivity.
Defined.

(** ** A process that keeps its title cache *)

Module CachedFacts.
Import Raindrop Notion Spec TitleCache.

Lemma grown_refl env api c : Cached.grown env api c c.
Proof.
  intros key. split; [auto|]. intros t H. unfold Cached.call. rewrite H.
  reflexivity.
Qed.

(** A call returns what [Cached.call] says, and the cache keeps growing. *)
Lemma get_call env api c0 c key :
  Cached.grown env api c0 c →
  (getCollectionTitleById env api key c).1 = Cached.call c0 env api key
  ∧ Cached.grown env api c0 (getCollectionTitleById env api key c).2.
Proof.
  intros G. unfold getCollectionTitleById.
  destruct (c !! key) as [t|] eqn:E.
  - simpl. split; [symmetry; apply (G key); exact E | exact G].
  - pose proof (proj1 (G key) E) as E0.
    assert (Ecall : Cached.call c0 env api key
                    = Raindrop.getCollectionTitleById env api key)
      by (unfold Cached.call; rewrite E0; reflexivity).
    rewrite Ecall. unfold Raindrop.getCollectionTitleById.
    destruct (getRaindropToken env) as [tok|msg] eqn:Etok; simpl;
      [|split; [reflexivity | exact G]].
    destruct (collection_item_title api key) as [msg|status t] eqn:Ereq; simpl;
      [split; [reflexivity | exact G]|].
    destruct (ok status) eqn:Eok; simpl; [|split; [reflexivity | exact G]].
    split; [reflexivity|].
    destruct t as [s|]; [|exact G]. destruct (Js.truthy s); [|exact G].
    intros key'. destruct (decide (key' = key)) as [->|Hne].
    + rewrite lookup_insert_eq. split; [discriminate|]. intros t [= <-].
      rewrite Ecall. unfold Raindrop.getCollectionTitleById.
      rewrite Etok. simpl. rewrite Ereq, Eok. reflexivity.
    + rewrite lookup_insert_ne by congruence. apply G.
Qed.

(** With the token set, the request to the service seen through the cache
    returns what the call returns. *)
Lemma through_call env api c0 key tok :
  getRaindropToken env = Ok tok →
  Raindrop.getCollectionTitleById env (Cached.through c0 api) key
  = Cached.call c0 env api key.
Proof.
  intros Htok. unfold Cached.call, Raindrop.getCollectionTitleById.
  rewrite Htok. simpl. destruct (c0 !! key); reflexivity.
Qed.



Section WithDate.
Context {date : JsDate}.

Lemma passA_through env api c0 (db : Db) coll k remaining :
  ∀ page st,
    Sync.passA_loop env (Cached.through c0 api) db coll k remaining page st
    = Sync.passA_loop env api db coll k remaining page st.
Proof.
  induction remaining as [|r IH]; intros page st; simpl; [reflexivity|].
  change (fetchRecentRaindrops env (Cached.through c0 api))
    with (fetchRecentRaindrops env api).
  destruct (fetchRecentRaindrops env api coll (Sync.perPageA k) page);
    simpl; [|reflexivity].
  repeat case_match; try reflexivity. apply IH.
Qed.

Lemma search_through env api c0 coll search k remaining :
  ∀ page st,
    Sync.search_loop env (Cached.through c0 api) coll search k remaining page st
    = Sync.search_loop env api coll search k remaining page st.
Proof.
  induction remaining as [|r IH]; intros page st; simpl; [reflexivity|].
  change (fetchRaindropsBySearch env (Cached.through c0 api))
    with (fetchRaindropsBySearch env api).
  destruct (fetchRaindropsBySearch env api coll search (Sync.PER_PAGE k) page);
    simpl; [|reflexivity].
  repeat case_match; try reflexivity. apply IH.
Qed.

Lemma passB_through env api c0 coll k :
  Sync.passB env (Cached.through c0 api) coll k = Sync.passB env api coll k.
Proof.
  unfold Sync.passB. rewrite search_through.
  destruct (Sync.search_loop env api coll _ k _ _ _); simpl; [|reflexivity].
  apply search_through.
Qed.

(** Without the token no listing request gets through, and a scan that
    makes none has no candidate. *)
Lemma no_token_no_candidates env api (db : Db) coll k msg a b :
  getRaindropToken env = Throw msg →
  Sync.passA env api db coll k = Ok a → Sync.passB env api coll k = Ok b →
  Sync.candidateList k (Sync.union (Sync.passAItems a) b.1) = [].
Proof.
  intros Htok. unfold Sync.passA, Sync.passB.
  destruct (Z.to_nat (Sync.MAX_PAGES k)) as [|r]; simpl.
  - intros [= <-] [= <-]. unfold Sync.candidateList, Sync.slice0. simpl.
    repeat case_match; first [reflexivity | apply take_nil].
  - unfold fetchRecentRaindrops. rewrite Htok. discriminate.
Qed.

Lemma resolveTitle_sim env api c0 c coll dt item tok :
  getRaindropToken env = Ok tok → Cached.grown env api c0 c →
  (Cached.resolveTitle env api coll dt item c).1
  = Sync.resolveTitle env (Cached.through c0 api) coll dt item
  ∧ Cached.grown env api c0 (Cached.resolveTitle env api coll dt item c).2.
Proof.
  intros Htok G. unfold Cached.resolveTitle, Sync.resolveTitle.
  destruct (Sync.collKey coll item) as [key|]; [|split; [reflexivity | exact G]].
  pose proof (get_call env api c0 c key G) as [E1 E2].
  destruct (getCollectionTitleById env api key c) as [r c']. simpl in E1, E2.
  subst r. rewrite (through_call env api c0 key tok Htok).
  split; [reflexivity | exact E2].
Qed.

Lemma upsert_sim env api c0 coll dry existing dt clock tok :
  getRaindropToken env = Ok tok →
  ∀ cands i (db : Db) t c,
    Cached.grown env api c0 c →
    (Cached.upsert_loop env api coll dry existing dt clock i cands db t c).1
    = Sync.upsert_loop env (Cached.through c0 api) coll dry existing dt clock i
        cands db t
    ∧ Cached.grown env api c0
        (Cached.upsert_loop env api coll dry existing dt clock i cands db t c).2.
Proof.
  intros Htok. induction cands as [|item rest IH]; intros i db t c G; simpl.
  - split; [reflexivity | exact G].
  - pose proof (resolveTitle_sim env api c0 c coll dt item tok Htok G) as [E1 E2].
    destruct (Cached.resolveTitle env api coll dt item c) as [r c'].
    simpl in E1, E2. rewrite <- E1.
    destruct r as [title|msg]; [apply IH; exact E2 | split; [reflexivity | exact E2]].
Qed.

(** An invocation of the sync in a process that holds the cache [c0] ends as
    [Sync.run] does over the service seen through [c0]. *)
Lemma sync_run_through env api query now clock (db : Db) c0 :
  (Cached.sync_run env api query now clock db c0).1
  = Sync.run env (Cached.through c0 api) query now clock db
  ∧ Cached.grown env api c0 (Cached.sync_run env api query now clock db c0).2.
Proof.
  unfold Cached.sync_run, Sync.run, Sync.plan.
  destruct (env "RAINDROP_COLLECTION_ID") as [coll|] eqn:Ec;
    [|split; [reflexivity | apply grown_refl]].
  destruct (negb (Js.truthy coll)); [split; [reflexivity | apply grown_refl]|].
  destruct (Sync.isoDateOnly (Sync.sinceDate env now)) as [day|msg];
    cbn [mbind result_bind]; [|split; [reflexivity | apply grown_refl]].
  pose proof (get_call env api c0 c0 coll (grown_refl env api c0)) as [E1 E2].
  destruct (getCollectionTitleById env api coll c0) as [r c1]. simpl in E1, E2.
  unfold Sync.passA. rewrite passA_through, passB_through.
  fold (Sync.passA env api db coll (Sync.knobs env query now)).
  destruct (Sync.passA env api db coll (Sync.knobs env query now)) as [a|msg] eqn:Ea;
    cbn [mbind result_bind]; [|split; [reflexivity | exact E2]].
  destruct (Sync.passB env api coll (Sync.knobs env query now)) as [b|msg] eqn:Eb;
    cbn [mbind result_bind]; [|split; [reflexivity | exact E2]].
  cbn [Sync.plan_knobs Sync.plan_existing Sync.plan_defaultTitle
       Sync.plan_candidates default].
  change (id coll) with coll.
  destruct (getRaindropToken env) as [tok|msg] eqn:Etok.
  - rewrite (through_call env api c0 coll tok Etok), <- E1.
    pose proof (upsert_sim env api c0 coll
                  (Sync.dryRun (Sync.knobs env query now))
                  (getPagesByRaindropIds db
                     (List.map _id
                        (Sync.candidateList (Sync.knobs env query now)
                           (Sync.union (Sync.passAItems a) b.1))))
                  (catch_undefined r) clock tok Etok
                  (Sync.candidateList (Sync.knobs env query now)
                     (Sync.union (Sync.passAItems a) b.1))
                  0%nat db Sync.tally_start c1 E2) as [S1 S2].
    destruct (Cached.upsert_loop _ _ _ _ _ _ _ _ _ _ _ _) as [[db' t] c2].
    cbn [fst snd] in S1, S2. rewrite <- S1. split; [reflexivity | exact S2].
  - rewrite (no_token_no_candidates env api db coll _ msg a b Etok Ea Eb).
    simpl. split; [reflexivity | exact E2].
Qed.




End WithDate.
End CachedFacts.

Section CachedRuns.
Import Raindrop Notion Spec Terms ReconcileFacts RowFacts SyncBounds CachedFacts.
Context {date : JsDate}.


(** The plan does not depend on the titles but for the default title. *)
Lemma plan_through env api c0 query now (db : Db) pl' :
  Sync.plan env (Cached.through c0 api) query now db = Ok pl' →
  ∃ pl, Sync.plan env api query now db = Ok pl
        ∧ Sync.plan_candidates pl = Sync.plan_candidates pl'
        ∧ Sync.plan_defaultTitle pl'
          = catch_undefined
              (Raindrop.getCollectionTitleById env (Cached.through c0 api)
                 (default "" (env "RAINDROP_COLLECTION_ID"))).
Proof.
  unfold Sync.plan.
  destruct (env "RAINDROP_COLLECTION_ID") as [coll|]; [|discriminate].
  destruct (negb (Js.truthy coll)); [discriminate|].
  destruct (Sync.isoDateOnly _) as [day|]; cbn [mbind result_bind]; [|discriminate].
  unfold Sync.passA. rewrite passA_through, passB_through.
  destruct (Sync.passA_loop env api db coll _ _ _ _) as [a|];
    cbn [mbind result_bind]; [|discriminate].
  destruct (Sync.passB env api coll _) as [b|]; cbn [mbind result_bind];
    [|discriminate].
  intros [= <-]. eexists. split; [reflexivity|]. split; reflexivity.
Qed.

(** A run that has a candidate has made a listing request, so it has the
    token. *)
Lemma candidates_need_token env api query now (db : Db) pl item :
  Sync.plan env api query now db = Ok pl → item ∈ Sync.plan_candidates pl →
  ∃ tok, getRaindropToken env = Ok tok.
Proof.
  intros Epl Hin.
  destruct (plan_inv env api query now db pl Epl) as (_ & Ha & Hb & Hc).
  destruct (getRaindropToken env) as [tok|msg] eqn:Etok; [eauto|].
  rewrite Hc, (no_token_no_candidates env api db _ _ msg _ _ Etok Ha Hb) in Hin.
  apply elem_of_nil in Hin. contradiction.
Qed.


(** After a real sync that returns its report, in a process that holds any
    title cache and over a database with at most one live row per id, every
    candidate reported as created or updated has a live row whose title,
    URL, tags (the first fifty), excerpt, notes, site, collection and
    creation date are the item's, and whose stored timestamp is the item's.
    The collection is the item's own collection title, else the title
    resolved for it: the one the cache held for the item's collection when
    the run began, else the one the service returns, else the same for the
    configured collection. *)
Theorem written_rows_mirror_their_items
    env api query now clock (db db' : Db) rep cache cache' :
  unique_ids db →
  Cached.sync_run env api query now clock db cache = (db', Ok rep, cache') →
  Sync.r_dryRun rep = false →
  ∃ pl,
    Sync.plan env api query now db = Ok pl
    ∧ ∀ item, item ∈ Sync.plan_candidates pl →
        _id item ∈ default [] (Sync.r_createdIds rep)
                   ++ default [] (Sync.r_updatedIds rep) →
        mirrors db' item
          (Cached.title_for cache env api
             (default "" (env "RAINDROP_COLLECTION_ID")) item).
Proof.
  intros Huniq Hrun Hreal.
  destruct (sync_run_through env api query now clock db cache) as [E _].
  rewrite Hrun in E. cbn [fst] in E. symmetry in E.
  destruct (written_rows_of_run env (Cached.through cache api) query now clock
              db db' rep Huniq E Hreal) as (pl' & Epl' & W).
  destruct (plan_through env api cache query now db pl' Epl')
    as (pl & Epl & Hcands & Hdt).
  exists pl. split; [exact Epl|]. intros item Hin Hid.
  destruct (candidates_need_token env api query now db pl item Epl Hin)
    as [tok Htok].
  rewrite Hcands in Hin. destruct (W item Hin Hid) as (title & Ht & Hm).
  assert (title = Cached.title_for cache env api
                    (default "" (env "RAINDROP_COLLECTION_ID")) item) as <-;
    [|exact Hm].
  rewrite Hdt, (through_call env api cache _ tok Htok) in Ht.
  unfold Sync.resolveTitle in Ht. unfold Cached.title_for, Cached.held.
  destruct (Sync.collKey _ item) as [key|]; [|congruence].
  rewrite (through_call env api cache key tok Htok) in Ht.
  destruct (Cached.call cache env api key) as [[t|]|]; simpl in Ht |- *;
    congruence.
Qed.

End CachedRuns.



(** Two invocations in one process.  The first, over a service that titles
    collection 99 "Old name", moves the row of bookmark 7 and leaves the
    title in the cache; the service then renames the collection, and the
    second invocation, for the row of bookmark 8, writes the cached title. *)
Example second_invocation_writes_the_cached_title :
  let renamed title :=
    Scenario.service [] (fun _ _ => false)
      (fun _ => Raindrop.Response 200 (Some title))
      (fun _ => Raindrop.Response 200
         (Some {| Raindrop.raw_removed := false;
                  Raindrop.raw_collectionId := Some 99;
                  Raindrop.raw_collection_id := None;
                  Raindrop.raw_lastUpdate := None |})) in
  let db := Scenario.db_of [Scenario.row 7 None false false None] in
  let '(db1, _, cache1) :=
    Cached.reconcile_run (date := IsoDate.instance) Scenario.default_env
      (renamed "Old name") Scenario.no_query Scenario.at_noon db ∅ in
  let db2 := Notion.pages_create (Scenario.row 8 None false false None) db1 in
  let '(db3, _, cache3) :=
    Cached.reconcile_run (date := IsoDate.instance) Scenario.default_env
      (renamed "New name") Scenario.no_query Scenario.at_noon db2 cache1 in
  cache1 = {[ "99" := "Old name" ]}
  ∧ Notion.Collection <$> db1 !! 0%N = Some (Some "Old name")
  ∧ Notion.RaindropID <$> db3 !! 1%N = Some (Some 8)
  ∧ Notion.Collection <$> db3 !! 1%N = Some (Some "Old name")
  ∧ Raindrop.getCollectionTitleById Scenario.default_env (renamed "New name") "99"
    = Ok (Some "New name")
  ∧ cache3 = cache1.
Proof. vm_compute. repeat split. Qed.

(** The instance: three new bookmarks and an empty database, in a process
    whose cache holds the title "Inbox" for the configured collection; the
    row of bookmark 2 after the run. *)
Lemma written_rows_mirror_their_items_witness :
  let cache : TitleCache.collectionTitleCache := {[ "4242" := "Inbox" ]} in
  ∃ db' rep cache',
    Cached.sync_run (date := IsoDate.instance) Scenario.default_env
      Scenario.three Scenario.no_query Scenario.noon Scenario.at_noon ∅ cache
    = (db', Ok rep, cache')
    ∧ Sync.r_createdIds rep = Some [3; 2; 1]
    ∧ Terms.mirrors db' (Scenario.bookmark 2 (Scenario.noon - 60000))
        (Some "Inbox").
Proof.
  intros cache.
  destruct (Cached.sync_run (date := IsoDate.instance) Scenario.default_env
              Scenario.three Scenario.no_query Scenario.noon Scenario.at_noon
              ∅ cache) as [[db' [rep|msg]] cache'] eqn:Hrun;
    [|vm_compute in Hrun; discriminate].
  assert (Hids : Sync.r_createdIds rep = Some [3; 2; 1]
                 ∧ Sync.r_updatedIds rep = Some []
                 ∧ Sync.r_dryRun rep = false).
  { pose proof Hrun as Hc. vm_compute in Hc. injection Hc as _ <- _.
    repeat split. }
  destruct Hids as (Hcr & Hup & Hreal).
  pose proof (written_rows_mirror_their_items (date := IsoDate.instance)
                Scenario.default_env Scenario.three Scenario.no_query
                Scenario.noon Scenario.at_noon ∅ db' rep cache cache'
                unique_ids_empty Hrun Hreal) as W.
  destruct W as (pl & Hpl & W).
  exists db', rep, cache'. split; [reflexivity|]. split; [exact Hcr|].
  assert (Hin : match Sync.plan (date := IsoDate.instance) Scenario.default_env
                        Scenario.three Scenario.no_query Scenario.noon ∅ with
                | Ok pl => Sync.plan_candidates pl
                           = Scenario.bookmarks 3 3 Scenario.noon
                | Throw _ => False
                end) by (vm_compute; reflexivity).
  rewrite Hpl in Hin.
  apply (W (Scenario.bookmark 2 (Scenario.noon - 60000))).
  - rewrite Hin. right. left.
  - rewrite Hcr, Hup. right. left.
Defined.
